(** * asv/environment.py: environments, requirement matrix, install lifecycle

    A shallow embedding of [asv/environment.py].  Python dictionaries are
    stdpp finite maps where only lookups matter and item lists where the
    iteration order is observable; strings are Rocq strings (bytes, so
    [lower] is the ASCII one); methods that mutate the environment object,
    the status file or the outside world are state transformers that may
    raise.  Logging through [log] is left out.

    Part I holds the definitions, Part II the statements about them. *)

From Stdlib Require Import ZArith Ascii String.
From stdpp Require Import gmap strings list sorting.

(** * Part I: definitions *)

(** ** Python primitives used by the module *)

(** Truth value of a [str]: only the empty string is falsy. *)
Definition str_truthy (s : string) : bool :=
  match s with
  | "" => false
  | _ => true
  end.

(** [sep.join(l)] *)
Definition str_join (sep : string) (l : list string) : string :=
  String.concat sep l.

(** [s[n:]] *)
Fixpoint str_drop (n : nat) (s : string) : string :=
  match n, s with
  | S n', String _ s' => str_drop n' s'
  | _, _ => s
  end.

(** [c.lower()] on ASCII letters. *)
Definition ascii_lower (c : ascii) : ascii :=
  let n := N_of_ascii c in
  if ((65 <=? n) && (n <=? 90))%N then ascii_of_N (n + 32) else c.

(** [s.lower()] *)
Fixpoint str_lower (s : string) : string :=
  match s with
  | "" => ""
  | String c s' => String (ascii_lower c) (str_lower s')
  end.

(** [s.startswith(p)] *)
Definition str_startswith (s p : string) : bool := String.prefix p s.

(** [s.endswith(p)] *)
Definition str_endswith (s p : string) : bool :=
  String.prefix (String.rev p) (String.rev s).

(** [dict(items)]: a later item overrides an earlier one with the same key. *)
Definition py_dict {V} (items : list (string * V)) : gmap string V :=
  fold_left (λ m kv, <[kv.1 := kv.2]> m) items ∅.

(** [zip(keys, values)] *)
Definition py_zip {A B} (l : list A) (k : list B) : list (A * B) := zip l k.

(** [itertools.product] of the lists [ls]: the first factor varies
    slowest. *)
Fixpoint product {A} (ls : list (list A)) : list (list A) :=
  match ls with
  | [] => [[]]
  | l :: ls' => x ← l; (λ rest, x :: rest) <$> product ls'
  end.

(** Tuples [(key, val)] of strings compare lexicographically, which is the
    order [list.sort()] uses on [reqs]. *)
Definition item_le (a b : string * string) : Prop :=
  if decide (a.1 = b.1) then (a.2 ≤ b.2)%string else (a.1 ≤ b.1)%string.

#[global] Instance item_le_dec : RelDecision item_le.
Proof. intros a b. unfold item_le. destruct (decide (a.1 = b.1)); apply _. Defined.

(** [os.path.join(a, b)] for a relative second component on a POSIX host. *)
Definition path_join (a b : string) : string := a +:+ "/" +:+ b.

(** ** The fragment of Python's [re] that rules are written in

    A pattern is kept in the compiled form [re] builds from its text
    ([compile] below gives it for the fragment):
    [Chr], [Dot] (any character but a newline), a character [Class] of
    ranges, the assertions [Bol] ([^]) and [Eol] ([$], also before a final
    newline), concatenation, alternation and the greedy star.  Alternatives
    are tried from left to right and the star tries one more iteration
    before it tries to stop, as a backtracking matcher does; an iteration
    that matches the empty string ends the repetition. *)

Module Re.

Inductive regex : Type :=
  | Eps
  | Chr (c : ascii)
  | Dot
  | Class (negated : bool) (ranges : list (ascii * ascii))
  | Bol
  | Eol
  | Cat (r1 r2 : regex)
  | Alt (r1 r2 : regex)
  | Star (r : regex).

(** [r+] and [r?] *)
Definition Plus (r : regex) : regex := Cat r (Star r).
Definition Opt (r : regex) : regex := Alt r Eps.

(** The pattern that matches the characters of [s] literally. *)
Fixpoint Lit (s : string) : regex :=
  match s with
  | "" => Eps
  | String c s' => Cat (Chr c) (Lit s')
  end.

Definition newline : ascii := ascii_of_N 10.

Definition in_ranges (c : ascii) (ranges : list (ascii * ascii)) : bool :=
  existsb (λ lh, (N_of_ascii lh.1 <=? N_of_ascii c)%N
                 && (N_of_ascii c <=? N_of_ascii lh.2)%N) ranges.

(** Does a single character match the one-character pattern? *)
Definition char_ok (r : regex) (a : ascii) : bool :=
  match r with
  | Chr c => bool_decide (a = c)
  | Dot => bool_decide (a ≠ newline)
  | Class negated ranges => xorb negated (in_ranges a ranges)
  | _ => false
  end.

(** The backtracking matcher.  [n] is the length of the whole subject, [s]
    what is left of it, [k] what has to match after [r]; the result is the
    end of the first match found. *)
Fixpoint go (n : nat) (r : regex) (s : list ascii)
    (k : list ascii → option nat) {struct r} : option nat :=
  match r with
  | Eps => k s
  | Chr _ | Dot | Class _ _ =>
      match s with
      | a :: s' => if char_ok r a then k s' else None
      | [] => None
      end
  | Bol => if decide (length s = n) then k s else None
  | Eol =>
      match s with
      | [] => k s
      | [a] => if decide (a = newline) then k s else None
      | _ => None
      end
  | Cat r1 r2 => go n r1 s (λ s', go n r2 s' k)
  | Alt r1 r2 =>
      match go n r1 s k with
      | Some e => Some e
      | None => go n r2 s k
      end
  | Star r1 =>
      (fix loop (fuel : nat) (s : list ascii) {struct fuel} : option nat :=
         match fuel with
         | 0 => k s
         | S fuel' =>
             match go n r1 s (λ s', if decide (length s' < length s)
                                    then loop fuel' s' else k s') with
             | Some e => Some e
             | None => k s
             end
         end) (length s) s
  end.

(** [m = re.match(r, w)], observed through [m.end()]; [None] when there is
    no match. *)
Definition re_match (r : regex) (w : string) : option nat :=
  let s := list_ascii_of_string w in
  go (length s) r s (λ s', Some (length s - length s')).

(** What it means for a pattern to match, without any search order:
    [matches n r s s'] when [r] matches the part of the subject between
    [s] and its suffix [s']. *)
Inductive matches (n : nat) : regex → list ascii → list ascii → Prop :=
  | m_eps s : matches n Eps s s
  | m_chr c s : matches n (Chr c) (c :: s) s
  | m_dot a s : a ≠ newline → matches n Dot (a :: s) s
  | m_class negated ranges a s :
      xorb negated (in_ranges a ranges) = true →
      matches n (Class negated ranges) (a :: s) s
  | m_bol s : length s = n → matches n Bol s s
  | m_eol_end : matches n Eol [] []
  | m_eol_nl : matches n Eol [newline] [newline]
  | m_cat r1 r2 s s1 s2 :
      matches n r1 s s1 → matches n r2 s1 s2 → matches n (Cat r1 r2) s s2
  | m_alt_l r1 r2 s s' : matches n r1 s s' → matches n (Alt r1 r2) s s'
  | m_alt_r r1 r2 s s' : matches n r2 s s' → matches n (Alt r1 r2) s s'
  | m_star_stop r s : matches n (Star r) s s
  | m_star_iter r s s1 s2 :
      matches n r s s1 → matches n (Star r) s1 s2 → matches n (Star r) s s2.

(** The pattern matches the entire string, from its start to its end. *)
Definition full_match (r : regex) (w : string) : Prop :=
  let s := list_ascii_of_string w in matches (length s) r s [].

(** Characters with a meaning of their own in a pattern. *)
Definition is_special (c : ascii) : bool :=
  bool_decide (c ∈ list_ascii_of_string "*+?{}()|\[].^$").

Definition is_alnum (c : ascii) : bool :=
  let n := N_of_ascii c in
  (((48 <=? n) && (n <=? 57)) || ((65 <=? n) && (n <=? 90))
   || ((97 <=? n) && (n <=? 122)))%N.

Definition is_quantifier (s : list ascii) : bool :=
  match s with
  | c :: _ => bool_decide (c ∈ list_ascii_of_string "*+?{")
  | [] => false
  end.

(** The items of a character class up to its closing bracket: single
    characters and ranges. *)
Fixpoint class_items (s : list ascii) (acc : list (ascii * ascii))
    : option (list (ascii * ascii) * list ascii) :=
  match s with
  | [] => None
  | c :: rest =>
      if decide (c = "]"%char) then
        match acc with [] => None | _ => Some (acc, rest) end
      else if decide (c = "\"%char) then
        match rest with
        | d :: rest' =>
            if is_alnum d then None else class_items rest' (acc ++ [(d, d)])
        | [] => None
        end
      else
        match rest with
        | dash :: hi :: rest' =>
            if bool_decide (dash = "-"%char) && negb (bool_decide (hi = "]"%char))
            then (if decide (hi = "\"%char) then None
                  else class_items rest' (acc ++ [(c, hi)]))
            else class_items rest (acc ++ [(c, c)])
        | _ => class_items rest (acc ++ [(c, c)])
        end
  end.

(** What follows an opening bracket. *)
Definition parse_class (s : list ascii) : option (regex * list ascii) :=
  match s with
  | c :: rest =>
      if decide (c = "^"%char)
      then '(ranges, rest') ← class_items rest []; Some (Class true ranges, rest')
      else '(ranges, rest') ← class_items s []; Some (Class false ranges, rest')
  | [] => None
  end.

(** The parser, by recursive descent: alternatives, sequences,
    repetitions, atoms.  What it does not know ([{m,n}], lazy repetition,
    groups that start with [(?], escapes of letters and digits) has no
    compiled form here. *)
Fixpoint parse_alt (fuel : nat) (s : list ascii) : option (regex * list ascii) :=
  match fuel with
  | 0 => None
  | S fuel' =>
      match parse_cat fuel' s with
      | Some (r1, c :: rest) =>
          if decide (c = "|"%char)
          then '(r2, rest') ← parse_alt fuel' rest; Some (Alt r1 r2, rest')
          else Some (r1, c :: rest)
      | other => other
      end
  end
with parse_cat (fuel : nat) (s : list ascii) : option (regex * list ascii) :=
  match fuel with
  | 0 => None
  | S fuel' =>
      match s with
      | [] => Some (Eps, [])
      | c :: _ =>
          if bool_decide (c = "|"%char) || bool_decide (c = ")"%char) then Some (Eps, s)
          else
            '(r, rest) ← parse_rep fuel' s;
            '(r', rest') ← parse_cat fuel' rest;
            Some (Cat r r', rest')
      end
  end
with parse_rep (fuel : nat) (s : list ascii) : option (regex * list ascii) :=
  match fuel with
  | 0 => None
  | S fuel' =>
      match parse_atom fuel' s with
      | Some (r, c :: rest) =>
          if is_quantifier (c :: rest) then
            if is_quantifier rest then None
            else if decide (c = "*"%char) then Some (Star r, rest)
            else if decide (c = "+"%char) then Some (Plus r, rest)
            else if decide (c = "?"%char) then Some (Opt r, rest)
            else None
          else Some (r, c :: rest)
      | other => other
      end
  end
with parse_atom (fuel : nat) (s : list ascii) : option (regex * list ascii) :=
  match fuel with
  | 0 => None
  | S fuel' =>
      match s with
      | [] => None
      | c :: rest =>
          if decide (c = "("%char) then
            match rest with
            | q :: _ =>
                if decide (q = "?"%char) then None
                else
                  match parse_alt fuel' rest with
                  | Some (r, close :: rest') =>
                      if decide (close = ")"%char) then Some (r, rest') else None
                  | _ => None
                  end
            | [] => None
            end
          else if decide (c = "["%char) then parse_class rest
          else if decide (c = "."%char) then Some (Dot, rest)
          else if decide (c = "^"%char) then Some (Bol, rest)
          else if decide (c = "$"%char) then Some (Eol, rest)
          else if decide (c = "\"%char) then
            match rest with
            | d :: rest' => if is_alnum d then None else Some (Chr d, rest')
            | [] => None
            end
          else if is_special c then None
          else Some (Chr c, rest)
      end
  end.

(** [re.compile(pattern)] for the fragment; [None] for a pattern outside
    it. *)
Definition compile (pattern : string) : option regex :=
  let s := list_ascii_of_string pattern in
  match parse_alt (4 * length s + 4) s with
  | Some (r, []) => Some r
  | _ => None
  end.

End Re.

(** ** Rule matcher *)

(** A target maps attribute names to [str] or [None]; a rule maps keys to
    a pattern or [None]. *)
Abbreviation target := (gmap string (option string)).
Abbreviation rule := (gmap string (option Re.regex)).

(** One turn of the loop of [match_rule]: [true] when the loop goes on,
    [false] when it returns [False]. *)
Definition rule_item_ok (tgt : target) (key : string) (value : option Re.regex) : bool :=
  match value with
  | None =>
      match tgt !! key with
      | Some (Some _) => false
      | _ => true
      end
  | Some pattern =>
      match tgt !! key with
      | None | Some None => false
      | Some (Some w) =>
          match Re.re_match pattern w with
          | None => false
          | Some e => bool_decide (e = String.length w)
          end
      end
  end.

(** [match_rule(target, rule)], lines 130-166.  The loop returns [False] at
    the first item that fails and has no other effect, so the order of the
    items does not show. *)
Definition match_rule (tgt : target) (rl : rule) : bool :=
  forallb (λ kv, rule_item_ok tgt kv.1 kv.2) (map_to_list rl).

(** ** Environment identity *)

Section Identity.

(** [util.sanitize_filename] and [hashlib.md5(...).hexdigest()] live
    outside this file; they are taken as they come. *)
Variable sanitize_filename : string → string.
Variable md5_hexdigest : string → string.

(** The token [get_env_name] appends for one requirement. *)
Definition req_token (kv : string * string) : string :=
  if str_truthy kv.2 then kv.1 +:+ kv.2 else kv.1.

(** [get_env_name(tool_name, python, requirements)], lines 169-187.
    [requirements] is
    [list(six.iteritems(requirements))], the items of the dict in its
    iteration order; sorting a list of distinct tuples gives the one
    sorted list there is, whatever the algorithm.  A [tool_name] of [None]
    is the empty string here, both are falsy. *)
Definition get_env_name (tool_name python : string)
    (requirements : list (string * string)) : string :=
  let name := if str_truthy tool_name then [tool_name] else [] in
  let name := name ++ ["py" +:+ python] in
  let reqs := merge_sort item_le requirements in
  let name := name ++ (req_token <$> reqs) in
  sanitize_filename (str_join "-" name).

(** [Environment.hashname], lines 455-460, with [self.name] as
    [get_env_name] gives it. *)
Definition hashname (tool_name python : string)
    (requirements : list (string * string)) : string :=
  md5_hexdigest (get_env_name tool_name python requirements).

End Identity.

(** The token list in the words of the specification: the tool kind when
    it is not empty, then the runtime version, then one token per
    requirement of a list that is already sorted by key. *)
Definition spec_tokens (tool_kind runtime_version : string)
    (sorted_reqs : list (string * string)) : list string :=
  (if decide (tool_kind = "") then [] else [tool_kind])
    ++ ["py" +:+ runtime_version]
    ++ ((λ kv, if decide (kv.2 = "") then kv.1 else kv.1 +:+ kv.2) <$> sorted_reqs).

(** ** Environment classes *)

(** What the expansion uses of an [Environment] subclass: its [tool_name]
    and its [matches] class method. *)
Record env_class : Type := EnvClass {
  tool_name : string;
  matches : option string → bool;
}.

(** The parts of the configuration object that the matrix expansion reads.
    A matrix value is a list of versions or a single version; a version is
    a string or [None].  An include entry is kept as two maps: its platform
    keys ([environment_type] and [sys_platform], whose values are patterns)
    in [inc_platform] and all its other keys in [inc_items]. *)
Inductive matrix_value : Type :=
  | MOne (v : option string)
  | MList (l : list (option string)).

Record include_entry : Type := Include {
  inc_items : gmap string (option string);
  inc_platform : rule;
}.

Record matrix_conf : Type := MatrixConf {
  conf_environment_type : string;
  conf_matrix : gmap string matrix_value;
  conf_exclude : list rule;
  conf_include : list include_entry;
}.

(** What the expansion reads of the process it runs in:
    [util.iter_subclasses(Environment)] in the order it yields the classes,
    the class [ExistingEnvironment], and [sys.platform]. *)
Record host_info : Type := Host {
  subclasses : list env_class;
  ExistingEnvironment : env_class;
  sys_platform : string;
}.

Section Classes.

Variable host : host_info.

(** [get_environment_class_by_name], lines 306-314: the position of the
    first class with that name, [None] for [EnvironmentUnavailable]. *)
Fixpoint class_index_by_name (classes : list env_class) (environment_type : string)
    : option nat :=
  match classes with
  | [] => None
  | cls :: rest =>
      if decide (tool_name cls = environment_type) then Some 0
      else S <$> class_index_by_name rest environment_type
  end.

Definition get_environment_class_by_name (environment_type : string)
    : option env_class :=
  i ← class_index_by_name (subclasses host) environment_type; subclasses host !! i.

(** [get_environment_class(conf, python)], lines 267-303; [None] when it
    raises [EnvironmentUnavailable].  The classes are distinct objects, so
    [classes.remove(cls)] takes out the one at the position found. *)
Definition get_environment_class (conf : matrix_conf) (python : option string)
    : option env_class :=
  if decide (python = Some "same") then Some (ExistingEnvironment host)
  else
    let first_match classes := List.find (λ cls, matches cls python) classes in
    if str_truthy (conf_environment_type conf) then
      match class_index_by_name (subclasses host) (conf_environment_type conf) with
      | None => None
      | Some i =>
          match subclasses host !! i with
          | None => None
          | Some cls => first_match (cls :: reverse (delete i (subclasses host)))
          end
      end
    else first_match (reverse (subclasses host)).

(** ** Matrix expander *)

(** The generator's outcome: what it yielded, and the include rule it
    raised [UserError] for, if it did. *)
Record expansion : Type := Expansion {
  yielded : list (gmap string string);
  raised : option include_entry;
}.

(** [get_env_type]: the memo [env_classes] only saves repeated lookups. *)
Definition get_env_type (conf : matrix_conf) (python : option string)
    : option string :=
  tool_name <$> get_environment_class conf python.

Definition platform_keys (environment_type : string) : list (string * option string) :=
  [("environment_type", Some environment_type);
   ("sys_platform", Some (sys_platform host))].

(** The lists [keys] and [values] after "Parse input". *)
Definition matrix_keys (conf : matrix_conf) : list string :=
  merge_sort String.le (map_to_list (conf_matrix conf)).*1.

Definition normalize_value (v : matrix_value) : list (option string) :=
  let value := match v with MOne x => [x] | MList l => l end in
  match value with
  | [] => [Some ""]
  | _ => value
  end.

Definition matrix_values (conf : matrix_conf) : list (list (option string)) :=
  omap (λ key, normalize_value <$> conf_matrix conf !! key) (matrix_keys conf).

(** [target] for one combination, [None] when the lookup of the
    environment type raises and the combination is skipped.  The key
    [python] is always there, it is the first of [all_keys]. *)
Definition combination_target (environment_type : string) (conf : matrix_conf)
    (all_keys : list string) (combination : list (option string)) : option target :=
  let tgt := py_dict (py_zip all_keys combination ++ platform_keys environment_type) in
  if str_truthy environment_type then Some tgt
  else
    match tgt !! "python" with
    | Some python =>
        env_type ← get_env_type conf python;
        Some (<["environment_type" := Some env_type]> tgt)
    | None => None
    end.

(** [dict(item for item in zip(all_keys, combination) if item[1] is not None)] *)
Definition combination_requirements (all_keys : list string)
    (combination : list (option string)) : gmap string string :=
  py_dict (omap (λ item, (item.1,.) <$> item.2) (py_zip all_keys combination)).

(** Is the combination yielded?  The [for ... else] over [conf.exclude]. *)
Definition accepted (environment_type : string) (conf : matrix_conf)
    (all_keys : list string) (combination : list (option string)) : bool :=
  match combination_target environment_type conf all_keys combination with
  | None => false
  | Some tgt => negb (existsb (match_rule tgt) (conf_exclude conf))
  end.

(** The body of [for python in pythons], lines 61-93. *)
Definition expand_python (environment_type : string) (conf : matrix_conf)
    (explicit_selection : bool) (python : string) : list (gmap string string) :=
  let all_keys := "python" :: matrix_keys conf in
  let all_combinations := product ([Some python] :: matrix_values conf) in
  let kept := filter (λ c, accepted environment_type conf all_keys c) all_combinations in
  let empty_matrix := bool_decide (kept = []) in
  (combination_requirements all_keys <$> kept)
    ++ (if empty_matrix && explicit_selection then [ {[ "python" := python ]} ] else []).

(** The loop over [conf.include], lines 99-127; it stops at an include
    rule without [python]. *)
Fixpoint process_includes (environment_type : string) (conf : matrix_conf)
    (includes : list include_entry) : expansion :=
  match includes with
  | [] => Expansion [] None
  | include :: rest =>
      match inc_items include !! "python" with
      | None => Expansion [] (Some include)
      | Some python =>
          let rest_out := process_includes environment_type conf rest in
          let tgt :=
            if str_truthy environment_type
            then Some (py_dict (platform_keys environment_type))
            else
              env_type ← get_env_type conf python;
              Some (<["environment_type" := Some env_type]>
                      (py_dict (platform_keys environment_type))) in
          match tgt with
          | None => rest_out
          | Some tgt =>
              if match_rule tgt (inc_platform include)
              then Expansion (omap id (inc_items include) :: yielded rest_out)
                             (raised rest_out)
              else rest_out
          end
      end
  end.

(** [iter_requirement_matrix(environment_type, pythons, conf,
    explicit_selection)], lines 31-127. *)
Definition iter_requirement_matrix (environment_type : string) (pythons : list string)
    (conf : matrix_conf) (explicit_selection : bool) : expansion :=
  let from_matrix := pythons ≫= expand_python environment_type conf explicit_selection in
  if explicit_selection then Expansion from_matrix None
  else
    let from_includes := process_includes environment_type conf (conf_include conf) in
    Expansion (from_matrix ++ yielded from_includes) (raised from_includes).

End Classes.

(** ** Results and exceptions *)

Inductive result (E A : Type) : Type :=
  | Ok (a : A)
  | Raise (e : E).
Arguments Ok {E A} a.
Arguments Raise {E A} e.

(** ** Command interpolation ([asv/util.py]) *)

Module Util.

(** A parsed command: the argument vector, the environment overrides and
    the accepted exit codes ([None] for any). *)
Record command : Type := Command {
  cmd_argv : list string;
  cmd_env : list (string * string);
  cmd_return_codes : option (list Z);
}.

(** A token is cut into literal text and placeholders [{name}]. *)
Inductive piece : Type :=
  | PLit (text : string)
  | PVar (name : string).

Definition str_snoc (s : string) (c : ascii) : string := s +:+ String c "".

Fixpoint pieces_go (s : string) (inside : bool) (acc : string) : list piece :=
  match s with
  | "" => [PLit (if inside then "{" +:+ acc else acc)]
  | String c s' =>
      if inside then
        if decide (c = "}"%char) then PVar acc :: pieces_go s' false ""
        else pieces_go s' true (str_snoc acc c)
      else
        if decide (c = "{"%char) then PLit acc :: pieces_go s' true ""
        else pieces_go s' false (str_snoc acc c)
  end.

Definition pieces (token : string) : list piece := pieces_go token false "".

(** The variables a token refers to, in order. *)
Definition placeholders (token : string) : list string :=
  omap (λ p, match p with PVar name => Some name | PLit _ => None end) (pieces token).

(** Substitute the placeholders of one token; the first variable that is
    not bound is the error. *)
Fixpoint format_pieces (variables : gmap string string) (ps : list piece)
    : result string string :=
  match ps with
  | [] => Ok ""
  | PLit text :: ps' =>
      match format_pieces variables ps' with
      | Ok rest => Ok (text +:+ rest)
      | Raise name => Raise name
      end
  | PVar name :: ps' =>
      match variables !! name with
      | None => Raise name
      | Some value =>
          match format_pieces variables ps' with
          | Ok rest => Ok (value +:+ rest)
          | Raise name' => Raise name'
          end
      end
  end.

Fixpoint format_tokens (variables : gmap string string) (tokens : list string)
    : result string (list string) :=
  match tokens with
  | [] => Ok []
  | token :: tokens' =>
      match format_pieces variables (pieces token) with
      | Raise name => Raise name
      | Ok word =>
          match format_tokens variables tokens' with
          | Ok words => Ok (word :: words)
          | Raise name => Raise name
          end
      end
  end.

(** [name=value], cut at the first [=]. *)
Fixpoint split_assignment (s : string) (acc : string) : option (string * string) :=
  match s with
  | "" => None
  | String c s' =>
      if decide (c = "="%char) then Some (acc, s')
      else split_assignment s' (str_snoc acc c)
  end.

Definition is_digit (c : ascii) : bool :=
  let n := N_of_ascii c in ((48 <=? n) && (n <=? 57))%N.

Definition is_name_start (c : ascii) : bool :=
  let n := N_of_ascii c in
  (((65 <=? n) && (n <=? 90)) || ((97 <=? n) && (n <=? 122)) || (n =? 95))%N.

Fixpoint all_chars (p : ascii → bool) (s : string) : bool :=
  match s with
  | "" => true
  | String c s' => p c && all_chars p s'
  end.

Definition is_var_name (s : string) : bool :=
  match s with
  | "" => false
  | String c s' => is_name_start c && all_chars (λ a, is_name_start a || is_digit a) s'
  end.

Fixpoint decimal_go (s : string) (acc : Z) : Z :=
  match s with
  | "" => acc
  | String c s' => decimal_go s' (10 * acc + (Z.of_N (N_of_ascii c) - 48))
  end.

(** The value of [return-code=...]: [any], or a decimal exit code. *)
Definition parse_return_code (value : string) : option (option (list Z)) :=
  if decide (value = "any") then Some None
  else if str_truthy value && all_chars is_digit value
       then Some (Some [decimal_go value 0])
       else None.

(** Consume the leading [return-code=] and [VAR=value] tokens. *)
Fixpoint strip_leading (words : list string) (env : list (string * string))
    (codes : option (list Z)) : command :=
  match words with
  | [] => Command [] env codes
  | word :: words' =>
      match split_assignment word "" with
      | Some (name, value) =>
          if decide (name = "return-code") then
            match parse_return_code value with
            | Some codes' => strip_leading words' env codes'
            | None => Command words env codes
            end
          else if is_var_name name then strip_leading words' (env ++ [(name, value)]) codes
          else Command words env codes
      | None => Command words env codes
      end
  end.

(** Modelled from the spec: [util.interpolate_command], which is not part
    of [asv/environment.py].  A command string may carry a leading
    [return-code=<int|any>] token and leading [VAR=value] tokens; the rest
    is the argument vector; every token has its [{variable}] placeholders
    substituted from [variables]; a placeholder that cannot be resolved
    fails the interpolation with an error that names the variable and the
    command.  Shell tokenizing is splitting at white space here (no
    quoting), and the accepted exit code is zero unless the command says
    otherwise. *)
Definition interpolate_command (command_text : string)
    (variables : gmap string string) : result (string * string) command :=
  match format_tokens variables (String.words command_text) with
  | Raise name => Raise (name, command_text)
  | Ok words => Ok (strip_leading words [] (Some [0%Z]))
  end.

(** The variables a command string refers to. *)
Definition command_placeholders (command_text : string) : list string :=
  String.words command_text ≫= placeholders.

End Util.

(** ** Environment lifecycle *)

(** A command list of the configuration: [None], one string, or a list. *)
Inductive commands : Type :=
  | CmdNone
  | CmdStr (s : string)
  | CmdList (l : list string).

#[global] Instance commands_eq_dec : EqDecision commands.
Proof. solve_decision. Defined.

(** Truth value of a configured command list. *)
Definition cmd_truthy (cmd : commands) : bool :=
  match cmd with
  | CmdNone => false
  | CmdStr s => str_truthy s
  | CmdList l => match l with [] => false | _ => true end
  end.

(** The list a configured command stands for: a single string is a list
    of one command. *)
Definition command_list (cmds : commands) : list string :=
  match cmds with
  | CmdList l => l
  | CmdStr c => [c]
  | CmdNone => []
  end.

(** The list [_get_install_checksum] returns, lines 428-434.  The timeout
    is a number of seconds that is only ever compared. *)
Record checksum : Type := Checksum {
  ck_repo_subdir : string;
  ck_install_timeout : Z;
  ck_project : string;
  ck_build_command : commands;
  ck_install_command : commands;
  ck_uninstall_command : commands;
}.

#[global] Instance checksum_eq_dec : EqDecision checksum.
Proof. solve_decision. Defined.

(** The content of [asv-install-status.json]; a key that is missing reads
    as [None], as [data.get(key, None)] does. *)
Record install_status : Type := InstallStatus {
  commit_hash : option string;
  install_checksum : option checksum;
}.

(** The attributes [__init__] fixes for the life of the object. *)
Record environment : Type := Environment {
  env_tool_name : string;
  env_name : string;
  _env_dir : string;
  _repo_subdir : string;
  _install_timeout : Z;
  _path : string;
  _project : string;
  _build_root : string;
  _build_command : commands;
  _install_command : commands;
  _uninstall_command : commands;
}.

(** Which of the three methods runs a command; carried along only to tell
    the runs apart in the trace. *)
Inductive step : Type := Uninstall | Build | Install.

#[global] Instance step_eq_dec : EqDecision step.
Proof. solve_decision. Defined.

(** What an environment does to the outside, in the order it does it.  A
    run carries the variables of the environment that [run_executable] puts
    into the environment of the process. *)
Inductive event : Type :=
  | EvCheckout (build_root commit : string)
  | EvStatus (commit : option string)
  | EvRun (st : step) (cwd : string) (cmd : Util.command) (vars : gmap string string)
  | EvCacheCreate (commit : string)
  | EvCacheFinalize (commit : string).

Inductive exn : Type :=
  | UserError (variable command_text : string)
  | AssertionError (key : string)
  | IndexError
  | ProcessError (cmd : Util.command)
  | CheckoutError (commit : string).

(** The collaborators of an environment, acting on an outside world the
    environment cannot see into: the file system as [os.path.isdir] and
    [os.listdir] show it, the repository, [find_executable] with
    [util.check_output] (the flag tells whether the call returned), and the
    build cache of [asv/build_cache.py].  The status file is not part of
    that world: only [_set_installed_commit_hash] writes it. *)
Record collaborators (World : Type) : Type := Collaborators {
  os_path_isdir : World → string → bool;
  os_listdir : World → string → list string;
  repo_checkout : string → string → World → bool * World;
  util_check_output :
    gmap string string → string → Z → Util.command → World → bool * World;
  get_cache_dir : string → World → option string;
  create_cache_dir : string → World → string * World;
  finalize_cache_dir : string → World → World;
}.
Arguments os_path_isdir {World}.
Arguments os_listdir {World}.
Arguments repo_checkout {World}.
Arguments util_check_output {World}.
Arguments get_cache_dir {World}.
Arguments create_cache_dir {World}.
Arguments finalize_cache_dir {World}.

(** The mutable part: [self._env_vars], the status file ([None] when there
    is no readable file), the outside world, and the trace. *)
Record state (World : Type) : Type := State {
  _env_vars : gmap string string;
  status_file : option install_status;
  world : World;
  trace : list event;
}.
Arguments State {World}.
Arguments _env_vars {World}.
Arguments status_file {World}.
Arguments world {World}.
Arguments trace {World}.

(** A method: it changes the state and returns or raises. *)
Definition M (World A : Type) : Type := state World → result exn A * state World.

#[global] Instance M_ret {World} : MRet (M World) := λ A a s, (Ok a, s).

#[global] Instance M_bind {World} : MBind (M World) :=
  λ A B f m s,
    match m s with
    | (Ok a, s') => f a s'
    | (Raise e, s') => (Raise e, s')
    end.

Section Lifecycle.

Context {World : Type}.
Variable C : collaborators World.

Definition raise {A} (e : exn) : M World A := λ s, (Raise e, s).

Definition get_state : M World (state World) := λ s, (Ok s, s).

Definition emit (e : event) : M World unit :=
  λ s, (Ok (), State (_env_vars s) (status_file s) (world s) (trace s ++ [e])).

Definition set_env_vars (f : gmap string string → gmap string string) : M World unit :=
  λ s, (Ok (), State (f (_env_vars s)) (status_file s) (world s) (trace s)).

Definition write_status (data : install_status) : M World unit :=
  λ s, (Ok (), State (_env_vars s) (Some data) (world s) (trace s)).

(** A call into the outside world that returns a value. *)
Definition call_world {A} (f : World → A * World) : M World A :=
  λ s, let '(a, w) := f (world s) in
       (Ok a, State (_env_vars s) (status_file s) w (trace s)).

(** A call into the outside world that returns or raises [e]. *)
Definition try_world (f : World → bool * World) (e : exn) : M World unit :=
  ok ← call_world f; if ok : bool then mret () else raise e.

(** [self._env_vars.pop(key, None)] or [self._env_vars[key] = value] *)
Definition set_or_pop (key : string) (value : option string)
    (vars : gmap string string) : gmap string string :=
  match value with
  | None => delete key vars
  | Some v => <[key := v]> vars
  end.

(** [_set_commit_hash], lines 387-391 *)
Definition _set_commit_hash (commit : option string) : M World unit :=
  set_env_vars (set_or_pop "ASV_COMMIT" commit).

(** [_set_build_dirs], lines 393-402 *)
Definition _set_build_dirs (build_dir cache_dir : option string) : M World unit :=
  set_env_vars (set_or_pop "ASV_BUILD_DIR" build_dir);;
  set_env_vars (set_or_pop "ASV_BUILD_CACHE_DIR" cache_dir).

Definition _get_install_checksum (env : environment) : checksum :=
  Checksum (_repo_subdir env) (_install_timeout env) (_project env)
           (_build_command env) (_install_command env) (_uninstall_command env).

(** [_set_installed_commit_hash], lines 404-409 *)
Definition _set_installed_commit_hash (env : environment) (commit : option string)
    : M World unit :=
  let install_checksum := _get_install_checksum env in
  write_status (InstallStatus commit (Some install_checksum));;
  emit (EvStatus commit).

(** [_get_installed_commit_hash], lines 411-426: [None] is "nothing
    installed"; a file that is missing or cannot be loaded is the empty
    dict. *)
Definition _get_installed_commit_hash (env : environment) (s : state World)
    : option string :=
  let data := default (InstallStatus None None) (status_file s) in
  let current := _get_install_checksum env in
  if decide (install_checksum data ≠ Some current) then None
  else commit_hash data.

(** The first loop of [_interpolate_commands], lines 577-583: every
    variable but [ASV] under its name without the prefix, in lower case; an
    [AssertionError] for a name that lacks the prefix. *)
Fixpoint kwargs_of_items (items : list (string * string))
    (kwargs : gmap string string) : result exn (gmap string string) :=
  match items with
  | [] => Ok kwargs
  | (key, value) :: rest =>
      if decide (key = "ASV") then kwargs_of_items rest kwargs
      else if str_startswith key "ASV_"
           then kwargs_of_items rest (<[str_lower (str_drop 4 key) := value]> kwargs)
           else Raise (AssertionError key)
  end.

(** The files of [cache_dir] whose name ends in [.whl]. *)
Definition wheels_in (w : World) (cache_dir : string) : list string :=
  filter (λ fn, str_endswith (str_lower fn) ".whl" = true) (os_listdir C w cache_dir).

(** [kwargs] with the additional [wheel_file] variable, lines 585-593. *)
Definition add_wheel_file (w : World) (kwargs : gmap string string)
    : gmap string string :=
  match kwargs !! "build_cache_dir" with
  | Some cache_dir =>
      if os_path_isdir C w cache_dir then
        match wheels_in w cache_dir with
        | [wheel] => <["wheel_file" := path_join cache_dir wheel]> kwargs
        | _ => kwargs
        end
      else kwargs
  | None => kwargs
  end.

(** The interpolation variables of a state. *)
Definition interpolation_kwargs (s : state World) : result exn (gmap string string) :=
  match kwargs_of_items (map_to_list (_env_vars s)) ∅ with
  | Raise e => Raise e
  | Ok kwargs => Ok (add_wheel_file (world s) kwargs)
  end.

(** The list comprehension over [util.interpolate_command(c, kwargs)]. *)
Fixpoint interpolate_all (cmds : list string) (kwargs : gmap string string)
    : result exn (list Util.command) :=
  match cmds with
  | [] => Ok []
  | c :: rest =>
      match Util.interpolate_command c kwargs with
      | Raise (name, text) => Raise (UserError name text)
      | Ok cmd =>
          match interpolate_all rest kwargs with
          | Ok cmds' => Ok (cmd :: cmds')
          | Raise e => Raise e
          end
      end
  end.

(** [_interpolate_commands], lines 554-596 *)
Definition _interpolate_commands (cmds : commands) (s : state World)
    : result exn (list Util.command) :=
  if negb (cmd_truthy cmds) then Ok []
  else
    let cmds := command_list cmds in
    match interpolation_kwargs s with
    | Raise e => Raise e
    | Ok kwargs => interpolate_all cmds kwargs
    end.

(** [run_executable], lines 727-758: the variables of the object go into
    the environment of the process; finding the executable and running it
    is the collaborator's. *)
Definition run_executable (env : environment) (st : step) (cwd : string)
    (cmd : Util.command) : M World unit :=
  s ← get_state;
  emit (EvRun st cwd cmd (_env_vars s));;
  try_world (util_check_output C (_env_vars s) cwd (_install_timeout env) cmd)
            (ProcessError cmd).

(** The loop of [_interpolate_and_run_commands], lines 601-605; [cmd[0]]
    of a command without words is an [IndexError]. *)
Fixpoint run_all (env : environment) (st : step) (cwd : string)
    (interpolated : list Util.command) : M World unit :=
  match interpolated with
  | [] => mret ()
  | cmd :: rest =>
      match Util.cmd_argv cmd with
      | [] => raise IndexError
      | _ :: _ => run_executable env st cwd cmd;; run_all env st cwd rest
      end
  end.

(** [_interpolate_and_run_commands], lines 598-605: the whole list is
    interpolated before the first command runs. *)
Definition _interpolate_and_run_commands (env : environment) (st : step)
    (cmds : commands) (cwd : string) : M World unit :=
  s ← get_state;
  match _interpolate_commands cmds s with
  | Raise e => raise e
  | Ok interpolated => run_all env st cwd interpolated
  end.

(** [checkout_project], lines 607-612 *)
Definition checkout_project (env : environment) (commit : string) : M World unit :=
  _set_commit_hash (Some commit);;
  emit (EvCheckout (_build_root env) commit);;
  try_world (repo_checkout C (_build_root env) commit) (CheckoutError commit).

(** [_install_project], lines 657-669 *)
Definition _install_project (env : environment) (build_dir : string) : M World unit :=
  let cmd := match _install_command env with
             | CmdNone => CmdList ["python -mpip install {wheel_file}"]
             | cmd => cmd
             end in
  if cmd_truthy cmd then _interpolate_and_run_commands env Install cmd build_dir
  else mret ().

(** [_uninstall_project], lines 671-686 *)
Definition _uninstall_project (env : environment) : M World unit :=
  _set_installed_commit_hash env None;;
  let cmd := match _uninstall_command env with
             | CmdNone => CmdList ["return-code=any python -mpip uninstall -y {project}"]
             | cmd => cmd
             end in
  if cmd_truthy cmd then _interpolate_and_run_commands env Uninstall cmd (_env_dir env)
  else mret ().

(** [_build_project], lines 688-701 *)
Definition _build_project (env : environment) (build_dir : string) : M World unit :=
  let cmd := match _build_command env with
             | CmdNone =>
                 CmdList ["python setup.py build";
                          "PIP_NO_BUILD_ISOLATION=false python -mpip wheel --no-deps --no-index -w {build_cache_dir} {build_dir}"]
             | cmd => cmd
             end in
  if cmd_truthy cmd then _interpolate_and_run_commands env Build cmd build_dir
  else mret ().

(** The three methods of [self._cache]. *)
Definition cache_get_cache_dir (commit : string) : M World (option string) :=
  s ← get_state; mret (get_cache_dir C commit (world s)).

Definition cache_create_cache_dir (commit : string) : M World string :=
  emit (EvCacheCreate commit);;
  call_world (create_cache_dir C commit).

Definition cache_finalize_cache_dir (commit : string) : M World unit :=
  emit (EvCacheFinalize commit);;
  call_world (λ w, ((), finalize_cache_dir C commit w)).

(** The directory the build and install commands run in. *)
Definition build_dir_of (env : environment) : string :=
  if str_truthy (_repo_subdir env)
  then path_join (_build_root env) (_repo_subdir env)
  else _build_root env.

(** [install_project] after the check "if anything needs to be done",
    lines 631-655. *)
Definition install_project_work (env : environment) (commit : string) : M World unit :=
  let build_dir := build_dir_of env in
  checkout_project env commit;;
  _set_build_dirs (Some build_dir) None;;
  _uninstall_project env;;
  cache_dir ← cache_get_cache_dir commit;
  match cache_dir with
  | Some cache_dir => _set_build_dirs (Some build_dir) (Some cache_dir)
  | None =>
      cache_dir ← cache_create_cache_dir commit;
      _set_build_dirs (Some build_dir) (Some cache_dir);;
      _build_project env build_dir
  end;;
  _install_project env build_dir;;
  cache_finalize_cache_dir commit;;
  _set_installed_commit_hash env (Some commit).

(** [Environment.install_project(conf, repo, commit_hash)], lines 614-655;
    [ExistingEnvironment] overrides it with a method that does nothing. *)
Definition install_project (env : environment) (commit : string) : M World unit :=
  s ← get_state;
  let installed_commit_hash := _get_installed_commit_hash env s in
  if decide (installed_commit_hash = Some commit) then
    _set_commit_hash installed_commit_hash;;
    _set_build_dirs None None
  else install_project_work env commit.

End Lifecycle.

(** ** Construction of an environment *)

(** The configuration attributes [Environment.__init__] reads. *)
Record lifecycle_conf : Type := LifecycleConf {
  conf_env_dir : string;
  conf_repo_subdir : string;
  conf_install_timeout : Z;
  conf_project : string;
  conf_build_command : commands;
  conf_install_command : commands;
  conf_uninstall_command : commands;
}.

Section Init.

Variable sanitize_filename : string → string.
Variable md5_hexdigest : string → string.
Variable os_path_abspath : string → string.
Variable os_getcwd : string.

(** The attributes set by [Environment.__init__(conf, python,
    requirements)], lines 336-385, for a subclass with the given
    [tool_name]. *)
Definition new_environment (cls_tool_name : string) (conf : lifecycle_conf)
    (python : string) (requirements : list (string * string)) : environment :=
  let path :=
    os_path_abspath
      (path_join (conf_env_dir conf)
         (hashname sanitize_filename md5_hexdigest cls_tool_name python requirements)) in
  {| env_tool_name := cls_tool_name;
     env_name := get_env_name sanitize_filename cls_tool_name python requirements;
     _env_dir := conf_env_dir conf;
     _repo_subdir := conf_repo_subdir conf;
     _install_timeout := conf_install_timeout conf;
     _path := path;
     _project := conf_project conf;
     _build_root := os_path_abspath (path_join path "project");
     _build_command := conf_build_command conf;
     _install_command := conf_install_command conf;
     _uninstall_command := conf_uninstall_command conf |}.

(** [self._env_vars] as [__init__] fills it before it looks at the status
    file. *)
Definition initial_env_vars (env : environment) : gmap string string :=
  <["ASV_ENV_TYPE" := env_tool_name env]>
    (<["ASV_ENV_DIR" := _path env]>
       (<["ASV_ENV_NAME" := env_name env]>
          (<["ASV_CONF_DIR" := os_path_abspath os_getcwd]>
             (<["ASV_PROJECT" := _project env]>
                (<["ASV" := "true"]> ∅))))).

(** The state of the object when [__init__] returns, for the status file
    and the world it finds. *)
Definition initial_state {World} (env : environment)
    (status : option install_status) (w : World) : state World :=
  let s0 := State (initial_env_vars env) status w [] in
  State (set_or_pop "ASV_COMMIT" (_get_installed_commit_hash env s0) (_env_vars s0))
        status w [].

End Init.

(** The names an environment ever gives to its variables. *)
Definition known_vars : list string :=
  ["ASV"; "ASV_PROJECT"; "ASV_CONF_DIR"; "ASV_ENV_NAME"; "ASV_ENV_DIR";
   "ASV_ENV_TYPE"; "ASV_COMMIT"; "ASV_BUILD_DIR"; "ASV_BUILD_CACHE_DIR"].

Definition env_vars_wf (vars : gmap string string) : Prop :=
  ∀ key, is_Some (vars !! key) → key ∈ known_vars.

(** ** Reading a trace *)

Definition is_checkout (e : event) : bool :=
  match e with EvCheckout _ _ => true | _ => false end.

Definition is_run (e : event) : bool :=
  match e with EvRun _ _ _ _ => true | _ => false end.

Definition is_run_of (st : step) (e : event) : bool :=
  match e with EvRun st' _ _ _ => bool_decide (st' = st) | _ => false end.

(** The variables a command ran with. *)
Definition run_vars (e : event) : option (gmap string string) :=
  match e with EvRun _ _ _ vars => Some vars | _ => None end.

(** The step of each command of a trace and the cache directory it ran
    with. *)
Definition run_cache_dirs (t : list event) : list (step * option string) :=
  omap (λ e, match e with
             | EvRun st _ _ vars => Some (st, vars !! "ASV_BUILD_CACHE_DIR")
             | _ => None
             end) t.

Definition is_finalize (commit : string) (e : event) : bool :=
  match e with EvCacheFinalize c => bool_decide (c = commit) | _ => false end.

Definition count_events (p : event → bool) (t : list event) : nat :=
  length (filter (λ e, p e = true) t).

(** The place of an event in an install, as the code orders the steps. *)
Definition step_rank (e : event) : nat :=
  match e with
  | EvCheckout _ _ => 0
  | EvStatus None => 1
  | EvRun Uninstall _ _ _ => 2
  | EvCacheCreate _ => 3
  | EvRun Build _ _ _ => 4
  | EvRun Install _ _ _ => 5
  | EvCacheFinalize _ => 6
  | EvStatus (Some _) => 7
  end.

(** The place of an event in the order the specification gives: the cache
    entry is finalized before the install commands run. *)
Definition spec_step_rank (e : event) : nat :=
  match e with
  | EvCheckout _ _ => 0
  | EvStatus None => 1
  | EvRun Uninstall _ _ _ => 2
  | EvCacheCreate _ => 3
  | EvRun Build _ _ _ => 4
  | EvCacheFinalize _ => 5
  | EvRun Install _ _ _ => 6
  | EvStatus (Some _) => 7
  end.

(** The events of a trace follow an order of steps. *)
Definition in_step_order (rank : event → nat) (t : list event) : Prop :=
  StronglySorted (λ a b, rank a ≤ rank b) t.

(** ** A small world to run installs in *)

Module Sim.

Inductive entry_state : Type := Building | Valid.

(** The outside world: the entries of the build cache, the directories
    with their listings, and the command lines that fail when run, each
    given by the words it starts with. *)
Record sim_world : Type := SimWorld {
  cache_entries : gmap string entry_state;
  dirs : gmap string (list string);
  failing : list (list string);
}.

Definition cache_root : string := "/env/asv-build-cache".

Definition cache_path (commit : string) : string := path_join cache_root commit.

(** Modelled from the spec: the build cache of [asv/build_cache.py], which
    is not part of [asv/environment.py].  An entry is absent, building or
    valid; [get_cache_dir] returns a finalized directory only;
    [create_cache_dir] allocates a fresh, empty working directory and
    records it as building; [finalize_cache_dir] promotes a building entry
    to valid and is safe without a matching create.  The bound on the size
    of the cache and its eviction are left out. *)
Definition sim_get_cache_dir (commit : string) (w : sim_world) : option string :=
  match cache_entries w !! commit with
  | Some Valid => Some (cache_path commit)
  | _ => None
  end.

(** Modelled from the spec: [create_cache_dir] of the build cache. *)
Definition sim_create_cache_dir (commit : string) (w : sim_world) : string * sim_world :=
  (cache_path commit,
   SimWorld (<[commit := Building]> (cache_entries w))
            (<[cache_path commit := []]> (dirs w))
            (failing w)).

(** Modelled from the spec: [finalize_cache_dir] of the build cache. *)
Definition sim_finalize_cache_dir (commit : string) (w : sim_world) : sim_world :=
  match cache_entries w !! commit with
  | Some Building => SimWorld (<[commit := Valid]> (cache_entries w)) (dirs w) (failing w)
  | _ => w
  end.

(** The directory after [-w] in an argument vector. *)
Fixpoint wheel_dir (argv : list string) : option string :=
  match argv with
  | flag :: rest =>
      if decide (flag = "-w") then head rest else wheel_dir rest
  | [] => None
  end.

(** Running a command: it fails when it starts like one of [failing];
    a command with [-w dir] leaves one wheel in [dir]. *)
Definition sim_check_output (vars : gmap string string) (cwd : string) (timeout : Z)
    (cmd : Util.command) (w : sim_world) : bool * sim_world :=
  let argv := Util.cmd_argv cmd in
  if existsb (λ words, bool_decide (words `prefix_of` argv)) (failing w) then (false, w)
  else
    match wheel_dir argv with
    | Some dir =>
        (true, SimWorld (cache_entries w)
                        (<[dir := default [] (dirs w !! dir) ++ ["project-0.1-py3-none-any.whl"]]>
                           (dirs w))
                        (failing w))
    | None => (true, w)
    end.

Definition sim : collaborators sim_world :=
  {| os_path_isdir w path := bool_decide (is_Some (dirs w !! path));
     os_listdir w path := default [] (dirs w !! path);
     repo_checkout build_root commit w := (true, w);
     util_check_output := sim_check_output;
     get_cache_dir := sim_get_cache_dir;
     create_cache_dir := sim_create_cache_dir;
     finalize_cache_dir := sim_finalize_cache_dir |}.

(** The same collaborators with a cache that keeps nothing: its lookup
    never finds a build. *)
Definition no_cache : collaborators sim_world :=
  {| os_path_isdir := os_path_isdir sim;
     os_listdir := os_listdir sim;
     repo_checkout := repo_checkout sim;
     util_check_output := sim_check_output;
     get_cache_dir commit w := None;
     create_cache_dir := sim_create_cache_dir;
     finalize_cache_dir commit w := w |}.

(** The same collaborators with a cache that has a finalized build of
    every revision. *)
Definition full_cache : collaborators sim_world :=
  {| os_path_isdir := os_path_isdir sim;
     os_listdir := os_listdir sim;
     repo_checkout := repo_checkout sim;
     util_check_output := sim_check_output;
     get_cache_dir commit w := Some (cache_path commit);
     create_cache_dir := sim_create_cache_dir;
     finalize_cache_dir commit w := w |}.

(** An environment with the default commands. *)
Definition default_env : environment :=
  {| env_tool_name := "virtualenv";
     env_name := "virtualenv-py3.9";
     _env_dir := "/envs";
     _repo_subdir := "";
     _install_timeout := 600;
     _path := "/env";
     _project := "project";
     _build_root := "/env/project";
     _build_command := CmdNone;
     _install_command := CmdNone;
     _uninstall_command := CmdNone |}.

Definition fresh_world : sim_world := SimWorld ∅ ∅ [].

(** The state of a new environment that has never installed anything. *)
Definition fresh_state (w : sim_world) : state sim_world :=
  initial_state id "/work" default_env None w.

(** A world in which installing the wheel fails. *)
Definition pip_install_fails : sim_world :=
  SimWorld ∅ ∅ [["python"; "-mpip"; "install"]].

(** A world whose cache holds a finalized build of revision [r1]. *)
Definition cached_r1 : sim_world :=
  SimWorld {[ "r1" := Valid ]}
           {[ cache_path "r1" := ["project-0.1-py3-none-any.whl"] ]}
           [].

End Sim.

(** ** Inputs and notions used in the statements *)

(** The pattern [^3\.[0-9]+$]. *)
Definition version_3_x : Re.regex :=
  Re.Cat Re.Bol
    (Re.Cat (Re.Chr "3")
       (Re.Cat (Re.Chr ".")
          (Re.Cat (Re.Plus (Re.Class false [("0"%char, "9"%char)]))
             (Re.Cat Re.Eol Re.Eps)))).

(** The pattern [a|ab]. *)
Definition a_or_ab : Re.regex := Re.Alt (Re.Lit "a") (Re.Lit "ab").

(** The axes [A = [1, 2]] and [B = []] with the exclude rule [{A: "1"}]. *)
Definition axes_A_B (conf_type : string) : matrix_conf :=
  MatrixConf conf_type
             {[ "A" := MList [Some "1"; Some "2"]; "B" := MList [] ]}
             [ {[ "A" := Some (Re.Lit "1") ]} ]
             [].

(** A class that matches no version, and a host that knows no class. *)
Definition no_class : env_class := EnvClass "" (λ _, false).

Definition linux_host : host_info := Host [] no_class "linux".

(** No combination of the matrix is accepted for the version. *)
Definition fully_excluded (host : host_info) (environment_type : string)
    (conf : matrix_conf) (python : string) : Prop :=
  Forall (λ c, accepted host environment_type conf ("python" :: matrix_keys conf) c = false)
         (product ([Some python] :: matrix_values conf)).

Definition with_includes (conf : matrix_conf) (includes : list include_entry) : matrix_conf :=
  MatrixConf (conf_environment_type conf) (conf_matrix conf) (conf_exclude conf) includes.

(** A matrix whose exclude rule matches every combination, with an
    include entry. *)
Definition all_excluded : matrix_conf :=
  MatrixConf "" {[ "numpy" := MList [Some "1.8"] ]} [ ∅ ]
             [ Include {[ "python" := Some "2.7" ]} ∅ ].

(** An exception of the uninstall, build or install step. *)
Definition is_step_exn (e : exn) : bool :=
  match e with
  | CheckoutError _ => false
  | _ => true
  end.

(** The events between the uninstall and the install commands: none when
    the cache has the build, else the allocation and the build commands. *)
Definition cache_part (commit : string) (tC : list event) : Prop :=
  tC = [] ∨ ∃ tB, tC = EvCacheCreate commit :: tB ∧ Forall (λ e, is_run_of Build e = true) tB.

(** The variables of the build a command of an install runs with: the
    build directory for every command, the cache directory for the build
    and install commands and not for the uninstall commands. *)
Definition run_vars_ok (env : environment) (e : event) : Prop :=
  match e with
  | EvRun st _ _ vars =>
      vars !! "ASV_BUILD_DIR" = Some (build_dir_of env)
      ∧ match st with
        | Uninstall => vars !! "ASV_BUILD_CACHE_DIR" = None
        | Build | Install => is_Some (vars !! "ASV_BUILD_CACHE_DIR")
        end
  | _ => True
  end.

(** The events [tC] agree with what the cache said when it was asked for
    the build of the revision. *)
Definition cache_lookup {World} (C : collaborators World) (commit : string)
    (tC : list event) : Prop :=
  (tC = [] ∧ ∃ w, is_Some (get_cache_dir C commit w))
  ∨ (tC ≠ [] ∧ ∃ w, get_cache_dir C commit w = None).

(** How far [install_project] got when it has work to do, with the
    events of the call and what it leaves behind. *)
Inductive install_outcome {World} (C : collaborators World) (env : environment)
    (commit : string) (s s' : state World) : result exn () → list event → Prop :=
  | io_checkout_failed :
      status_file s' = status_file s →
      install_outcome C env commit s s' (Raise (CheckoutError commit))
        [EvCheckout (_build_root env) commit]
  | io_uninstall_failed e tU :
      is_step_exn e = true →
      Forall (λ e, is_run_of Uninstall e = true) tU →
      Forall (run_vars_ok env) tU →
      status_file s' = Some (InstallStatus None (Some (_get_install_checksum env))) →
      install_outcome C env commit s s' (Raise e)
        (EvCheckout (_build_root env) commit :: EvStatus None :: tU)
  | io_build_failed e tU tB :
      is_step_exn e = true →
      Forall (λ e, is_run_of Uninstall e = true) tU →
      Forall (λ e, is_run_of Build e = true) tB →
      Forall (run_vars_ok env) (tU ++ tB) →
      (∃ w, get_cache_dir C commit w = None) →
      status_file s' = Some (InstallStatus None (Some (_get_install_checksum env))) →
      install_outcome C env commit s s' (Raise e)
        (EvCheckout (_build_root env) commit :: EvStatus None
           :: tU ++ EvCacheCreate commit :: tB)
  | io_install_failed e tU tC tI :
      is_step_exn e = true →
      Forall (λ e, is_run_of Uninstall e = true) tU →
      cache_part commit tC →
      cache_lookup C commit tC →
      Forall (λ e, is_run_of Install e = true) tI →
      Forall (run_vars_ok env) (tU ++ tC ++ tI) →
      status_file s' = Some (InstallStatus None (Some (_get_install_checksum env))) →
      install_outcome C env commit s s' (Raise e)
        (EvCheckout (_build_root env) commit :: EvStatus None :: tU ++ tC ++ tI)
  | io_done tU tC tI :
      Forall (λ e, is_run_of Uninstall e = true) tU →
      cache_part commit tC →
      cache_lookup C commit tC →
      Forall (λ e, is_run_of Install e = true) tI →
      Forall (run_vars_ok env) (tU ++ tC ++ tI) →
      status_file s' = Some (InstallStatus (Some commit) (Some (_get_install_checksum env))) →
      _env_vars s' !! "ASV_BUILD_DIR" = Some (build_dir_of env) →
      is_Some (_env_vars s' !! "ASV_BUILD_CACHE_DIR") →
      install_outcome C env commit s s' (Ok ())
        (EvCheckout (_build_root env) commit :: EvStatus None
           :: tU ++ tC ++ tI ++ [EvCacheFinalize commit; EvStatus (Some commit)]).

(** What a list of commands does when it runs for the step [st]: it only
    adds runs of that step to the trace, and leaves the variables and the
    status file alone. *)
Definition runs_only {World} (st : step) (s s' : state World) (r : result exn ())
    (t : list event) : Prop :=
  trace s' = trace s ++ t
  ∧ Forall (λ e, is_run_of st e = true) t
  ∧ _env_vars s' = _env_vars s
  ∧ status_file s' = status_file s
  ∧ (∀ e, r = Raise e → is_step_exn e = true)
  ∧ Forall (λ e, run_vars e = Some (_env_vars s)) t.

(** A stretch of a trace that is in step order and stays between two
    ranks. *)
Definition segment (rank : event → nat) (a b : nat) (t : list event) : Prop :=
  in_step_order rank t ∧ Forall (λ e, a ≤ rank e ≤ b) t.

(** Some field of the recorded checksum is not what the environment is
    configured with. *)
Definition checksum_differs (recorded : checksum) (env : environment) : Prop :=
  ck_repo_subdir recorded ≠ _repo_subdir env
  ∨ ck_install_timeout recorded ≠ _install_timeout env
  ∨ ck_project recorded ≠ _project env
  ∨ ck_build_command recorded ≠ _build_command env
  ∨ ck_install_command recorded ≠ _install_command env
  ∨ ck_uninstall_command recorded ≠ _uninstall_command env.

Definition is_status_some (e : event) : bool :=
  match e with EvStatus (Some _) => true | _ => false end.

Definition is_cache_create (e : event) : bool :=
  match e with EvCacheCreate _ => true | _ => false end.

(** A configuration of [Sim.default_env] with another project name. *)
Definition renamed_env : environment :=
  {| env_tool_name := "virtualenv";
     env_name := "virtualenv-py3.9";
     _env_dir := "/envs";
     _repo_subdir := "";
     _install_timeout := 600;
     _path := "/env";
     _project := "renamed";
     _build_root := "/env/project";
     _build_command := CmdNone;
     _install_command := CmdNone;
     _uninstall_command := CmdNone |}.

(** ** The environment of a process *)


(** [s.split(sep)] for a separator of one character: the fields between
    the separators; the empty string has one empty field. *)
Fixpoint str_split (sep : ascii) (s : string) : list string :=
  match s with
  | "" => [""]
  | String c s' =>
      if decide (c = sep) then "" :: str_split sep s'
      else match str_split sep s' with
           | field :: fields => String c field :: fields
           | [] => [String c ""]
           end
  end.

Section ProcessEnvironment.

(** [WIN], [os.pathsep] and [os.path.join] as the host has them. *)
Variable WIN : bool.
Variable os_pathsep : ascii.
Variable os_path_join : string → string → string.

Definition subpaths : list string :=
  ["Library\mingw-w64\bin"; "Library\bin"; "Library\usr\bin"; "Scripts"].

(** "Insert bin dirs to PATH", lines 740-749. *)
Definition insert_bin_dirs (path : string) (paths : list string) : list string :=
  if WIN then
    path :: fold_left (λ paths sub, os_path_join path sub :: paths) (reverse subpaths) paths
  else os_path_join path "bin" :: paths.

(** The environment [run_executable] gives to the process, lines 731-756,
    from the [env] argument (or [os.environ]) and [self._env_vars]. *)
Definition process_environ (path : string) (env_arg env_vars : gmap string string)
    : gmap string string :=
  let env := env_vars ∪ env_arg in
  let paths := match env !! "PATH" with
               | Some value => str_split os_pathsep value
               | None => []
               end in
  let paths := insert_bin_dirs path paths in
  <["PATH" := str_join (String os_pathsep "") paths]> (<["PIP_USER" := "false"]> env).

(** The environment of a command of [_interpolate_and_run_commands], lines
    601-605: [os.environ], updated with the dict [env] of the interpolated
    command, goes to [run_executable]. *)
Definition command_environ (path : string)
    (os_environ env env_vars : gmap string string) : gmap string string :=
  process_environ path (env ∪ os_environ) env_vars.

(** The directories [find_executable] searches, lines 717-723. *)
Definition find_executable_paths (path : string) : list string :=
  if WIN then [path; os_path_join path "Scripts"; os_path_join path "bin"]
  else [os_path_join path "bin"].

End ProcessEnvironment.


(** ** More notions for the matrix *)

(** The number of combinations of the matrix: the product of the sizes of
    its axes, an axis without values counting for one. *)
Definition matrix_size (conf : matrix_conf) : nat :=
  foldr (λ values n, length values * n) 1 (matrix_values conf).

(** An include rule says which Python it is for. *)
Definition has_python (include : include_entry) : Prop :=
  is_Some (inc_items include !! "python").


(** ** Selection of environments *)

(** [s.split(sep, 1)] for a separator of one character that occurs in [s]:
    what is before its first occurrence and what is after it; [None] when
    it does not occur. *)
Fixpoint str_partition (sep : ascii) (s : string) : option (string * string) :=
  match s with
  | "" => None
  | String c s' =>
      if decide (c = sep) then Some ("", s')
      else '(before, after) ← str_partition sep s'; Some (String c before, after)
  end.

(** What ends the iteration of [get_environments] early: the [UserError]
    of the matrix expansion for an include rule, or the [KeyError] of
    [requirements.pop('python')]. *)
Inductive selection_error : Type :=
  | IncludeError (include : include_entry)
  | KeyError.

Section Selection.

Variable host : host_info.

(** The environment objects: their class is outside this file for all but
    [ExistingEnvironment], so an object is known by its [name] and made by
    [cls(conf, python, requirements)], which gives [None] when the
    constructor raises [EnvironmentUnavailable]. *)
Variable Env : Type.
Variable name_of : Env → string.
Variable construct : env_class → string → gmap string string → option Env.

(** What the generator yielded and what it raised, if it did. *)
Record selection : Type := Selection {
  selected : list Env;
  failed : option selection_error;
}.

(** The loop over [requirements_iter], lines 252-264. *)
Fixpoint make_environments (env_type : string) (conf : matrix_conf)
    (requirements_iter : list (gmap string string)) : selection :=
  match requirements_iter with
  | [] => Selection [] None
  | requirements :: rest =>
      match requirements !! "python" with
      | None => Selection [] (Some KeyError)
      | Some python =>
          let requirements := delete "python" requirements in
          let cls :=
            if str_truthy env_type then get_environment_class_by_name host env_type
            else get_environment_class host conf (Some python) in
          let rest_out := make_environments env_type conf rest in
          match cls ≫= λ cls, construct cls python requirements with
          | Some env => Selection (env :: selected rest_out) (failed rest_out)
          | None => rest_out
          end
      end
  end.

(** One turn of the loop over [env_specifiers], lines 221-264.  The
    generator [iter_requirement_matrix] raises after its last item, so its
    error comes after the environments of its items. *)
Definition select_spec (conf : matrix_conf) (conf_pythons : list string)
    (all_environments : list Env) (env_spec : string) : selection :=
  match List.find (λ env, bool_decide (env_spec = name_of env)) all_environments with
  | Some env => Selection [env] None
  | None =>
      let '(env_type, pythons, explicit_selection) :=
        match (if str_truthy env_spec then str_partition ":" env_spec else None) with
        | Some (env_type, python_spec) => (env_type, [python_spec], true)
        | None =>
            if decide (env_spec = "existing") then (env_spec, ["same"], true)
            else (env_spec, conf_pythons, false)
        end in
      let requirements_iter :=
        if decide (env_type ≠ "existing")
        then iter_requirement_matrix host env_type pythons conf explicit_selection
        else Expansion ((λ python, {[ "python" := python ]}) <$> pythons) None in
      let out := make_environments env_type conf (yielded requirements_iter) in
      match failed out with
      | Some _ => out
      | None => Selection (selected out) (IncludeError <$> raised requirements_iter)
      end
  end.

(** The loop over [env_specifiers]. *)
Fixpoint select_all (conf : matrix_conf) (conf_pythons : list string)
    (all_environments : list Env) (env_specifiers : list string) : selection :=
  match env_specifiers with
  | [] => Selection [] None
  | env_spec :: rest =>
      let out := select_spec conf conf_pythons all_environments env_spec in
      match failed out with
      | Some _ => out
      | None =>
          let rest_out := select_all conf conf_pythons all_environments rest in
          Selection (selected out ++ selected rest_out) (failed rest_out)
      end
  end.

(** [get_environments(conf, env_specifiers)], lines 190-264, with
    [conf.pythons] beside the configuration of the matrix.  Without
    specifiers the one specifier is [conf.environment_type] ([None] is the
    empty string here) and no environment is known by name; with
    specifiers, the environments of the configuration are collected
    first, and an error in collecting them is raised before anything is
    yielded. *)
Definition get_environments (conf : matrix_conf) (conf_pythons : list string)
    (env_specifiers : list string) : selection :=
  match env_specifiers with
  | [] => select_all conf conf_pythons [] [conf_environment_type conf]
  | _ :: _ =>
      let all := select_all conf conf_pythons [] [conf_environment_type conf] in
      match failed all with
      | Some e => Selection [] (Some e)
      | None => select_all conf conf_pythons (selected all) env_specifiers
      end
  end.

End Selection.

Arguments Selection {Env}.
Arguments selected {Env}.
Arguments failed {Env}.

(** ** Creation of an environment on disk *)

(** What [create] does to the disk, in the order it does it. *)
Inductive setup_event (Info : Type) : Type :=
  | SvRmtree (path : string)
  | SvMakedirs (path : string)
  | SvSetup
  | SvSaveInfo (path : string) (content : Info).
Arguments SvRmtree {Info}.
Arguments SvMakedirs {Info}.
Arguments SvSetup {Info}.
Arguments SvSaveInfo {Info}.

(** The collaborators of [check_presence] and [create]: the file system
    ([os.path.isdir], [os.path.exists], [util.long_path_rmtree], which
    returns or raises, [os.makedirs], whose [OSError] is ignored), the
    info file ([util.load_json], [None] when it raises [UserError] or
    [IOError], and [util.write_json], which returns or raises),
    [util.which] ([false] for [IOError]),
    [run_executable('python', ['-c', 'pass'])] ([false] when it raises
    [CalledProcessError] or [OSError]) and the [_setup] of the subclass,
    which returns or raises. *)
Record setup_collaborators (World Info Exn : Type) : Type := SetupCollaborators {
  path_isdir : World → string → bool;
  path_exists : World → string → bool;
  long_path_rmtree : string → World → option Exn * World;
  makedirs : string → World → World;
  load_json : World → string → option Info;
  write_json : string → Info → World → option Exn * World;
  which : World → string → list string → bool;
  run_python_pass : World → bool * World;
  _setup : World → option Exn * World;
}.
Arguments path_isdir {World Info Exn}.
Arguments path_exists {World Info Exn}.
Arguments long_path_rmtree {World Info Exn}.
Arguments makedirs {World Info Exn}.
Arguments load_json {World Info Exn}.
Arguments write_json {World Info Exn}.
Arguments which {World Info Exn}.
Arguments run_python_pass {World Info Exn}.
Arguments _setup {World Info Exn}.

(** The mutable part for [create]: the flag [self._is_setup], the disk and
    the trace. *)
Record setup_state (World Info : Type) : Type := SetupState {
  _is_setup : bool;
  disk : World;
  setup_trace : list (setup_event Info);
}.
Arguments SetupState {World Info}.
Arguments _is_setup {World Info}.
Arguments disk {World Info}.
Arguments setup_trace {World Info}.

Section Creation.

Context {World Info Exn : Type} `{EqDecision Info}.
Variable K : setup_collaborators World Info Exn.
Variable WIN : bool.
Variable os_path_join : string → string → string.

(** [check_presence], lines 470-502, for the [expected_info] of the
    object; the disk changes only by running Python. *)
Definition check_presence (env : environment) (expected_info : Info) (w : World)
    : bool * World :=
  if negb (path_isdir K w (_env_dir env)) then (false, w)
  else
    match load_json K w (os_path_join (_path env) "asv-env-info.json") with
    | None => (false, w)
    | Some info =>
        if decide (info ≠ expected_info) then (false, w)
        else
          let paths := find_executable_paths WIN os_path_join (_path env) in
          if negb (which K w "pip" paths) then (false, w)
          else if negb (which K w "python" paths) then (false, w)
          else run_python_pass K w
    end.

(** [if os.path.exists(self._path): util.long_path_rmtree(self._path)],
    lines 513-514 and 533-534; what the removal raises goes to the
    caller. *)
Definition remove_if_exists (path : string) (st : setup_state World Info)
    : result Exn unit * setup_state World Info :=
  if path_exists K (disk st) path
  then
    let '(raised, w) := long_path_rmtree K path (disk st) in
    let st := SetupState (_is_setup st) w (setup_trace st ++ [SvRmtree path]) in
    match raised with
    | Some e => (Raise e, st)
    | None => (Ok (), st)
    end
  else (Ok (), st).

(** [save_info_file(self._path)], lines 764-775, and the flag set after
    it, line 539; when [util.write_json] raises, the flag is not set. *)
Definition save_and_mark (env : environment) (expected_info : Info)
    (st : setup_state World Info) : result Exn unit * setup_state World Info :=
  let path := os_path_join (_path env) "asv-env-info.json" in
  let '(raised, w) := write_json K path expected_info (disk st) in
  let t := setup_trace st ++ [SvSaveInfo path expected_info] in
  match raised with
  | Some e => (Raise e, SetupState (_is_setup st) w t)
  | None => (Ok (), SetupState true w t)
  end.

(** [create], lines 504-539.  The removal of line 514 and the saving of
    line 537 are outside any [try]: what they raise leaves [create].  In
    the handler of lines 531-535 the removal comes before the [raise], so
    what it raises takes the place of the exception of [_setup]. *)
Definition create (env : environment) (expected_info : Info)
    (st : setup_state World Info) : result Exn unit * setup_state World Info :=
  if _is_setup st then (Ok (), st)
  else
    let '(present, w) := check_presence env expected_info (disk st) in
    let st := SetupState false w (setup_trace st) in
    if present then save_and_mark env expected_info st
    else
      match remove_if_exists (_path env) st with
      | (Raise e, st) => (Raise e, st)
      | (Ok _, st) =>
          let st :=
            if negb (path_exists K (disk st) (_env_dir env))
            then SetupState false (makedirs K (_env_dir env) (disk st))
                            (setup_trace st ++ [SvMakedirs (_env_dir env)])
            else st in
          let '(raised, w) := _setup K (disk st) in
          let st := SetupState false w (setup_trace st ++ [SvSetup]) in
          match raised with
          | Some e =>
              match remove_if_exists (_path env) st with
              | (Raise e', st) => (Raise e', st)
              | (Ok _, st) => (Raise e, st)
              end
          | None => save_and_mark env expected_info st
          end
      end.

End Creation.

(** ** More notions for the lifecycle *)

(** The trace grows by events that satisfy [P]. *)
Definition grows {World} (P : event → Prop) (s s' : state World) : Prop :=
  ∃ t, trace s' = trace s ++ t ∧ Forall P t.

(** An event of an install is in its place: the checkout is of the
    revision into the build root, the uninstall commands run in the
    directory of the environments and the build and install commands in
    the build directory, the cache is asked for the revision, and the
    status is written without a revision or with the revision. *)
Definition event_in_place (env : environment) (commit : string) (e : event) : Prop :=
  match e with
  | EvCheckout build_root c => build_root = _build_root env ∧ c = commit
  | EvStatus hash => hash = None ∨ hash = Some commit
  | EvRun Uninstall cwd _ _ => cwd = _env_dir env
  | EvRun _ cwd _ _ => cwd = build_dir_of env
  | EvCacheCreate c | EvCacheFinalize c => c = commit
  end.

(** ** More inputs *)

(** Three environment classes, in the order [util.iter_subclasses] gives
    them on a host where [conda] and [virtualenv] take every version but
    [same]. *)
Definition conda_class : env_class :=
  EnvClass "conda" (λ python, bool_decide (python ≠ Some "same")).

Definition virtualenv_class : env_class :=
  EnvClass "virtualenv" (λ python, bool_decide (python ≠ Some "same")).

Definition existing_class : env_class :=
  EnvClass "existing" (λ python, bool_decide (python = Some "same")).

Definition three_classes : host_info :=
  Host [conda_class; virtualenv_class; existing_class] existing_class "linux".

(** A matrix of two axes without exclude and include rules. *)
Definition two_axes : matrix_conf :=
  MatrixConf "virtualenv"
             {[ "numpy" := MList [Some "1.8"; Some "1.9"]; "six" := MList [] ]}
             [] [].

(** Environment objects that record what they were made from. *)
Record sample_env : Type := SampleEnv {
  sample_class : string;
  sample_python : string;
  sample_requirements : gmap string string;
}.

Definition sample_name (env : sample_env) : string :=
  get_env_name id (sample_class env) (sample_python env)
               (map_to_list (sample_requirements env)).

Definition sample_construct (cls : env_class) (python : string)
    (requirements : gmap string string) : option sample_env :=
  Some (SampleEnv (tool_name cls) python requirements).

(** The collaborators of [Sim.sim] with a repository whose checkout
    fails. *)
Definition broken_repo : collaborators Sim.sim_world :=
  {| os_path_isdir := os_path_isdir Sim.sim;
     os_listdir := os_listdir Sim.sim;
     repo_checkout build_root commit w := (false, w);
     util_check_output := Sim.sim_check_output;
     get_cache_dir := Sim.sim_get_cache_dir;
     create_cache_dir := Sim.sim_create_cache_dir;
     finalize_cache_dir := Sim.sim_finalize_cache_dir |}.

(** A disk that is a list of the paths that exist, with the content of
    the info file, and a [_setup] that makes the directory of the
    environment or fails. *)
Record sample_disk : Type := SampleDisk {
  disk_paths : list string;
  disk_info : option string;
}.

Definition sample_setup (works : bool) : setup_collaborators sample_disk string string :=
  {| path_isdir w path := bool_decide (path ∈ disk_paths w);
     path_exists w path := bool_decide (path ∈ disk_paths w);
     long_path_rmtree path w :=
       (None, SampleDisk (filter (λ p, p ≠ path) (disk_paths w)) None);
     makedirs path w := SampleDisk (path :: disk_paths w) (disk_info w);
     load_json w path := disk_info w;
     write_json path content w := (None, SampleDisk (disk_paths w) (Some content));
     which w executable paths := bool_decide (Sim.default_env.(_path) ∈ disk_paths w);
     run_python_pass w := (true, w);
     _setup w :=
       if works then (None, SampleDisk (Sim.default_env.(_path) :: disk_paths w) (disk_info w))
       else (Some "virtualenv failed", w) |}.

(** The same on a disk where nothing can be written or removed: [_setup]
    works, [util.write_json] and [util.long_path_rmtree] raise. *)
Definition read_only_setup : setup_collaborators sample_disk string string :=
  {| path_isdir w path := bool_decide (path ∈ disk_paths w);
     path_exists w path := bool_decide (path ∈ disk_paths w);
     long_path_rmtree path w := (Some "read-only file system", w);
     makedirs path w := SampleDisk (path :: disk_paths w) (disk_info w);
     load_json w path := disk_info w;
     write_json path content w := (Some "read-only file system", w);
     which w executable paths := bool_decide (Sim.default_env.(_path) ∈ disk_paths w);
     run_python_pass w := (true, w);
     _setup w :=
       (None, SampleDisk (Sim.default_env.(_path) :: disk_paths w) (disk_info w)) |}.


(** ** The wheel of a build *)

(** A file name ends in [.whl], in whatever case the three letters are
    written. *)
Definition ends_with_whl (fn : string) : Prop :=
  ∃ stem w h l,
    fn = stem +:+ String "." (String w (String h (String l "")))
    ∧ (w = "w" ∨ w = "W")%char ∧ (h = "h" ∨ h = "H")%char ∧ (l = "l" ∨ l = "L")%char.

(** The listing [files] has one file whose name ends in [.whl], and it is
    [wheel]. *)
Definition only_wheel (files : list string) (wheel : string) : Prop :=
  ∃ before after,
    files = before ++ wheel :: after
    ∧ ends_with_whl wheel
    ∧ Forall (λ fn, ¬ ends_with_whl fn) (before ++ after).

(** A world whose cache directory holds a wheel with its ending in capitals
    beside another file, and a state whose variables name that directory. *)
Definition capital_wheel : Sim.sim_world :=
  Sim.SimWorld ∅ {[ "/cache" := ["notes.txt"; "project-0.1-py3-none-any.WHL"] ]} [].

Definition cache_dir_state (w : Sim.sim_world) : state Sim.sim_world :=
  State {[ "ASV_BUILD_CACHE_DIR" := "/cache" ]} None w [].

(** ** The commands of a complete install *)

(** The command list a step has to run: what the configuration gives, or
    the default of the method when it gives [None] (lines 661-664,
    678-682, 692-696). *)
Definition configured_command (env : environment) (st : step) : commands :=
  match st with
  | Uninstall =>
      match _uninstall_command env with
      | CmdNone => CmdList ["return-code=any python -mpip uninstall -y {project}"]
      | cmd => cmd
      end
  | Build =>
      match _build_command env with
      | CmdNone =>
          CmdList ["python setup.py build";
                   "PIP_NO_BUILD_ISOLATION=false python -mpip wheel --no-deps --no-index -w {build_cache_dir} {build_dir}"]
      | cmd => cmd
      end
  | Install =>
      match _install_command env with
      | CmdNone => CmdList ["python -mpip install {wheel_file}"]
      | cmd => cmd
      end
  end.

(** The command templates of a step, none when the list is falsy. *)
Definition step_templates (env : environment) (st : step) : list string :=
  let cmd := configured_command env st in
  if cmd_truthy cmd then command_list cmd else [].

(** The directory the commands of a step run in. *)
Definition step_cwd (env : environment) (st : step) : string :=
  match st with
  | Uninstall => _env_dir env
  | Build | Install => build_dir_of env
  end.

(** One run for each command of a list, in order. *)
Definition runs_of (st : step) (cwd : string) (vars : gmap string string)
    (cmds : list Util.command) : list event :=
  (λ cmd, EvRun st cwd cmd vars) <$> cmds.

(** The events [t] are the runs of the commands of the step [st], as
    [_interpolate_commands] gives them in the state [s0] the step starts
    in: every template of the step, interpolated, once and in order. *)
Definition step_ran {World} (C : collaborators World) (env : environment) (st : step)
    (s0 : state World) (t : list event) : Prop :=
  ∃ cmds,
    _interpolate_commands C (configured_command env st) s0 = Ok cmds
    ∧ t = runs_of st (step_cwd env st) (_env_vars s0) cmds.

(** The events of a complete install of [commit] that starts in [s]: the
    checkout, the invalidation, the uninstall commands, then either
    nothing, when the cache has the build, or the allocation of a cache
    directory and the build commands, then the install commands, the
    finalization and the new status.  The uninstall commands see the
    revision and the build directory, the build and install commands the
    cache directory as well. *)
Definition full_install {World} (C : collaborators World) (env : environment)
    (commit : string) (s : state World) (t : list event) : Prop :=
  ∃ sU sI tU tC tI cache_dir,
    t = EvCheckout (_build_root env) commit :: EvStatus None
          :: tU ++ tC ++ tI ++ [EvCacheFinalize commit; EvStatus (Some commit)]
    ∧ _env_vars sU
      = delete "ASV_BUILD_CACHE_DIR"
          (<["ASV_BUILD_DIR" := build_dir_of env]>
             (<["ASV_COMMIT" := commit]> (_env_vars s)))
    ∧ step_ran C env Uninstall sU tU
    ∧ _env_vars sI
      = <["ASV_BUILD_CACHE_DIR" := cache_dir]>
          (<["ASV_BUILD_DIR" := build_dir_of env]> (_env_vars sU))
    ∧ step_ran C env Install sI tI
    ∧ ((tC = [] ∧ get_cache_dir C commit (world sI) = Some cache_dir)
       ∨ ∃ sB tB w,
           tC = EvCacheCreate commit :: tB
           ∧ get_cache_dir C commit w = None
           ∧ create_cache_dir C commit w = (cache_dir, world sB)
           ∧ _env_vars sB = _env_vars sI
           ∧ step_ran C env Build sB tB).

(** How often a complete install does each thing: one checkout, every
    uninstall and install command once, and every build command once when
    a cache directory was allocated, not at all when the cache had the
    build. *)
Definition install_counts (env : environment) (t : list event) : Prop :=
  count_events is_checkout t = 1
  ∧ count_events (is_run_of Uninstall) t = length (step_templates env Uninstall)
  ∧ count_events is_cache_create t ≤ 1
  ∧ count_events (is_run_of Build) t
    = count_events is_cache_create t * length (step_templates env Build)
  ∧ count_events (is_run_of Install) t = length (step_templates env Install).


(** * Part II: statements *)

(** ** Environment identity *)

#[local] Instance item_le_total : Total item_le.
Proof.
  intros a b. unfold item_le.
  destruct (decide (a.1 = b.1)) as [E|N].
  - rewrite decide_True by done. apply (total String.le).
  - rewrite decide_False by done. apply (total String.le).
Qed.

#[local] Instance item_le_antisymm : AntiSymm (=) item_le.
Proof.
  intros [k1 v1] [k2 v2]. unfold item_le. simpl.
  destruct (decide (k1 = k2)) as [->|N].
  - rewrite decide_True by done. intros H1 H2. f_equal. by apply (anti_symm String.le).
  - rewrite decide_False by done. intros H1 H2. destruct N. by apply (anti_symm String.le).
Qed.

#[local] Instance item_le_trans : Transitive item_le.
Proof.
  intros [k1 v1] [k2 v2] [k3 v3]. unfold item_le. simpl.
  repeat case_decide; simplify_eq; try done.
  - apply (transitivity (R := String.le)).
  - intros H12 H23. exfalso. apply H. by apply (anti_symm String.le).
  - intros H12 H23. by etrans.
Qed.

Lemma item_le_key a b : item_le a b → (a.1 ≤ b.1)%string.
Proof.
  unfold item_le. destruct (decide (a.1 = b.1)) as [->|]; [|done].
  intros _. reflexivity.
Qed.

(** Sorting does not see the order in which the items came. *)
Lemma sorted_items_perm (reqs1 reqs2 : list (string * string)) :
  reqs1 ≡ₚ reqs2 → merge_sort item_le reqs1 = merge_sort item_le reqs2.
Proof.
  intros HP. apply (StronglySorted_unique item_le).
  - apply StronglySorted_merge_sort; apply _.
  - apply StronglySorted_merge_sort; apply _.
  - by rewrite !merge_sort_Permutation.
Qed.

Lemma sorted_items_by_key (reqs : list (string * string)) :
  StronglySorted (λ a b, (a.1 ≤ b.1)%string) (merge_sort item_le reqs).
Proof.
  assert (HS : StronglySorted item_le (merge_sort item_le reqs))
    by (apply StronglySorted_merge_sort; apply _).
  induction HS as [|x l _ IH Hx]; constructor; [done|].
  eapply Forall_impl; [exact Hx|]. intros y. apply item_le_key.
Qed.

Lemma str_truthy_spec s : str_truthy s = bool_decide (s ≠ "").
Proof. by destruct s. Qed.

Lemma req_token_spec kv :
  req_token kv = if decide (kv.2 = "") then kv.1 else kv.1 +:+ kv.2.
Proof. unfold req_token. destruct kv as [k [|c v]]; done. Qed.

Section IdentityFacts.

Variable sanitize_filename : string → string.
Variable md5_hexdigest : string → string.

Lemma get_env_name_tokens tool_name python reqs :
  get_env_name sanitize_filename tool_name python reqs
  = sanitize_filename
      (String.concat "-" (spec_tokens tool_name python (merge_sort item_le reqs))).
Proof.
  unfold get_env_name, spec_tokens, str_join. do 2 f_equal.
  rewrite <- (assoc_L (++)). f_equal; [by destruct tool_name|]. f_equal.
  apply list_fmap_ext. intros _ kv _. apply req_token_spec.
Qed.

(** C4: the name and its hash depend only on the tool kind, the runtime
    version and the contents of the requirement mapping: two item lists
    that are permutations of one another (the same mapping, filled in a
    different order) give the same name and the same hash; and the name is
    the sanitized join with "-" of the tool kind (when not empty), "py" and
    the version, and one token per requirement in key order, the key
    followed by the value when the value is not empty. *)
Theorem get_env_name_deterministic tool_name python
    (reqs1 reqs2 : list (string * string)) :
  reqs1 ≡ₚ reqs2 →
  get_env_name sanitize_filename tool_name python reqs1
    = get_env_name sanitize_filename tool_name python reqs2
  ∧ hashname sanitize_filename md5_hexdigest tool_name python reqs1
    = hashname sanitize_filename md5_hexdigest tool_name python reqs2
  ∧ ∃ sorted_reqs,
      sorted_reqs ≡ₚ reqs1
      ∧ StronglySorted (λ a b, (a.1 ≤ b.1)%string) sorted_reqs
      ∧ get_env_name sanitize_filename tool_name python reqs1
        = sanitize_filename
            (String.concat "-" (spec_tokens tool_name python sorted_reqs)).
Proof.
  intros HP.
  assert (E : get_env_name sanitize_filename tool_name python reqs1
              = get_env_name sanitize_filename tool_name python reqs2).
  { unfold get_env_name. by rewrite (sorted_items_perm _ _ HP). }
  split; [exact E|]. split; [unfold hashname; by rewrite E|].
  exists (merge_sort item_le reqs1). split; [apply merge_sort_Permutation|].
  split; [apply sorted_items_by_key|apply get_env_name_tokens].
Qed.

End IdentityFacts.

Lemma get_env_name_deterministic_witness :
  [("six", ""); ("numpy", "1.8")] ≡ₚ [("numpy", "1.8"); ("six", "")]
  ∧ get_env_name id "virtualenv" "3.9" [("six", ""); ("numpy", "1.8")]
    = get_env_name id "virtualenv" "3.9" [("numpy", "1.8"); ("six", "")].
Proof.
  split; [apply perm_swap|].
  apply (get_env_name_deterministic id id "virtualenv" "3.9"), perm_swap.
Defined.

Example get_env_name_example :
  get_env_name id "virtualenv" "3.9" [("six", ""); ("numpy", "1.8")]
  = "virtualenv-py3.9-numpy1.8-six".
Proof. vm_compute. reflexivity. Qed.

Example get_env_name_no_tool :
  get_env_name id "" "2.7" [] = "py2.7".
Proof. reflexivity. Qed.

(** ** Rule matcher *)

Lemma length_list_ascii_of_string w :
  length (list_ascii_of_string w) = String.length w.
Proof. induction w as [|c w IH]; simpl; [done|by rewrite IH]. Qed.

(** What is left after a match is a suffix of what was there. *)
Lemma matches_length n r s s' : Re.matches n r s s' → length s' ≤ length s.
Proof. induction 1; simpl in *; lia. Qed.

(** The matcher only finds matches the pattern allows. *)
Lemma go_sound n r :
  ∀ s k e, Re.go n r s k = Some e → ∃ s', Re.matches n r s s' ∧ k s' = Some e.
Proof.
  induction r as [ |c| |negated ranges| | |r1 IH1 r2 IH2|r1 IH1 r2 IH2|r1 IH1];
    intros s k e H; simpl in H.
  - exists s. split; [constructor|done].
  - destruct s as [|a s]; [done|]. simpl in H. case_bool_decide; [|done].
    subst. exists s. split; [constructor|done].
  - destruct s as [|a s]; [done|]. simpl in H. case_bool_decide; [|done].
    exists s. split; [by constructor|done].
  - destruct s as [|a s]; [done|]. simpl in H.
    destruct (xorb negated (Re.in_ranges a ranges)) eqn:E; [|done].
    exists s. split; [by constructor|done].
  - case_decide; [|done]. exists s. split; [by constructor|done].
  - destruct s as [|a [|b s]]; [| |done].
    + exists []. split; [constructor|done].
    + case_decide; [|done]. subst. exists [Re.newline]. split; [constructor|done].
  - apply IH1 in H as (s1 & M1 & H). apply IH2 in H as (s2 & M2 & H).
    exists s2. split; [by econstructor|done].
  - destruct (Re.go n r1 s k) eqn:E1.
    + simplify_eq. apply IH1 in E1 as (s' & M & H). exists s'. split; [by constructor|done].
    + apply IH2 in H as (s' & M & H). exists s'. split; [by apply Re.m_alt_r|done].
  - revert H. generalize (length s) at 1. intros fuel. revert s.
    induction fuel as [|fuel IHf]; intros s H.
    + exists s. split; [constructor|done].
    + destruct (Re.go n r1 s _) eqn:E1 in H.
      * simplify_eq. apply IH1 in E1 as (s1 & M1 & H1). case_decide.
        -- apply IHf in H1 as (s2 & M2 & H2). exists s2. split; [by econstructor|done].
        -- exists s1. split; [|done]. econstructor; [exact M1|constructor].
      * exists s. split; [constructor|done].
Qed.

(** When the match [re.match] returns ends where the value ends, the
    pattern matches the entire value. *)
Lemma re_match_full r w :
  Re.re_match r w = Some (String.length w) → Re.full_match r w.
Proof.
  unfold Re.re_match, Re.full_match. intros H.
  apply go_sound in H as (s' & M & H). simplify_eq.
  pose proof (matches_length _ _ _ _ M) as Hl.
  rewrite length_list_ascii_of_string in *.
  assert (length s' = 0) as ->%nil_length_inv by lia. done.
Qed.

(** [match_rule] returns [True] exactly when no turn of its loop returns
    [False]. *)
Lemma match_rule_items (tgt : target) (rl : rule) :
  match_rule tgt rl = true
  ↔ ∀ key value, rl !! key = Some value → rule_item_ok tgt key value = true.
Proof.
  unfold match_rule. rewrite forallb_forall. split.
  - intros H key value Hkv. apply (H (key, value)).
    apply list_elem_of_In. by apply elem_of_map_to_list.
  - intros H [key value] Hin. apply H.
    apply elem_of_map_to_list. by apply list_elem_of_In.
Qed.

(** A rule with no keys matches every target. *)
Lemma match_rule_empty (tgt : target) : match_rule tgt ∅ = true.
Proof. apply match_rule_items. intros key value. by rewrite lookup_empty. Qed.

(** A key that is ruled out matches when the target lacks it or has
    [None] for it. *)
Lemma rule_item_ok_none (tgt : target) key :
  rule_item_ok tgt key None = true ↔ tgt !! key = None ∨ tgt !! key = Some None.
Proof.
  unfold rule_item_ok. destruct (tgt !! key) as [[w|]|]; split; auto;
    intros H; try done; destruct H; congruence.
Qed.

(** A key with a pattern matches when the target has a value for it and
    the match [re.match] finds spans the value. *)
Lemma rule_item_ok_pattern (tgt : target) key pattern :
  rule_item_ok tgt key (Some pattern) = true
  ↔ ∃ w, tgt !! key = Some (Some w)
         ∧ Re.re_match pattern w = Some (String.length w).
Proof.
  unfold rule_item_ok.
  destruct (tgt !! key) as [[w|]|];
    [|split; [done|intros (w' & ? & _); congruence]..].
  destruct (Re.re_match pattern w) as [e|] eqn:E.
  - rewrite bool_decide_eq_true. split.
    + intros ->. eauto.
    + intros (w' & ? & ?). by simplify_eq.
  - split; [done|]. intros (w' & ? & ?). by simplify_eq.
Qed.

(** When [match_rule] returns [True], every key of the rule is satisfied
    in the sense of the specification. *)
Lemma match_rule_sound (tgt : target) (rl : rule) :
  match_rule tgt rl = true →
  ∀ key value, rl !! key = Some value →
    match value with
    | None => tgt !! key = None ∨ tgt !! key = Some None
    | Some pattern => ∃ w, tgt !! key = Some (Some w) ∧ Re.full_match pattern w
    end.
Proof.
  intros H key value Hkv. apply match_rule_items with (key := key) (value := value) in H; [|done].
  destruct value as [pattern|].
  - apply rule_item_ok_pattern in H as (w & ? & ?). exists w. split; [done|].
    by apply re_match_full.
  - by apply rule_item_ok_none.
Qed.

Example compile_version_3_x : Re.compile "^3\.[0-9]+$" = Some version_3_x.
Proof. vm_compute. reflexivity. Qed.

Example compile_a_or_ab : Re.compile "a|ab" = Some a_or_ab.
Proof. vm_compute. reflexivity. Qed.

Example compile_literal : Re.compile "1" = Some (Re.Lit "1").
Proof. vm_compute. reflexivity. Qed.

Example match_rule_version_full :
  match_rule {[ "python" := Some "3.9" ]} {[ "python" := Some version_3_x ]} = true.
Proof. vm_compute. reflexivity. Qed.

Example match_rule_version_prefix :
  match_rule {[ "python" := Some "3.9.1" ]} {[ "python" := Some version_3_x ]} = false.
Proof. vm_compute. reflexivity. Qed.

Example match_rule_null_absent :
  match_rule {[ "python" := Some "3.9" ]} {[ "numpy" := None ]} = true.
Proof. vm_compute. reflexivity. Qed.

Example match_rule_null_none :
  match_rule {[ "numpy" := None ]} {[ "numpy" := None ]} = true.
Proof. vm_compute. reflexivity. Qed.

Example match_rule_null_present :
  match_rule {[ "numpy" := Some "1.8" ]} {[ "numpy" := None ]} = false.
Proof. vm_compute. reflexivity. Qed.

Example match_rule_missing_key :
  match_rule ∅ {[ "python" := Some version_3_x ]} = false.
Proof. vm_compute. reflexivity. Qed.

Example match_rule_substring :
  match_rule {[ "python" := Some "3.9" ]} {[ "python" := Some (Re.Lit ".9") ]} = false.
Proof. vm_compute. reflexivity. Qed.

(** C5: on the target [{k: "ab"}] and the rule [{k: "a|ab"}] the code
    returns [False], although the target has the key with a value and the
    pattern matches that entire value: [re.match] stops at the first
    alternative, and the match it returns ends before the end of the
    value. *)
Theorem match_rule_misses_full_match :
  Re.compile "a|ab" = Some a_or_ab
  ∧ match_rule {[ "k" := Some "ab" ]} {[ "k" := Some a_or_ab ]} = false
  ∧ Re.re_match a_or_ab "ab" = Some 1
  ∧ ({[ "k" := Some "ab" ]} : target) !! "k" = Some (Some "ab")
  ∧ Re.full_match a_or_ab "ab".
Proof.
  split; [vm_compute; reflexivity|].
  split; [vm_compute; reflexivity|]. split; [vm_compute; reflexivity|].
  split; [vm_compute; reflexivity|].
  unfold Re.full_match, a_or_ab. simpl.
  apply Re.m_alt_r. simpl. repeat econstructor.
Qed.

(** ** Matrix expander *)

Section MatrixFacts.

Variable host : host_info.

(** A combination is rejected exactly when some exclude rule matches its
    target. *)
Lemma accepted_iff environment_type conf all_keys combination tgt :
  combination_target host environment_type conf all_keys combination = Some tgt →
  accepted host environment_type conf all_keys combination = false
  ↔ Exists (λ rl, match_rule tgt rl = true) (conf_exclude conf).
Proof.
  intros E. unfold accepted. rewrite E, negb_false_iff.
  rewrite existsb_exists, Exists_exists. split.
  - intros (rl & Hin & H). exists rl. by rewrite list_elem_of_In.
  - intros (rl & Hin & H). exists rl. by rewrite <- list_elem_of_In.
Qed.

Lemma axes_A_B_keys conf_type : matrix_keys (axes_A_B conf_type) = ["A"; "B"].
Proof. vm_compute. reflexivity. Qed.

Lemma axes_A_B_values conf_type :
  matrix_values (axes_A_B conf_type) = [[Some "1"; Some "2"]; [Some ""]].
Proof. vm_compute. reflexivity. Qed.

Lemma axes_A_B_accepted environment_type conf_type python :
  str_truthy environment_type = true
  ∨ is_Some (get_environment_class host (axes_A_B conf_type) (Some python)) →
  accepted host environment_type (axes_A_B conf_type) ["python"; "A"; "B"]
           [Some python; Some "1"; Some ""] = false
  ∧ accepted host environment_type (axes_A_B conf_type) ["python"; "A"; "B"]
             [Some python; Some "2"; Some ""] = true.
Proof.
  intros H. unfold accepted, combination_target.
  destruct (str_truthy environment_type) eqn:Et.
  - split; vm_compute; reflexivity.
  - destruct H as [|[cls Hc]]; [done|].
    split.
    all: match goal with
         | |- context [py_dict ?l !! "python"] =>
             replace (py_dict l !! "python") with (Some (Some python))
               by (vm_compute; reflexivity)
         end.
    all: unfold get_env_type; rewrite Hc; vm_compute; reflexivity.
Qed.

(** C6: an empty axis stands for the single value [""]; a combination of
    the product is rejected exactly when an exclude rule matches its
    target, and what is yielded for a runtime version are the requirements
    of the other combinations; for the axes [A = [1, 2]] and [B = []], the
    exclude rule [{A: "1"}], one runtime version and no includes, the
    expansion yields one requirement set, with [A = 2] and [B = ""]. *)
Theorem matrix_expansion environment_type :
  normalize_value (MList []) = [Some ""]
  ∧ (∀ conf all_keys combination tgt,
       combination_target host environment_type conf all_keys combination = Some tgt →
       accepted host environment_type conf all_keys combination = false
       ↔ Exists (λ rl, match_rule tgt rl = true) (conf_exclude conf))
  ∧ (∀ conf python,
       expand_python host environment_type conf false python
       = combination_requirements ("python" :: matrix_keys conf)
           <$> filter (λ c, accepted host environment_type conf ("python" :: matrix_keys conf) c)
                      (product ([Some python] :: matrix_values conf)))
  ∧ (∀ conf_type python explicit_selection,
       str_truthy environment_type = true
       ∨ is_Some (get_environment_class host (axes_A_B conf_type) (Some python)) →
       iter_requirement_matrix host environment_type [python] (axes_A_B conf_type)
                               explicit_selection
       = Expansion [ {[ "python" := python; "A" := "2"; "B" := "" ]} ] None).
Proof.
  split; [done|]. split; [apply accepted_iff|]. split.
  - intros conf python. unfold expand_python.
    rewrite andb_false_r. by rewrite app_nil_r.
  - intros conf_type python explicit_selection H.
    unfold iter_requirement_matrix, expand_python.
    rewrite axes_A_B_keys, axes_A_B_values. simpl.
    rewrite !filter_cons, filter_nil.
    destruct (axes_A_B_accepted _ _ _ H) as [-> ->].
    destruct explicit_selection; vm_compute; reflexivity.
Qed.

End MatrixFacts.

Lemma matrix_expansion_witness :
  (str_truthy "virtualenv" = true
   ∨ is_Some (get_environment_class linux_host (axes_A_B "") (Some "3.9")))
  ∧ iter_requirement_matrix linux_host "virtualenv" ["3.9"] (axes_A_B "") false
    = Expansion [ {[ "python" := "3.9"; "A" := "2"; "B" := "" ]} ] None.
Proof.
  split; [left; reflexivity|].
  apply (matrix_expansion linux_host "virtualenv"). left. reflexivity.
Defined.

Lemma filter_nil_Forall {A} (P : A → bool) (l : list A) :
  filter (λ x, P x) l = [] ↔ Forall (λ x, P x = false) l.
Proof.
  induction l as [|x l IH]; [by rewrite filter_nil|].
  rewrite filter_cons, Forall_cons. case_decide as E.
  - apply Is_true_true in E. split; [done|]. intros [? _]. congruence.
  - apply Is_true_false in E. rewrite IH. tauto.
Qed.

Section ExplicitSelection.

Variable host : host_info.

Lemma expand_python_excluded environment_type conf explicit_selection python :
  fully_excluded host environment_type conf python →
  expand_python host environment_type conf explicit_selection python
  = if explicit_selection then [ {[ "python" := python ]} ] else [].
Proof.
  unfold fully_excluded. intros H%filter_nil_Forall. unfold expand_python. rewrite H.
  by destruct explicit_selection.
Qed.

Lemma expand_python_kept environment_type conf explicit_selection python :
  ¬ fully_excluded host environment_type conf python →
  expand_python host environment_type conf explicit_selection python
  = expand_python host environment_type conf false python
  ∧ expand_python host environment_type conf false python ≠ [].
Proof.
  intros H. unfold expand_python. rewrite andb_false_r, app_nil_r.
  unfold fully_excluded in H. rewrite <- filter_nil_Forall in H.
  rewrite bool_decide_eq_false_2 by done. simpl. rewrite app_nil_r. split; [done|].
  intros E%fmap_nil_inv. done.
Qed.

(** Under explicit selection every runtime version yields something. *)
Lemma expand_python_explicit environment_type conf python :
  expand_python host environment_type conf true python ≠ [].
Proof.
  unfold expand_python. rewrite andb_true_r. case_bool_decide as E.
  - rewrite E. done.
  - intros [H%fmap_nil_inv _]%app_eq_nil. done.
Qed.

(** C7: with an explicit selection, a runtime version whose matrix is
    entirely excluded yields the one combination that holds only that
    version, so that every requested version yields something, and the
    include rules are not looked at; without it such a version yields
    nothing, and the include rules follow the matrix. *)
Theorem explicit_selection_fallback environment_type pythons conf :
  (∀ python, fully_excluded host environment_type conf python →
     expand_python host environment_type conf true python = [ {[ "python" := python ]} ]
     ∧ expand_python host environment_type conf false python = [])
  ∧ (∀ python, expand_python host environment_type conf true python ≠ [])
  ∧ (∀ python, ¬ fully_excluded host environment_type conf python →
       expand_python host environment_type conf true python
       = expand_python host environment_type conf false python
       ∧ expand_python host environment_type conf false python ≠ [])
  ∧ iter_requirement_matrix host environment_type pythons conf true
    = Expansion (pythons ≫= expand_python host environment_type conf true) None
  ∧ (∀ includes,
       iter_requirement_matrix host environment_type pythons (with_includes conf includes) true
       = iter_requirement_matrix host environment_type pythons conf true)
  ∧ iter_requirement_matrix host environment_type pythons conf false
    = Expansion
        ((pythons ≫= expand_python host environment_type conf false)
           ++ yielded (process_includes host environment_type conf (conf_include conf)))
        (raised (process_includes host environment_type conf (conf_include conf))).
Proof.
  split; [|split; [|split; [|split; [|split]]]].
  - intros python H. split; by rewrite expand_python_excluded.
  - intros python. apply expand_python_explicit.
  - intros python H. by apply expand_python_kept.
  - done.
  - done.
  - done.
Qed.

End ExplicitSelection.

Lemma explicit_selection_fallback_witness :
  fully_excluded linux_host "virtualenv" all_excluded "3.9"
  ∧ yielded (iter_requirement_matrix linux_host "virtualenv" ["3.9"] all_excluded true)
    = [ {[ "python" := "3.9" ]} ]
  ∧ yielded (iter_requirement_matrix linux_host "virtualenv" ["3.9"] all_excluded false)
    = [ {[ "python" := "2.7" ]} ].
Proof.
  assert (H : fully_excluded linux_host "virtualenv" all_excluded "3.9").
  { unfold fully_excluded. vm_compute. repeat constructor. }
  destruct (explicit_selection_fallback linux_host "virtualenv" ["3.9"] all_excluded)
    as (Hx & _ & _ & Ht & _ & Hf).
  destruct (Hx "3.9" H) as [Et Ef].
  split; [exact H|]. split.
  - rewrite Ht. simpl. rewrite Et. reflexivity.
  - rewrite Hf. simpl. rewrite Ef. vm_compute. reflexivity.
Defined.

(** ** Environment lifecycle *)

Section LifecycleFacts.

Context {World : Type}.
Variable C : collaborators World.

Implicit Types (s : state World) (env : environment) (commit : string).

Lemma bind_inv {A B} (m : M World A) (f : A → M World B) s r s' :
  (m ≫= f) s = (r, s') →
  (∃ a s1, m s = (Ok a, s1) ∧ f a s1 = (r, s'))
  ∨ (∃ e, m s = (Raise e, s') ∧ r = Raise e).
Proof.
  unfold mbind, M_bind. destruct (m s) as [[a|e] s1]; intros H.
  - left. eauto.
  - right. simplify_eq. eauto.
Qed.

Lemma run_executable_spec env st cwd cmd s r s' :
  run_executable C env st cwd cmd s = (r, s') →
  runs_only st s s' r [EvRun st cwd cmd (_env_vars s)]
  ∧ (r = Ok () ∨ r = Raise (ProcessError cmd)).
Proof.
  unfold run_executable, try_world, call_world, emit, get_state, raise,
    mbind, M_bind, mret, M_ret, runs_only. simpl.
  destruct (util_check_output _ _ _ _ _ _) as [[] w]; intros ?; simplify_eq; simpl.
  - split_and!; auto; try done; repeat constructor.
    simpl. by rewrite bool_decide_eq_true_2.
  - split_and!; auto; try (by intros e [= <-]); repeat constructor.
    simpl. by rewrite bool_decide_eq_true_2.
Qed.

Lemma run_all_spec env st cwd cmds :
  ∀ s r s', run_all C env st cwd cmds s = (r, s') → ∃ t, runs_only st s s' r t.
Proof.
  induction cmds as [|cmd cmds IH]; intros s r s' H.
  - simpl in H. unfold mret, M_ret in H. simplify_eq. exists [].
    unfold runs_only. rewrite app_nil_r. split_and!; auto. done.
  - simpl in H. destruct (Util.cmd_argv cmd) as [|exe args].
    { unfold raise in H. simplify_eq. exists []. unfold runs_only.
      rewrite app_nil_r. split_and!; auto. by intros e [= <-]. }
    apply bind_inv in H as [(a & s1 & H1 & H2)|(e & H1 & ->)].
    + apply run_executable_spec in H1 as [(T1 & F1 & V1 & S1 & _ & R1) _].
      apply IH in H2 as (t & T2 & F2 & V2 & S2 & X2 & R2).
      exists ([EvRun st cwd cmd (_env_vars s)] ++ t). unfold runs_only.
      rewrite T2, T1, V2, V1, S2, S1, (assoc_L (++)).
      rewrite V1 in R2.
      split_and!; auto; apply Forall_app; auto.
    + apply run_executable_spec in H1 as [H1 _]. eauto.
Qed.

Lemma kwargs_of_items_exn items : ∀ kwargs e,
  kwargs_of_items items kwargs = Raise e → is_step_exn e = true.
Proof.
  induction items as [|[key value] items IH]; intros kwargs e H; simpl in H; [done|].
  repeat case_match; simplify_eq; eauto.
Qed.

Lemma interpolate_all_exn cmds kwargs e :
  interpolate_all cmds kwargs = Raise e → is_step_exn e = true.
Proof.
  revert e. induction cmds as [|c cmds IH]; intros e H; simpl in H; [done|].
  repeat case_match; simplify_eq; eauto.
Qed.

Lemma interpolate_commands_exn cmds s e :
  _interpolate_commands C cmds s = Raise e → is_step_exn e = true.
Proof.
  unfold _interpolate_commands, interpolation_kwargs. intros H.
  repeat case_match; simplify_eq; eauto using kwargs_of_items_exn, interpolate_all_exn.
Qed.

Lemma interpolate_and_run_spec env st cmds cwd s r s' :
  _interpolate_and_run_commands C env st cmds cwd s = (r, s') →
  ∃ t, runs_only st s s' r t.
Proof.
  unfold _interpolate_and_run_commands, get_state, mbind, M_bind.
  destruct (_interpolate_commands C cmds s) as [interpolated|e] eqn:E.
  - apply run_all_spec.
  - unfold raise. intros ?. simplify_eq. exists []. unfold runs_only.
    rewrite app_nil_r. split_and!; auto.
    intros e' [= <-]. by eapply interpolate_commands_exn.
Qed.

Lemma runs_only_ret st s : runs_only st s s (Ok ()) [].
Proof. unfold runs_only. rewrite app_nil_r. split_and!; auto. done. Qed.

Lemma install_project_spec env build_dir s r s' :
  _install_project C env build_dir s = (r, s') → ∃ t, runs_only Install s s' r t.
Proof.
  unfold _install_project. case_match.
  - apply interpolate_and_run_spec.
  - intros [= <- <-]. eauto using runs_only_ret.
Qed.

Lemma build_project_spec env build_dir s r s' :
  _build_project C env build_dir s = (r, s') → ∃ t, runs_only Build s s' r t.
Proof.
  unfold _build_project. case_match.
  - apply interpolate_and_run_spec.
  - intros [= <- <-]. eauto using runs_only_ret.
Qed.

Lemma uninstall_project_spec env s r s' :
  _uninstall_project C env s = (r, s') →
  ∃ t, runs_only Uninstall
         (State (_env_vars s) (Some (InstallStatus None (Some (_get_install_checksum env))))
                (world s) (trace s ++ [EvStatus None]))
         s' r t.
Proof.
  unfold _uninstall_project. intros H.
  apply bind_inv in H as [(a & s1 & H1 & H2)|(e & H1 & ->)]; [|done].
  unfold _set_installed_commit_hash, write_status, emit, mbind, M_bind in H1.
  simpl in H1. simplify_eq. revert H2. case_match.
  - apply interpolate_and_run_spec.
  - intros [= <- <-]. eauto using runs_only_ret.
Qed.


Lemma checkout_project_spec env commit s r s1 :
  checkout_project C env commit s = (r, s1) →
  (∃ w, s1 = State (<["ASV_COMMIT" := commit]> (_env_vars s)) (status_file s) w
                   (trace s ++ [EvCheckout (_build_root env) commit]))
  ∧ (r = Ok () ∨ r = Raise (CheckoutError commit)).
Proof.
  unfold checkout_project, _set_commit_hash, set_env_vars, emit, try_world,
    call_world, raise, mbind, M_bind, mret, M_ret. simpl.
  destruct (repo_checkout _ _ _ _) as [[] w]; intros ?; simplify_eq; eauto.
Qed.

Lemma set_build_dirs_spec build_dir cache_dir s :
  _set_build_dirs build_dir cache_dir s
  = (Ok (), State (set_or_pop "ASV_BUILD_CACHE_DIR" cache_dir
                     (set_or_pop "ASV_BUILD_DIR" build_dir (_env_vars s)))
                  (status_file s) (world s) (trace s)).
Proof. reflexivity. Qed.

Lemma set_installed_commit_hash_spec env (hash : option string) s :
  _set_installed_commit_hash env hash s
  = (Ok (), State (_env_vars s)
                  (Some (InstallStatus hash (Some (_get_install_checksum env))))
                  (world s) (trace s ++ [EvStatus hash])).
Proof. reflexivity. Qed.

Lemma set_or_pop_wf key value vars :
  key ∈ known_vars → env_vars_wf vars → env_vars_wf (set_or_pop key value vars).
Proof.
  intros Hk Hwf k. destruct value as [v|]; simpl.
  - destruct (decide (key = k)) as [<-|]; [done|].
    rewrite lookup_insert_ne by done. apply Hwf.
  - destruct (decide (key = k)) as [<-|]; [done|].
    rewrite lookup_delete_ne by done. apply Hwf.
Qed.

Lemma known_commit : "ASV_COMMIT" ∈ known_vars.
Proof. unfold known_vars. set_solver. Qed.
Lemma known_build_dir : "ASV_BUILD_DIR" ∈ known_vars.
Proof. unfold known_vars. set_solver. Qed.
Lemma known_cache_dir : "ASV_BUILD_CACHE_DIR" ∈ known_vars.
Proof. unfold known_vars. set_solver. Qed.

Lemma insert_wf key v vars :
  key ∈ known_vars → env_vars_wf vars → env_vars_wf (<[key := v]> vars).
Proof. apply (set_or_pop_wf key (Some v)). Qed.

Lemma delete_wf key vars :
  key ∈ known_vars → env_vars_wf vars → env_vars_wf (delete key vars).
Proof. apply (set_or_pop_wf key None). Qed.

Create HintDb wf.
#[local] Hint Resolve known_commit known_build_dir known_cache_dir
  insert_wf delete_wf set_or_pop_wf : wf.

Lemma runs_vars_ok env st vars t :
  vars !! "ASV_BUILD_DIR" = Some (build_dir_of env) →
  match st with
  | Uninstall => vars !! "ASV_BUILD_CACHE_DIR" = None
  | Build | Install => is_Some (vars !! "ASV_BUILD_CACHE_DIR")
  end →
  Forall (λ e, is_run_of st e = true) t →
  Forall (λ e, run_vars e = Some vars) t →
  Forall (run_vars_ok env) t.
Proof.
  intros HB HC HF HR. rewrite Forall_forall in *. intros e He.
  specialize (HF e He). specialize (HR e He).
  destruct e as [| |st' cwd cmd vars'| |]; simpl in *; try done.
  apply bool_decide_eq_true in HF as ->. by simplify_eq.
Qed.

Lemma uninstall_vars_ok env vars t :
  Forall (λ e, is_run_of Uninstall e = true) t →
  Forall (λ e, run_vars e
                = Some (delete "ASV_BUILD_CACHE_DIR"
                          (<["ASV_BUILD_DIR" := build_dir_of env]> vars))) t →
  Forall (run_vars_ok env) t.
Proof.
  apply runs_vars_ok.
  - rewrite lookup_delete_ne by done. by rewrite lookup_insert_eq.
  - by rewrite lookup_delete_eq.
Qed.

(** Every call of [install_project] that has work to do ends in one of
    the five ways of [install_outcome]. *)
Lemma install_project_work_outcome env commit s r s' :
  install_project_work C env commit s = (r, s') →
  ∃ t, trace s' = trace s ++ t
       ∧ install_outcome C env commit s s' r t
       ∧ (env_vars_wf (_env_vars s) → env_vars_wf (_env_vars s')).
Proof.
  unfold install_project_work. intros H.
  apply bind_inv in H as [([] & s1 & H1 & H)|(e & H1 & ->)]; cycle 1.
  { apply checkout_project_spec in H1 as [[w ->] [|[= ->]]]; [done|].
    eexists. split; [done|]. split; [by constructor|]. simpl. eauto with wf. }
  apply checkout_project_spec in H1 as [[w1 ->] _].
  apply bind_inv in H as [([] & s2 & H2 & H)|(e & H2 & ->)];
    rewrite set_build_dirs_spec in H2; simplify_eq. simpl in H.
  apply bind_inv in H as [([] & s3 & H3 & H)|(e & H3 & ->)]; cycle 1.
  { apply uninstall_project_spec in H3 as (tU & T & F & V & S & X & R). simpl in *.
    exists (EvCheckout (_build_root env) commit :: EvStatus None :: tU).
    split; [by rewrite T, <- !(assoc_L (++))|].
    split; [constructor; eauto using uninstall_vars_ok|]. rewrite V. eauto with wf. }
  apply uninstall_project_spec in H3 as (tU & TU & FU & VU & SU & _ & RU). simpl in *.
  apply uninstall_vars_ok in RU; [|done].
  apply bind_inv in H as [(cache_dir & s4 & H4 & H)|(e & H4 & ->)]; [|done].
  unfold cache_get_cache_dir, get_state, mbind, M_bind, mret, M_ret in H4. simplify_eq.
  apply bind_inv in H as [([] & s5 & H5 & H)|(e & H5 & ->)].
  - (* the cache step returned *)
    assert (∃ tC, cache_part commit tC
                  ∧ cache_lookup C commit tC
                  ∧ trace s5 = trace s4 ++ tC
                  ∧ status_file s5 = status_file s4
                  ∧ _env_vars s5 !! "ASV_BUILD_DIR" = Some (build_dir_of env)
                  ∧ is_Some (_env_vars s5 !! "ASV_BUILD_CACHE_DIR")
                  ∧ (env_vars_wf (_env_vars s4) → env_vars_wf (_env_vars s5))
                  ∧ Forall (run_vars_ok env) tC)
      as (tC & PC & LC & TC & SC & VB & VC & WC & RC).
    { destruct (get_cache_dir C commit (world s4)) as [dir|] eqn:G.
      - rewrite set_build_dirs_spec in H5. simplify_eq. simpl.
        exists []. rewrite app_nil_r. split_and!; auto; [by left|left; eauto|..].
        + rewrite lookup_insert_ne by done. by rewrite lookup_insert_eq.
        + rewrite lookup_insert_eq. eauto.
        + eauto with wf.
      - apply bind_inv in H5 as [(dir & s6 & H6 & H5)|(e & H6 & [=])].
        unfold cache_create_cache_dir, emit, call_world, mbind, M_bind in H6.
        simpl in H6. destruct (create_cache_dir _ _ _) as [dir' w6]. simplify_eq.
        apply bind_inv in H5 as [([] & s7 & H7 & H5)|(e & H7 & [=])].
        rewrite set_build_dirs_spec in H7. simplify_eq. simpl in H5.
        apply build_project_spec in H5 as (tB & TB & FB & VB & SB & _ & RB). simpl in *.
        exists (EvCacheCreate commit :: tB).
        split; [right; eauto|]. split; [right; eauto|].
        rewrite TB, VB, SB, <- !(assoc_L (++)).
        split_and!; auto.
        + rewrite lookup_insert_ne by done. by rewrite lookup_insert_eq.
        + rewrite lookup_insert_eq. eauto.
        + eauto with wf.
        + constructor; [done|]. eapply (runs_vars_ok env Build); [| |done..].
          * rewrite lookup_insert_ne by done. by rewrite lookup_insert_eq.
          * rewrite lookup_insert_eq. eauto. }
    apply bind_inv in H as [([] & s6 & H6 & H)|(e & H6 & ->)]; cycle 1.
    { apply install_project_spec in H6 as (tI & TI & FI & VI & SI & X & RI).
      apply (runs_vars_ok env Install) in RI; [|done..].
      exists (EvCheckout (_build_root env) commit :: EvStatus None :: tU ++ tC ++ tI).
      split; [rewrite TI, TC, TU; by rewrite <- !(assoc_L (++))|].
      split; [apply io_install_failed; eauto; [|by rewrite SI, SC, SU]|].
      { rewrite !Forall_app. auto. }
      rewrite VI. intros Hwf. apply WC. rewrite VU. eauto with wf. }
    apply install_project_spec in H6 as (tI & TI & FI & VI & SI & _ & RI).
    apply (runs_vars_ok env Install) in RI; [|done..].
    apply bind_inv in H as [([] & s7 & H7 & H)|(e & H7 & ->)]; [|done].
    unfold cache_finalize_cache_dir, emit, call_world, mbind, M_bind in H7.
    simpl in H7. simplify_eq.
    rewrite set_installed_commit_hash_spec in H. simplify_eq. simpl.
    exists (EvCheckout (_build_root env) commit :: EvStatus None
              :: tU ++ tC ++ tI ++ [EvCacheFinalize commit; EvStatus (Some commit)]).
    split; [rewrite TI, TC, TU; by rewrite <- !(assoc_L (++))|].
    split; [apply io_done; simpl; eauto; try (by rewrite VI)|].
    { rewrite !Forall_app. auto. }
    rewrite VI. intros Hwf. apply WC. rewrite VU. eauto with wf.
  - (* the build raised *)
    destruct (get_cache_dir C commit (world s4)) as [dir|] eqn:G.
    { rewrite set_build_dirs_spec in H5. simplify_eq. }
    apply bind_inv in H5 as [(dir & s6 & H6 & H5)|(e' & H6 & _)]; cycle 1.
    { unfold cache_create_cache_dir, emit, call_world, mbind, M_bind in H6.
      simpl in H6. destruct (create_cache_dir _ _ _). simplify_eq. }
    unfold cache_create_cache_dir, emit, call_world, mbind, M_bind in H6.
    simpl in H6. destruct (create_cache_dir _ _ _) as [dir' w6]. simplify_eq.
    apply bind_inv in H5 as [([] & s7 & H7 & H5)|(e' & H7 & _)]; cycle 1.
    { rewrite set_build_dirs_spec in H7. simplify_eq. }
    rewrite set_build_dirs_spec in H7. simplify_eq. simpl in H5.
    apply build_project_spec in H5 as (tB & TB & FB & VB & SB & X & RB). simpl in *.
    assert (Forall (run_vars_ok env) tB) as OB.
    { eapply (runs_vars_ok env Build); [| |done..].
      - rewrite lookup_insert_ne by done. by rewrite lookup_insert_eq.
      - rewrite lookup_insert_eq. eauto. }
    exists (EvCheckout (_build_root env) commit :: EvStatus None
              :: tU ++ EvCacheCreate commit :: tB).
    split; [rewrite TB, TU; by rewrite <- !(assoc_L (++))|].
    split; [apply io_build_failed; eauto; [|by rewrite SB, SU]|].
    { rewrite Forall_app. auto. }
    rewrite VB, VU. eauto 10 with wf.
Qed.

(** The variables of an environment keep the names it gives them. *)
Lemma install_project_wf env commit s r s' :
  env_vars_wf (_env_vars s) →
  install_project C env commit s = (r, s') →
  env_vars_wf (_env_vars s').
Proof.
  intros Hwf. unfold install_project, get_state. unfold mbind at 1, M_bind at 1.
  case_decide as E.
  - rewrite E. intros [= <- <-]. simpl. eauto 10 with wf.
  - intros (t & _ & _ & H)%install_project_work_outcome. auto.
Qed.

End LifecycleFacts.

Lemma initial_state_wf {World} os_path_abspath os_getcwd env status (w : World) :
  env_vars_wf (_env_vars (initial_state os_path_abspath os_getcwd env status w)).
Proof.
  unfold initial_state, initial_env_vars. simpl.
  apply set_or_pop_wf; [apply known_commit|].
  repeat (apply insert_wf; [unfold known_vars; set_solver|]).
  intros key [value H]. by rewrite lookup_empty in H.
Qed.

(** ** Traces *)

Lemma segment_nil rank a b : segment rank a b [].
Proof. split; constructor. Qed.

Lemma segment_one rank a b e : a ≤ rank e ≤ b → segment rank a b [e].
Proof. intros H. split; repeat constructor; lia. Qed.

Lemma segment_const rank k t : Forall (λ e, rank e = k) t → segment rank k k t.
Proof.
  intros H. split.
  - induction H as [|e t He Ht IH]; constructor; [done|].
    eapply Forall_impl; [exact Ht|]. simpl. intros e' He'. lia.
  - eapply Forall_impl; [exact H|]. simpl. intros; lia.
Qed.

Lemma segment_app rank a b c d t1 t2 :
  segment rank a b t1 → segment rank c d t2 → a ≤ c → b ≤ c → b ≤ d →
  segment rank a d (t1 ++ t2).
Proof.
  intros [S1 B1] [S2 B2] Hac Hbc Hbd. split.
  - apply StronglySorted_app_2; [|done..].
    intros x1 x2 H1 H2. rewrite Forall_forall in B1, B2.
    specialize (B1 _ H1). specialize (B2 _ H2). lia.
  - apply Forall_app. split; (eapply Forall_impl; [eassumption|]); simpl; intros; lia.
Qed.

Lemma segment_cons rank a b c d e t :
  a ≤ rank e ≤ b → segment rank c d t → a ≤ c → b ≤ c → b ≤ d →
  segment rank a d (e :: t).
Proof. intros He Ht ???. apply (segment_app rank a b c d [e] t); auto using segment_one. Qed.

Lemma run_rank st e :
  is_run_of st e = true →
  step_rank e = match st with Uninstall => 2 | Build => 4 | Install => 5 end.
Proof.
  destruct e as [| |st' ? ? ?| |]; simpl; try done.
  intros ->%bool_decide_eq_true. by destruct st.
Qed.

Lemma runs_segment st t :
  Forall (λ e, is_run_of st e = true) t →
  let k := match st with Uninstall => 2 | Build => 4 | Install => 5 end in
  segment step_rank k k t.
Proof.
  intros H k. apply segment_const. eapply Forall_impl; [exact H|].
  intros e. apply run_rank.
Qed.

Lemma cache_part_segment commit tC : cache_part commit tC → segment step_rank 3 4 tC.
Proof.
  intros [->|(tB & -> & HB)]; [apply segment_nil|].
  apply (segment_cons step_rank 3 3 4 4); [simpl; lia| |lia..].
  by apply (runs_segment Build).
Qed.

Lemma count_events_app p t1 t2 :
  count_events p (t1 ++ t2) = count_events p t1 + count_events p t2.
Proof. unfold count_events. by rewrite filter_app, length_app. Qed.

Lemma count_events_cons p e t :
  count_events p (e :: t) = (if p e then 1 else 0) + count_events p t.
Proof.
  unfold count_events. rewrite filter_cons. case_decide as E.
  - by rewrite E.
  - by apply not_true_is_false in E as ->.
Qed.

Lemma count_events_none p t : Forall (λ e, p e = false) t → count_events p t = 0.
Proof.
  induction 1 as [|e t He _ IH]; [done|]. by rewrite count_events_cons, He, IH.
Qed.

Lemma runs_not p st t :
  (∀ e, is_run e = true → p e = false) →
  Forall (λ e, is_run_of st e = true) t → Forall (λ e, p e = false) t.
Proof.
  intros Hp H. eapply Forall_impl; [exact H|]. intros e He. apply Hp.
  by destruct e.
Qed.

Lemma cache_part_not p commit tC :
  (∀ e, is_run e = true → p e = false) → p (EvCacheCreate commit) = false →
  cache_part commit tC → Forall (λ e, p e = false) tC.
Proof.
  intros Hp Hc [->|(tB & -> & HB)]; [constructor|].
  constructor; [done|]. by eapply runs_not.
Qed.

Section OutcomeFacts.

Context {World : Type}.
Variable C : collaborators World.
Implicit Types (s : state World) (env : environment) (commit : string) (t : list event).

(** Every command of an install runs with the variables of its step. *)
Lemma outcome_run_vars env commit s s' r t :
  install_outcome C env commit s s' r t → Forall (run_vars_ok env) t.
Proof.
  destruct 1; repeat (constructor; [done|]);
    repeat match goal with H : Forall _ (_ ++ _) |- _ => apply Forall_app in H as [??] end;
    rewrite ?Forall_app; split_and?; auto; repeat constructor; auto.
Qed.

(** The events of an install are in the order of the steps. *)
Lemma outcome_step_order env commit s s' r t :
  install_outcome C env commit s s' r t → in_step_order step_rank t.
Proof.
  intros H. cut (segment step_rank 0 7 t); [by intros []|].
  destruct H as [?|e tU ? HU ?|e tU tB ? HU HB ? ?|e tU tC tI ? HU HC HL HI ?
                   |tU tC tI HU HC HL HI ? ? ?].
  - apply segment_one. simpl. lia.
  - apply (segment_cons _ 0 0 1 7); [simpl; lia| |lia..].
    apply (segment_cons _ 1 1 2 7); [simpl; lia| |lia..].
    destruct (runs_segment Uninstall tU HU) as [S B]. split; [done|].
    eapply Forall_impl; [exact B|]. simpl. intros; lia.
  - apply (segment_cons _ 0 0 1 7); [simpl; lia| |lia..].
    apply (segment_cons _ 1 1 2 7); [simpl; lia| |lia..].
    apply (segment_app _ 2 2 3 7); [by apply (runs_segment Uninstall)| |lia..].
    apply (segment_cons _ 3 3 4 7); [simpl; lia| |lia..].
    destruct (runs_segment Build tB HB) as [S B]. split; [done|].
    eapply Forall_impl; [exact B|]. simpl. intros; lia.
  - apply (segment_cons _ 0 0 1 7); [simpl; lia| |lia..].
    apply (segment_cons _ 1 1 2 7); [simpl; lia| |lia..].
    apply (segment_app _ 2 2 3 7); [by apply (runs_segment Uninstall)| |lia..].
    apply (segment_app _ 3 4 5 7); [by eapply cache_part_segment| |lia..].
    destruct (runs_segment Install tI HI) as [S B]. split; [done|].
    eapply Forall_impl; [exact B|]. simpl. intros; lia.
  - apply (segment_cons _ 0 0 1 7); [simpl; lia| |lia..].
    apply (segment_cons _ 1 1 2 7); [simpl; lia| |lia..].
    apply (segment_app _ 2 2 3 7); [by apply (runs_segment Uninstall)| |lia..].
    apply (segment_app _ 3 4 5 7); [by eapply cache_part_segment| |lia..].
    apply (segment_app _ 5 5 6 7); [by apply (runs_segment Install)| |lia..].
    apply (segment_cons _ 6 6 7 7); [simpl; lia| |lia..].
    apply segment_one. simpl. lia.
Qed.

Ltac count_segments :=
  repeat first
    [ rewrite count_events_app
    | rewrite count_events_cons
    | rewrite (count_events_none _ []) by constructor
    | rewrite count_events_none by (eapply runs_not; [|eassumption]; by intros [])
    | rewrite count_events_none by (eapply cache_part_not; [| |eassumption]; [by intros []|done]) ].

(** An install checks the revision out once. *)
Lemma outcome_one_checkout env commit s s' r t :
  install_outcome C env commit s s' r t → count_events is_checkout t = 1.
Proof. destruct 1; count_segments; done. Qed.

(** The cache entry is finalized once when the install returns, and not
    at all when it raises. *)
Lemma outcome_finalize env commit s s' r t :
  install_outcome C env commit s s' r t →
  count_events (is_finalize commit) t = match r with Ok _ => 1 | Raise _ => 0 end.
Proof.
  destruct 1; count_segments; simpl; try done.
  rewrite bool_decide_eq_true_2 by done. done.
Qed.

End OutcomeFacts.

Section InstallFacts.

Context {World : Type}.
Variable C : collaborators World.
Implicit Types (s : state World) (env : environment) (commit : string) (t : list event).

Lemma installed_hash_status env s s' :
  status_file s' = status_file s →
  _get_installed_commit_hash env s' = _get_installed_commit_hash env s.
Proof. unfold _get_installed_commit_hash. by intros ->. Qed.

Lemma installed_hash_written env (hash : option string) s :
  status_file s = Some (InstallStatus hash (Some (_get_install_checksum env))) →
  _get_installed_commit_hash env s = hash.
Proof.
  unfold _get_installed_commit_hash. intros ->. simpl.
  rewrite decide_False; [done|]. by intros H; apply H.
Qed.

Lemma installed_hash_invalid env env' s :
  status_file s = Some (InstallStatus None (Some (_get_install_checksum env))) →
  _get_installed_commit_hash env' s = None.
Proof. unfold _get_installed_commit_hash. intros ->. simpl. by case_decide. Qed.

Lemma installed_hash_checksum env s recorded hash :
  status_file s = Some (InstallStatus hash (Some recorded)) →
  checksum_differs recorded env →
  _get_installed_commit_hash env s = None.
Proof.
  unfold _get_installed_commit_hash, checksum_differs, _get_install_checksum.
  intros -> H. simpl. rewrite decide_True; [done|].
  intros [= ->]. simpl in H. destruct H as [H|[H|[H|[H|[H|H]]]]]; by apply H.
Qed.

(** The call that finds the revision installed only resets variables. *)
Lemma install_project_noop env commit s :
  _get_installed_commit_hash env s = Some commit →
  install_project C env commit s
  = (Ok (), State (delete "ASV_BUILD_CACHE_DIR"
                     (delete "ASV_BUILD_DIR" (<["ASV_COMMIT" := commit]> (_env_vars s))))
                  (status_file s) (world s) (trace s)).
Proof.
  intros H. unfold install_project, get_state, mbind, M_bind.
  rewrite H. by rewrite decide_True.
Qed.

Lemma install_project_has_work env commit s :
  _get_installed_commit_hash env s ≠ Some commit →
  install_project C env commit s = install_project_work C env commit s.
Proof.
  intros H. unfold install_project, get_state, mbind, M_bind.
  by rewrite decide_False.
Qed.

(** A call that has work to do ends in one of the five ways. *)
Lemma install_project_outcome env commit s r s' :
  _get_installed_commit_hash env s ≠ Some commit →
  install_project C env commit s = (r, s') →
  ∃ t, trace s' = trace s ++ t ∧ install_outcome C env commit s s' r t.
Proof.
  intros H E. rewrite install_project_has_work in E by done.
  apply install_project_work_outcome in E as (t & ? & ? & _). eauto.
Qed.

Lemma outcome_installed env commit s s' t :
  install_outcome C env commit s s' (Ok ()) t →
  _get_installed_commit_hash env s' = Some commit.
Proof. inversion 1. by apply installed_hash_written. Qed.

Lemma outcome_invalidated env env' commit s s' e t :
  install_outcome C env commit s s' (Raise e) t → is_step_exn e = true →
  _get_installed_commit_hash env' s' = None.
Proof. inversion 1; subst; try done; intros _; by eapply installed_hash_invalid. Qed.

Lemma outcome_head env commit s s' r t :
  install_outcome C env commit s s' r t →
  t = [EvCheckout (_build_root env) commit]
  ∨ ∃ rest, t = EvCheckout (_build_root env) commit :: EvStatus None :: rest.
Proof. destruct 1; eauto. Qed.

Lemma outcome_status_count env commit s s' r t :
  install_outcome C env commit s s' r t →
  match r with
  | Ok _ => ∃ body, t = body ++ [EvStatus (Some commit)]
                    ∧ count_events is_status_some body = 0
  | Raise _ => count_events is_status_some t = 0
  end.
Proof.
  destruct 1 as [?|e tU ? HU ?|e tU tB ? HU HB ? ?|e tU tC tI ? HU HC HL HI ?
                 |tU tC tI HU HC HL HI ? ? ?].
  - done.
  - rewrite !count_events_cons. simpl.
    rewrite count_events_none; [done|]. eapply runs_not; [|eassumption]. by intros [].
  - rewrite !count_events_cons, count_events_app, count_events_cons. simpl.
    rewrite !count_events_none; [done|..]; (eapply runs_not; [|eassumption]; by intros []).
  - rewrite !count_events_cons, !count_events_app. simpl.
    rewrite !count_events_none; [done|..].
    + eapply runs_not; [|eassumption]. by intros [].
    + eapply cache_part_not; [| |eassumption]; [by intros []|done].
    + eapply runs_not; [|eassumption]. by intros [].
  - exists (EvCheckout (_build_root env) commit :: EvStatus None
              :: tU ++ tC ++ tI ++ [EvCacheFinalize commit]).
    split; [by rewrite <- !app_comm_cons, <- !(assoc_L (++))|].
    rewrite !count_events_cons, !count_events_app. simpl.
    rewrite !count_events_none; [done|..].
    + repeat constructor.
    + eapply runs_not; [|eassumption]. by intros [].
    + eapply cache_part_not; [| |eassumption]; [by intros []|done].
    + eapply runs_not; [|eassumption]. by intros [].
Qed.

Lemma count_events_elem p pre x post :
  p x = true → count_events p (pre ++ x :: post) ≠ 0.
Proof. intros Hx. rewrite count_events_app, count_events_cons, Hx. lia. Qed.

Lemma outcome_status_last env commit s s' r t pre c post :
  install_outcome C env commit s s' r t →
  t = pre ++ EvStatus (Some c) :: post →
  r = Ok () ∧ c = commit ∧ post = [].
Proof.
  intros H%outcome_status_count E. destruct r as [[]|e].
  - destruct H as (body & -> & Hb). split; [done|].
    destruct post as [|y post _] using rev_ind.
    + apply app_inj_tail in E as [_ E]. by simplify_eq.
    + change (pre ++ EvStatus (Some c) :: post ++ [y])
        with (pre ++ (EvStatus (Some c) :: post) ++ [y]) in E.
      rewrite (assoc_L (++)) in E. apply app_inj_tail in E as [-> _].
      by apply count_events_elem in Hb.
  - subst t. by apply count_events_elem in H.
Qed.

End InstallFacts.

Section FullInstall.

Context {World : Type}.
Variable C : collaborators World.
Implicit Types (s : state World) (env : environment) (commit : string) (t : list event).

Lemma run_all_ok env st cwd cmds :
  ∀ s s', run_all C env st cwd cmds s = (Ok (), s') →
    trace s' = trace s ++ runs_of st cwd (_env_vars s) cmds
    ∧ _env_vars s' = _env_vars s
    ∧ status_file s' = status_file s.
Proof.
  induction cmds as [|cmd cmds IH]; intros s s' H; simpl in H.
  - unfold mret, M_ret in H. simplify_eq. by rewrite app_nil_r.
  - destruct (Util.cmd_argv cmd) as [|exe args]; [by unfold raise in H|].
    apply bind_inv in H as [([] & s1 & H1 & H2)|(e & H1 & [=])].
    apply run_executable_spec in H1 as [(T1 & _ & V1 & S1 & _) _].
    apply IH in H2 as (T2 & V2 & S2).
    rewrite T2, T1, V2, V1, S2, S1, <- (assoc_L (++)). done.
Qed.

Lemma interpolate_and_run_ok env st cmds cwd s s' :
  _interpolate_and_run_commands C env st cmds cwd s = (Ok (), s') →
  ∃ interpolated,
    _interpolate_commands C cmds s = Ok interpolated
    ∧ trace s' = trace s ++ runs_of st cwd (_env_vars s) interpolated
    ∧ _env_vars s' = _env_vars s
    ∧ status_file s' = status_file s.
Proof.
  unfold _interpolate_and_run_commands, get_state, mbind, M_bind.
  destruct (_interpolate_commands C cmds s) as [interpolated|e]; [|by unfold raise].
  intros H%run_all_ok. eauto.
Qed.

Lemma interpolate_commands_falsy cmds s :
  cmd_truthy cmds = false → _interpolate_commands C cmds s = Ok [].
Proof. unfold _interpolate_commands. by intros ->. Qed.

(** A step that returned ran its commands. *)
Lemma step_ok env st s s' :
  (if cmd_truthy (configured_command env st)
   then _interpolate_and_run_commands C env st (configured_command env st) (step_cwd env st)
   else mret ()) s = (Ok (), s') →
  ∃ t, step_ran C env st s t
       ∧ trace s' = trace s ++ t
       ∧ _env_vars s' = _env_vars s
       ∧ status_file s' = status_file s.
Proof.
  destruct (cmd_truthy (configured_command env st)) eqn:T.
  - intros (cmds & E & T' & V & S')%interpolate_and_run_ok.
    exists (runs_of st (step_cwd env st) (_env_vars s) cmds). split; [|done].
    by exists cmds.
  - intros [= <-]. exists []. rewrite app_nil_r. split; [|done].
    exists []. split; [by apply interpolate_commands_falsy|done].
Qed.

Lemma uninstall_project_ok env s s' :
  _uninstall_project C env s = (Ok (), s') →
  ∃ sU tU,
    _env_vars sU = _env_vars s ∧ world sU = world s
    ∧ step_ran C env Uninstall sU tU
    ∧ trace s' = trace s ++ EvStatus None :: tU
    ∧ _env_vars s' = _env_vars s.
Proof.
  unfold _uninstall_project. intros H.
  apply bind_inv in H as [([] & s1 & H1 & H)|(e & H1 & [=])].
  rewrite set_installed_commit_hash_spec in H1. simplify_eq.
  apply (step_ok env Uninstall) in H as (tU & R & T & V & _). simpl in *.
  eexists _, tU. split_and!; [| |exact R|..]; try done.
  by rewrite T, <- (assoc_L (++)).
Qed.

Lemma install_project_work_full env commit s s' :
  install_project_work C env commit s = (Ok (), s') →
  ∃ t, trace s' = trace s ++ t ∧ full_install C env commit s t.
Proof.
  unfold install_project_work. intros H.
  apply bind_inv in H as [([] & s1 & H1 & H)|(e & H1 & [=])].
  apply checkout_project_spec in H1 as [[w1 ->] _].
  apply bind_inv in H as [([] & s2 & H2 & H)|(e & H2 & [=])].
  rewrite set_build_dirs_spec in H2. simplify_eq. simpl in H.
  apply bind_inv in H as [([] & s3 & H3 & H)|(e & H3 & [=])].
  apply uninstall_project_ok in H3 as (sU & tU & VU & WU & RU & TU & V3). simpl in *.
  apply bind_inv in H as [(cache & s4 & H4 & H)|(e & H4 & [=])].
  unfold cache_get_cache_dir, get_state, mbind, M_bind, mret, M_ret in H4. simplify_eq.
  apply bind_inv in H as [([] & s5 & H5 & H)|(e & H5 & [=])].
  apply bind_inv in H as [([] & s6 & H6 & H)|(e & H6 & [=])].
  apply (step_ok env Install) in H6 as (tI & RI & TI & VI & SI).
  apply bind_inv in H as [([] & s7 & H7 & H)|(e & H7 & [=])].
  unfold cache_finalize_cache_dir, emit, call_world, mbind, M_bind in H7.
  simpl in H7. simplify_eq.
  rewrite set_installed_commit_hash_spec in H. simplify_eq. simpl.
  destruct (get_cache_dir C commit (world s4)) as [dir|] eqn:G.
  - rewrite set_build_dirs_spec in H5. simplify_eq. simpl in *.
    exists (EvCheckout (_build_root env) commit :: EvStatus None
              :: tU ++ [] ++ tI ++ [EvCacheFinalize commit; EvStatus (Some commit)]).
    split; [rewrite TI; simpl; rewrite TU; by rewrite <- !(assoc_L (++))|].
    eexists sU, _, tU, [], tI, dir. split; [done|]. split; [done|].
    split; [done|]. split; [|split; [exact RI|]].
    + simpl. by rewrite V3, VU.
    + left. done.
  - apply bind_inv in H5 as [(dir & s8 & H8 & H5)|(e & H8 & [=])].
    unfold cache_create_cache_dir, emit, call_world, mbind, M_bind in H8.
    simpl in H8. destruct (create_cache_dir C commit (world s4)) as [dir' w8] eqn:Ec.
    simplify_eq.
    apply bind_inv in H5 as [([] & s9 & H9 & H5)|(e & H9 & [=])].
    rewrite set_build_dirs_spec in H9. simplify_eq. simpl in H5.
    apply (step_ok env Build) in H5 as (tB & RB & TB & VB & SB). simpl in *.
    exists (EvCheckout (_build_root env) commit :: EvStatus None
              :: tU ++ (EvCacheCreate commit :: tB) ++ tI
              ++ [EvCacheFinalize commit; EvStatus (Some commit)]).
    split; [rewrite TI, TB; simpl; rewrite TU; by rewrite <- !(assoc_L (++))|].
    eexists sU, s5, tU, (EvCacheCreate commit :: tB), tI, dir.
    split; [done|]. split; [done|]. split; [done|]. split; [|split; [exact RI|]].
    + by rewrite VB, V3, VU.
    + right.
      match type of RB with step_ran _ _ _ ?sB _ => exists sB, tB, (world s4) end.
      split; [done|]. split; [done|].
      split; [exact Ec|]. split; [by rewrite VB|exact RB].
Qed.

End FullInstall.

Section InstallCounts.

Context {World : Type}.
Variable C : collaborators World.
Implicit Types (s : state World) (env : environment) (commit : string) (t : list event).

Lemma count_events_runs_of p st cwd vars cmds :
  (∀ cmd, p (EvRun st cwd cmd vars) = true) →
  count_events p (runs_of st cwd vars cmds) = length cmds.
Proof.
  intros Hp. induction cmds as [|cmd cmds IH]; [done|].
  unfold runs_of in *. rewrite fmap_cons, count_events_cons, Hp, IH. done.
Qed.

Lemma count_events_runs_of_none p st cwd vars cmds :
  (∀ cmd, p (EvRun st cwd cmd vars) = false) →
  count_events p (runs_of st cwd vars cmds) = 0.
Proof.
  intros Hp. apply count_events_none, Forall_fmap, Forall_forall. intros cmd _. apply Hp.
Qed.

Lemma interpolate_all_length templates kwargs cmds :
  interpolate_all templates kwargs = Ok cmds → length cmds = length templates.
Proof.
  revert cmds. induction templates as [|c templates IH]; intros cmds H; simpl in H.
  - by simplify_eq.
  - destruct (Util.interpolate_command c kwargs) as [cmd|[name text]]; [|done].
    destruct (interpolate_all templates kwargs) as [cmds'|e]; [|done].
    simplify_eq. simpl. by rewrite (IH cmds').
Qed.

(** A step that ran has one run for each of its templates. *)
Lemma step_ran_count env st s t :
  step_ran C env st s t →
  count_events (is_run_of st) t = length (step_templates env st)
  ∧ (∀ st', st' ≠ st → count_events (is_run_of st') t = 0)
  ∧ count_events is_checkout t = 0
  ∧ count_events is_cache_create t = 0.
Proof.
  intros (cmds & E & ->).
  assert (L : length cmds = length (step_templates env st)).
  { unfold _interpolate_commands, step_templates in *.
    destruct (cmd_truthy (configured_command env st)); simpl in E.
    - destruct (interpolation_kwargs C s) as [kwargs|e]; [|done].
      by eapply interpolate_all_length.
    - by simplify_eq. }
  split_and!.
  - rewrite count_events_runs_of; [done|]. intros cmd. simpl. by apply bool_decide_eq_true.
  - intros st' N. apply count_events_runs_of_none. intros cmd. simpl.
    apply bool_decide_eq_false. by intros ->.
  - by apply count_events_runs_of_none.
  - by apply count_events_runs_of_none.
Qed.

Lemma full_install_counts env commit s t :
  full_install C env commit s t → install_counts env t.
Proof.
  intros (sU & sI & tU & tC & tI & dir & -> & _ & RU & _ & RI & HC).
  apply step_ran_count in RU as (U1 & U2 & U3 & U4).
  apply step_ran_count in RI as (I1 & I2 & I3 & I4).
  unfold install_counts.
  rewrite !count_events_cons, !count_events_app, !count_events_cons. simpl.
  rewrite U1, U3, U4, I1, I3, I4, (U2 Build), (U2 Install), (I2 Uninstall), (I2 Build)
    by done.
  destruct HC as [[-> _]|(sB & tB & w & -> & _ & _ & _ & RB)].
  - simpl. change (count_events ?p []) with 0. lia.
  - apply step_ran_count in RB as (B1 & B2 & B3 & B4).
    rewrite !count_events_cons. simpl.
    rewrite B1, B3, B4, (B2 Uninstall), (B2 Install) by done.
    change (count_events ?p []) with 0. lia.
Qed.

Lemma install_project_full env commit s s' :
  _get_installed_commit_hash env s ≠ Some commit →
  install_project C env commit s = (Ok (), s') →
  ∃ t, trace s' = trace s ++ t
       ∧ install_outcome C env commit s s' (Ok ()) t
       ∧ full_install C env commit s t
       ∧ install_counts env t.
Proof.
  intros N H.
  destruct (install_project_outcome C env commit s _ s' N H) as (t & T & O).
  rewrite install_project_has_work in H by done.
  apply install_project_work_full in H as (t' & T' & F).
  assert (t' = t) as -> by (apply (app_inv_head (trace s)); congruence).
  exists t. eauto using full_install_counts.
Qed.

End InstallCounts.

Section InstallClaims.

Context {World : Type}.
Variable C : collaborators World.
Implicit Types (s : state World) (env : environment) (commit : string) (t : list event).

(** C1: when a call of [install_project] has returned, the next call for
    the same revision with the same configuration does nothing: no
    checkout, no command, no write of the status file.  The first call,
    when the revision was not installed before, is a complete install: one
    checkout, then every configured uninstall command, every configured
    build command unless the cache had the build, and every configured
    install command, each once and in this order; so the two calls
    together check out, build and install once.  And when a field of the
    checksum recorded in the status file differs from the configuration,
    [_get_installed_commit_hash] returns [None] and [install_project] does
    all the work again, whatever revision the file names: a call that
    returns is a complete install once more. *)
Theorem install_project_idempotent env commit :
  (∀ s s1,
     install_project C env commit s = (Ok (), s1) →
     (∃ s2, install_project C env commit s1 = (Ok (), s2)
            ∧ trace s2 = trace s1
            ∧ status_file s2 = status_file s1
            ∧ world s2 = world s1)
     ∧ (_get_installed_commit_hash env s ≠ Some commit →
        ∃ t, trace s1 = trace s ++ t
             ∧ install_outcome C env commit s s1 (Ok ()) t
             ∧ count_events is_checkout t = 1
             ∧ full_install C env commit s t
             ∧ install_counts env t))
  ∧ (∀ s recorded hash,
       status_file s = Some (InstallStatus hash (Some recorded)) →
       checksum_differs recorded env →
       _get_installed_commit_hash env s = None
       ∧ install_project C env commit s = install_project_work C env commit s
       ∧ ∃ r s' t, install_project C env commit s = (r, s')
                   ∧ trace s' = trace s ++ t
                   ∧ install_outcome C env commit s s' r t
                   ∧ count_events is_checkout t = 1
                   ∧ (r = Ok () → full_install C env commit s t ∧ install_counts env t)).
Proof.
  split.
  - intros s s1 H.
    assert (I : _get_installed_commit_hash env s1 = Some commit).
    { destruct (decide (_get_installed_commit_hash env s = Some commit)) as [E|N].
      - rewrite install_project_noop in H by done. simplify_eq. done.
      - eapply install_project_outcome in H as (t & _ & O); [|done].
        by eapply outcome_installed. }
    split.
    + rewrite install_project_noop by done. eexists. split; [done|]. done.
    + intros N. destruct (install_project_full C env commit s s1 N H) as (t & T & O & F & K).
      exists t. split_and!; try done. by destruct K.
  - intros s recorded hash S D.
    assert (N : _get_installed_commit_hash env s = None)
      by (by eapply installed_hash_checksum).
    split; [done|].
    split; [apply install_project_has_work; by rewrite N|].
    destruct (install_project C env commit s) as [r s'] eqn:E.
    assert (N' : _get_installed_commit_hash env s ≠ Some commit) by (by rewrite N).
    destruct (install_project_outcome C env commit s r s' N' E) as (t & T & O).
    exists r, s', t. split_and!; eauto using outcome_one_checkout.
    intros ->. destruct (install_project_full C env commit s s' N' E) as (t' & T' & _ & F & K).
    assert (t' = t) as -> by (apply (app_inv_head (trace s)); congruence).
    done.
Qed.

(** C2: in a call of [install_project] that has work to do, every command
    runs after the status file was written with no revision; the status
    file is written with the revision as the last thing, in a call that
    returns; and when the uninstall, build or install step raises, the
    status file names no revision, for any configuration, and the next
    call, for any revision, starts again from the checkout. *)
Theorem install_invalidates_first env commit s r s' :
  _get_installed_commit_hash env s ≠ Some commit →
  install_project C env commit s = (r, s') →
  ∃ t, trace s' = trace s ++ t
       ∧ (∀ pre st cwd cmd vars post,
            t = pre ++ EvRun st cwd cmd vars :: post → EvStatus None ∈ pre)
       ∧ (∀ pre c post,
            t = pre ++ EvStatus (Some c) :: post →
            r = Ok () ∧ c = commit ∧ post = [])
       ∧ (∀ e, r = Raise e → is_step_exn e = true →
            (∀ env', _get_installed_commit_hash env' s' = None)
            ∧ ∀ commit', ∃ r2 s2 t2,
                install_project C env commit' s' = (r2, s2)
                ∧ trace s2 = trace s' ++ t2
                ∧ install_outcome C env commit' s' s2 r2 t2).
Proof.
  intros N E. eapply install_project_outcome in E as (t & T & O); [|done].
  exists t. split; [done|]. split; [|split].
  - intros pre st cwd cmd vars post Et.
    destruct (outcome_head _ _ _ _ _ _ _ O) as [->|[rest ->]].
    + destruct pre as [|? [|? ?]]; simplify_eq/=.
    + destruct pre as [|? [|? pre]]; simplify_eq/=. set_solver.
  - intros pre c post Et. by eapply outcome_status_last.
  - intros e -> X.
    assert (I : ∀ env', _get_installed_commit_hash env' s' = None)
      by (intros env'; by eapply outcome_invalidated).
    split; [done|]. intros commit'.
    destruct (install_project C env commit' s') as [r2 s2] eqn:E2.
    eapply install_project_outcome in E2 as (t2 & T2 & O2); [|by rewrite I].
    exists r2, s2, t2. done.
Qed.

(** C3, as the code has it: the events of a call that has work to do are
    in the order checkout, invalidation of the status, uninstall commands,
    allocation of the cache directory, build commands, install commands,
    finalization of the cache entry, write of the new status; no command
    runs once the cache entry is finalized; a call that returns went
    through all of these, with the allocation and the build commands left
    out exactly when the cache had the build; and with a cache that has no
    valid entry for the revision, a call that returns went through all
    eight steps. *)
Theorem install_step_order env commit s r s' :
  _get_installed_commit_hash env s ≠ Some commit →
  install_project C env commit s = (r, s') →
  ∃ t, trace s' = trace s ++ t
       ∧ in_step_order step_rank t
       ∧ (∀ pre c post e,
            t = pre ++ EvCacheFinalize c :: post → e ∈ post → is_run e = false)
       ∧ (r = Ok () →
          ∃ tU tC tI,
            t = EvCheckout (_build_root env) commit :: EvStatus None
                  :: tU ++ tC ++ tI ++ [EvCacheFinalize commit; EvStatus (Some commit)]
            ∧ Forall (λ e, is_run_of Uninstall e = true) tU
            ∧ cache_part commit tC
            ∧ cache_lookup C commit tC
            ∧ Forall (λ e, is_run_of Install e = true) tI)
       ∧ (r = Ok () → (∀ w, get_cache_dir C commit w = None) →
          ∃ tU tB tI,
            t = EvCheckout (_build_root env) commit :: EvStatus None
                  :: tU ++ (EvCacheCreate commit :: tB) ++ tI
                  ++ [EvCacheFinalize commit; EvStatus (Some commit)]
            ∧ Forall (λ e, is_run_of Uninstall e = true) tU
            ∧ Forall (λ e, is_run_of Build e = true) tB
            ∧ Forall (λ e, is_run_of Install e = true) tI).
Proof.
  intros N E. eapply install_project_outcome in E as (t & T & O); [|done].
  exists t. split; [done|].
  pose proof (outcome_step_order _ _ _ _ _ _ _ O) as S.
  split; [done|]. split; [|split].
  - intros pre c post e -> He.
    apply StronglySorted_app_1_r, StronglySorted_cons in S as [S _].
    rewrite Forall_forall in S. specialize (S _ He). simpl in S.
    destruct e as [| |[] ? ? ?| |]; simpl in *; try done; lia.
  - intros ->. inversion O; subst. eauto 10.
  - intros -> Hmiss. inversion O as [| | | |tU tC tI HU HC HL HI]; subst.
    destruct HL as [[_ [w [dir Hw]]]|[Hne _]]; [by rewrite Hmiss in Hw|].
    destruct HC as [->|(tB & -> & HB)]; [done|]. eauto 10.
Qed.

(** C10, as the code has it: a call of [install_project] that has work to
    do calls [finalize_cache_dir] once, for the revision, when it returns,
    also when the cache had the build and [create_cache_dir] was not
    called; and it does not call it when a step raises. *)
Theorem install_finalizes_on_success env commit s r s' :
  _get_installed_commit_hash env s ≠ Some commit →
  install_project C env commit s = (r, s') →
  ∃ t, trace s' = trace s ++ t
       ∧ count_events (is_finalize commit) t
         = match r with Ok _ => 1 | Raise _ => 0 end
       ∧ (∀ c, EvCacheFinalize c ∈ t → c = commit)
       ∧ count_events is_cache_create t ≤ 1
       ∧ (r = Ok () → (∀ w, is_Some (get_cache_dir C commit w)) →
          count_events is_cache_create t = 0
          ∧ count_events (is_finalize commit) t = 1).
Proof.
  intros N E. eapply install_project_outcome in E as (t & T & O); [|done].
  exists t. split; [done|]. split; [by eapply outcome_finalize|].
  split; [|split]; cycle 2.
  { intros -> Hhit. split; [|by apply (outcome_finalize _ _ _ _ _ _ _ O)].
    inversion O as [| | | |tU tC tI HU HC HL HI]; subst.
    destruct HL as [[-> _]|[_ [w Hw]]];
      [|by destruct (Hhit w) as [dir Hd]; rewrite Hw in Hd].
    rewrite !count_events_cons, !count_events_app, !count_events_cons. simpl.
    rewrite !count_events_none; [done|constructor|..];
      (eapply runs_not; [|eassumption]; by intros []). }
  - intros c Hc.
    assert (Hrun : ∀ st l, Forall (λ e, is_run_of st e = true) l → EvCacheFinalize c ∉ l).
    { intros st l Hl Hin. rewrite Forall_forall in Hl. by apply Hl in Hin. }
    assert (Hpart : ∀ l, cache_part commit l → EvCacheFinalize c ∉ l).
    { intros l [->|(tB & -> & HB)]; [set_solver|].
      intros [|Hin]%elem_of_cons; [done|]. by eapply Hrun. }
    destruct O;
      repeat first [rewrite elem_of_cons in Hc | rewrite elem_of_app in Hc
                   | rewrite elem_of_nil in Hc];
      destruct_or?; simplify_eq; try done; exfalso;
      match goal with
      | H : Forall _ ?l, Hc : _ ∈ ?l |- _ => exact (Hrun _ _ H Hc)
      | H : cache_part _ ?l, Hc : _ ∈ ?l |- _ => exact (Hpart _ H Hc)
      end.
  - assert (Hrun : ∀ st l, Forall (λ e, is_run_of st e = true) l →
                           count_events is_cache_create l = 0).
    { intros st l Hl. apply count_events_none. eapply runs_not; [|exact Hl]. by intros []. }
    assert (Hpart : ∀ l, cache_part commit l → count_events is_cache_create l ≤ 1).
    { intros l [->|(tB & -> & HB)]; [unfold count_events; simpl; lia|].
      rewrite count_events_cons, (Hrun _ _ HB). simpl. lia. }
    destruct O;
      repeat first [rewrite count_events_cons | rewrite count_events_app];
      change (count_events is_cache_create []) with 0; simpl;
      repeat match goal with
             | H : Forall (λ e, is_run_of _ e = true) _ |- _ =>
                 rewrite (Hrun _ _ H); clear H
             | H : cache_part _ _ |- _ => apply Hpart in H
             end; lia.
Qed.

(** C9, as the code has it: the call of [install_project] that has nothing
    to do returns with neither variable of the build present; in a call
    that has work to do every command runs with the build directory in
    [ASV_BUILD_DIR], the uninstall commands without [ASV_BUILD_CACHE_DIR]
    and the build and the install commands with it. *)
Theorem install_build_dirs env commit s r s' :
  install_project C env commit s = (r, s') →
  (_get_installed_commit_hash env s = Some commit →
     r = Ok ()
     ∧ trace s' = trace s
     ∧ _env_vars s' !! "ASV_BUILD_DIR" = None
     ∧ _env_vars s' !! "ASV_BUILD_CACHE_DIR" = None)
  ∧ (_get_installed_commit_hash env s ≠ Some commit →
     ∃ t, trace s' = trace s ++ t ∧ Forall (run_vars_ok env) t).
Proof.
  intros E. split.
  - intros I. rewrite install_project_noop in E by done. simplify_eq. simpl.
    split_and!; [done..| |].
    + rewrite lookup_delete_ne by done. by rewrite lookup_delete_eq.
    + by rewrite lookup_delete_eq.
  - intros N. eapply install_project_outcome in E as (t & T & O); [|done].
    exists t. eauto using outcome_run_vars.
Qed.

(** Where an install that returned leaves the variables of the build. *)
Lemma install_done_build_dirs env commit s s' :
  _get_installed_commit_hash env s ≠ Some commit →
  install_project C env commit s = (Ok (), s') →
  _env_vars s' !! "ASV_BUILD_DIR" = Some (build_dir_of env)
  ∧ is_Some (_env_vars s' !! "ASV_BUILD_CACHE_DIR").
Proof.
  intros N E. eapply install_project_outcome in E as (t & T & O); [|done].
  by inversion O.
Qed.

End InstallClaims.

Import Sim.

Lemma install_project_idempotent_witness :
  install_project sim default_env "r1" (fresh_state fresh_world)
  = (Ok (), (install_project sim default_env "r1" (fresh_state fresh_world)).2)
  ∧ _get_installed_commit_hash default_env (fresh_state fresh_world) ≠ Some "r1"
  ∧ (∃ s2, install_project sim default_env "r1"
             (install_project sim default_env "r1" (fresh_state fresh_world)).2
           = (Ok (), s2)
           ∧ trace s2 = trace (install_project sim default_env "r1" (fresh_state fresh_world)).2)
  ∧ (∃ t, trace (install_project sim default_env "r1" (fresh_state fresh_world)).2 = t
          ∧ full_install sim default_env "r1" (fresh_state fresh_world) t
          ∧ count_events is_checkout t = 1
          ∧ count_events (is_run_of Uninstall) t = 1
          ∧ count_events (is_run_of Build) t = 2
          ∧ count_events (is_run_of Install) t = 1)
  ∧ checksum_differs (_get_install_checksum default_env) renamed_env
  ∧ _get_installed_commit_hash renamed_env
      (install_project sim default_env "r1" (fresh_state fresh_world)).2 = None
  ∧ install_project sim renamed_env "r1"
      (install_project sim default_env "r1" (fresh_state fresh_world)).2
    = install_project_work sim renamed_env "r1"
        (install_project sim default_env "r1" (fresh_state fresh_world)).2.
Proof.
  assert (H : install_project sim default_env "r1" (fresh_state fresh_world)
              = (Ok (), (install_project sim default_env "r1" (fresh_state fresh_world)).2))
    by (vm_compute; reflexivity).
  assert (N : _get_installed_commit_hash default_env (fresh_state fresh_world) ≠ Some "r1")
    by (vm_compute; discriminate).
  assert (D : checksum_differs (_get_install_checksum default_env) renamed_env)
    by (right; right; left; simpl; discriminate).
  destruct (install_project_idempotent sim default_env "r1") as [Hsame _].
  destruct (install_project_idempotent sim renamed_env "r1") as [_ Hdiff].
  destruct (Hsame _ _ H) as [(s2 & E2 & T2 & _) Hfirst].
  destruct (Hfirst N) as (t & T & _ & _ & F & K1 & K2 & _ & K4 & K5).
  split; [exact H|]. split; [exact N|].
  split; [exists s2; split; [exact E2|exact T2]|].
  split.
  { exists t. split; [exact T|]. split; [exact F|]. split; [exact K1|].
    split; [exact K2|]. split; [|exact K5].
    rewrite K4. change (trace (fresh_state fresh_world) ++ t) with t in T.
    rewrite <- T. vm_compute. reflexivity. }
  split; [exact D|].
  destruct (Hdiff (install_project sim default_env "r1" (fresh_state fresh_world)).2
              (_get_install_checksum default_env) (Some "r1")) as (G & W & _);
    [vm_compute; reflexivity|exact D|].
  split; [exact G|exact W].
Defined.

Lemma install_invalidates_first_witness :
  _get_installed_commit_hash default_env (fresh_state pip_install_fails) ≠ Some "r1"
  ∧ ∀ env', _get_installed_commit_hash env'
              (install_project sim default_env "r1" (fresh_state pip_install_fails)).2
            = None.
Proof.
  assert (N : _get_installed_commit_hash default_env (fresh_state pip_install_fails)
              ≠ Some "r1") by (vm_compute; discriminate).
  split; [exact N|].
  destruct (install_project sim default_env "r1" (fresh_state pip_install_fails))
    as [r s'] eqn:E.
  destruct (install_invalidates_first sim default_env "r1" _ r s' N E)
    as (t & _ & _ & _ & H).
  assert (Er : r = (install_project sim default_env "r1" (fresh_state pip_install_fails)).1)
    by (by rewrite E).
  vm_compute in Er.
  exact (proj1 (H _ Er eq_refl)).
Defined.

(** C3, as the specification has it, fails on a new environment with the
    default commands: the install command runs before the cache entry is
    finalized. *)
Lemma install_step_order_counterexample :
  get_cache_dir sim "r1" fresh_world = None
  ∧ (install_project sim default_env "r1" (fresh_state fresh_world)).1 = Ok ()
  ∧ spec_step_rank <$> trace (install_project sim default_env "r1" (fresh_state fresh_world)).2
    = [0; 1; 2; 3; 4; 4; 6; 5; 7]
  ∧ ¬ in_step_order spec_step_rank
        (trace (install_project sim default_env "r1" (fresh_state fresh_world)).2).
Proof.
  split; [reflexivity|]. split; [vm_compute; reflexivity|].
  split; [vm_compute; reflexivity|].
  unfold in_step_order. refine (proj1 (bool_decide_eq_false _) _).
  vm_compute. reflexivity.
Qed.

Lemma install_step_order_witness :
  _get_installed_commit_hash default_env (fresh_state fresh_world) ≠ Some "r1"
  ∧ (∀ w, get_cache_dir no_cache "r1" w = None)
  ∧ in_step_order step_rank
      (trace (install_project no_cache default_env "r1" (fresh_state fresh_world)).2)
  ∧ EvCacheCreate "r1"
    ∈ trace (install_project no_cache default_env "r1" (fresh_state fresh_world)).2.
Proof.
  assert (N : _get_installed_commit_hash default_env (fresh_state fresh_world) ≠ Some "r1")
    by (vm_compute; discriminate).
  split; [exact N|]. split; [reflexivity|].
  destruct (install_project no_cache default_env "r1" (fresh_state fresh_world))
    as [r s'] eqn:E.
  destruct (install_step_order no_cache default_env "r1" _ r s' N E)
    as (t & T & S & _ & _ & Hmiss).
  assert (Er : r = (install_project no_cache default_env "r1" (fresh_state fresh_world)).1)
    by (by rewrite E).
  vm_compute in Er.
  destruct (Hmiss Er (λ w, eq_refl)) as (tU & tB & tI & -> & _).
  simpl. rewrite T. simpl. split; [exact S|].
  do 2 right. apply elem_of_app. right. left.
Defined.

(** C10, as stated, fails when the install command fails: the call has
    work to do and [finalize_cache_dir] is not called. *)
Lemma install_finalizes_counterexample :
  _get_installed_commit_hash default_env (fresh_state pip_install_fails) ≠ Some "r1"
  ∧ (∃ e, (install_project sim default_env "r1" (fresh_state pip_install_fails)).1 = Raise e)
  ∧ count_events (is_finalize "r1")
      (trace (install_project sim default_env "r1" (fresh_state pip_install_fails)).2) = 0.
Proof.
  split; [vm_compute; discriminate|]. split; [eexists; vm_compute; reflexivity|].
  vm_compute. reflexivity.
Qed.

Lemma install_finalizes_on_success_witness :
  _get_installed_commit_hash default_env (fresh_state cached_r1) ≠ Some "r1"
  ∧ (∀ w, is_Some (get_cache_dir full_cache "r1" w))
  ∧ count_events is_cache_create
      (trace (install_project full_cache default_env "r1" (fresh_state cached_r1)).2) = 0
  ∧ count_events (is_finalize "r1")
      (trace (install_project full_cache default_env "r1" (fresh_state cached_r1)).2) = 1.
Proof.
  assert (N : _get_installed_commit_hash default_env (fresh_state cached_r1) ≠ Some "r1")
    by (vm_compute; discriminate).
  assert (Hhit : ∀ w, is_Some (get_cache_dir full_cache "r1" w))
    by (intros w; eexists; reflexivity).
  split; [exact N|]. split; [exact Hhit|].
  destruct (install_project full_cache default_env "r1" (fresh_state cached_r1))
    as [r s'] eqn:E.
  destruct (install_finalizes_on_success full_cache default_env "r1" _ r s' N E)
    as (t & T & _ & _ & _ & H).
  assert (Er : r = (install_project full_cache default_env "r1" (fresh_state cached_r1)).1)
    by (by rewrite E).
  vm_compute in Er.
  simpl. rewrite T. simpl. exact (H Er Hhit).
Defined.

Lemma install_build_dirs_witness :
  _get_installed_commit_hash default_env (fresh_state cached_r1) ≠ Some "r1"
  ∧ Forall (run_vars_ok default_env)
      (trace (install_project full_cache default_env "r1" (fresh_state cached_r1)).2).
Proof.
  assert (N : _get_installed_commit_hash default_env (fresh_state cached_r1) ≠ Some "r1")
    by (vm_compute; discriminate).
  split; [exact N|].
  destruct (install_project full_cache default_env "r1" (fresh_state cached_r1))
    as [r s'] eqn:E.
  destruct (install_build_dirs full_cache default_env "r1" _ r s' E) as [_ H].
  destruct (H N) as (t & T & F).
  simpl. rewrite T. exact F.
Defined.

(** C9, as stated, fails on a new environment with the default commands:
    [install_project] returns from a completed install with both variables
    of the build set; and when the cache has the build of the revision, no
    build command runs and the install command runs with
    [ASV_BUILD_CACHE_DIR]. *)
Lemma install_build_dirs_counterexample :
  (install_project sim default_env "r1" (fresh_state fresh_world)).1 = Ok ()
  ∧ _env_vars (install_project sim default_env "r1" (fresh_state fresh_world)).2
      !! "ASV_BUILD_DIR" = Some "/env/project"
  ∧ _env_vars (install_project sim default_env "r1" (fresh_state fresh_world)).2
      !! "ASV_BUILD_CACHE_DIR" = Some "/env/asv-build-cache/r1"
  ∧ (install_project sim default_env "r1" (fresh_state cached_r1)).1 = Ok ()
  ∧ run_cache_dirs (trace (install_project sim default_env "r1" (fresh_state cached_r1)).2)
    = [(Uninstall, None); (Install, Some "/env/asv-build-cache/r1")].
Proof. repeat split; vm_compute; reflexivity. Qed.

(** ** Command interpolation *)

Example interpolate_command_example :
  Util.interpolate_command "return-code=any FOO=bar prog {x}" {[ "x" := "hi" ]}
  = Ok (Util.Command ["prog"; "hi"] [("FOO", "bar")] None).
Proof. vm_compute. reflexivity. Qed.

Lemma format_pieces_raise variables ps v :
  Util.format_pieces variables ps = Raise v →
  Util.PVar v ∈ ps ∧ variables !! v = None.
Proof.
  induction ps as [|[text|name] ps IH]; simpl; [done|..].
  - destruct (Util.format_pieces variables ps); [done|].
    intros [= ->]. destruct IH as [? ?]; [done|]. split; [by right|done].
  - destruct (variables !! name) eqn:E.
    + destruct (Util.format_pieces variables ps); [done|].
      intros [= ->]. destruct IH as [? ?]; [done|]. split; [by right|done].
    + intros [= ->]. split; [by left|done].
Qed.

Lemma format_pieces_unbound variables ps v :
  Util.PVar v ∈ ps → variables !! v = None →
  ∃ v', Util.format_pieces variables ps = Raise v'.
Proof.
  intros Hin Hv. induction ps as [|[text|name] ps IH]; simpl.
  - by apply elem_of_nil in Hin.
  - apply elem_of_cons in Hin as [|Hin]; [done|].
    destruct (IH Hin) as [v' ->]. eauto.
  - apply elem_of_cons in Hin as [[= <-]|Hin].
    + rewrite Hv. eauto.
    + destruct (variables !! name); [|eauto]. destruct (IH Hin) as [v' ->]. eauto.
Qed.

Lemma placeholders_pieces token v :
  v ∈ Util.placeholders token ↔ Util.PVar v ∈ Util.pieces token.
Proof.
  unfold Util.placeholders. rewrite list_elem_of_omap. split.
  - intros ([text|name] & Hin & E); simplify_eq. done.
  - intros Hin. exists (Util.PVar v). done.
Qed.

Lemma format_tokens_raise variables tokens v :
  Util.format_tokens variables tokens = Raise v →
  v ∈ tokens ≫= Util.placeholders ∧ variables !! v = None.
Proof.
  induction tokens as [|token tokens IH]; simpl; [done|].
  destruct (Util.format_pieces variables (Util.pieces token)) as [word|name] eqn:E.
  - destruct (Util.format_tokens variables tokens); [done|].
    intros [= ->]. destruct IH as [? ?]; [done|]. split; [|done].
    apply elem_of_app. by right.
  - intros [= ->]. apply format_pieces_raise in E as [? ?]. split; [|done].
    apply elem_of_app. left. by apply placeholders_pieces.
Qed.

Lemma format_tokens_unbound variables tokens v :
  v ∈ tokens ≫= Util.placeholders → variables !! v = None →
  ∃ v', Util.format_tokens variables tokens = Raise v'.
Proof.
  intros Hin Hv. induction tokens as [|token tokens IH]; simpl in *.
  - by apply elem_of_nil in Hin.
  - apply elem_of_app in Hin as [Hin|Hin].
    + apply placeholders_pieces in Hin.
      destruct (format_pieces_unbound _ _ _ Hin Hv) as [v' ->]. eauto.
    + destruct (Util.format_pieces variables (Util.pieces token)); [|eauto].
      destruct (IH Hin) as [v' ->]. eauto.
Qed.

(** A command that refers to a variable without a value fails the
    interpolation, and the error names such a variable and the command. *)
Lemma interpolate_command_unbound command_text variables v :
  v ∈ Util.command_placeholders command_text → variables !! v = None →
  ∃ v', Util.interpolate_command command_text variables = Raise (v', command_text)
        ∧ v' ∈ Util.command_placeholders command_text
        ∧ variables !! v' = None.
Proof.
  intros Hin Hv. unfold Util.interpolate_command, Util.command_placeholders in *.
  destruct (format_tokens_unbound _ _ _ Hin Hv) as [v' E]. rewrite E.
  apply format_tokens_raise in E as [? ?]. eauto.
Qed.

Lemma interpolate_command_raise command_text variables v text :
  Util.interpolate_command command_text variables = Raise (v, text) →
  text = command_text
  ∧ v ∈ Util.command_placeholders command_text
  ∧ variables !! v = None.
Proof.
  unfold Util.interpolate_command, Util.command_placeholders.
  destruct (Util.format_tokens _ _) eqn:E; [done|]. intros [= -> ->].
  apply format_tokens_raise in E as [? ?]. done.
Qed.

Lemma interpolate_all_unbound cmds kwargs c v :
  c ∈ cmds → v ∈ Util.command_placeholders c → kwargs !! v = None →
  ∃ v' c', interpolate_all cmds kwargs = Raise (UserError v' c')
           ∧ c' ∈ cmds
           ∧ v' ∈ Util.command_placeholders c'
           ∧ kwargs !! v' = None.
Proof.
  intros Hc Hv Hk. induction cmds as [|c0 cmds IH]; simpl.
  - by apply elem_of_nil in Hc.
  - destruct (Util.interpolate_command c0 kwargs) as [cmd|[name text]] eqn:E.
    + apply elem_of_cons in Hc as [->|Hc].
      * destruct (interpolate_command_unbound _ _ _ Hv Hk) as (? & ? & _). congruence.
      * destruct (IH Hc) as (v' & c' & -> & ? & ? & ?).
        exists v', c'. split_and!; auto. by right.
    + apply interpolate_command_raise in E as (-> & ? & ?).
      exists name, c0. split_and!; auto. by left.
Qed.

(** The names of the variables of an environment give the interpolation
    variable [build_cache_dir] only for [ASV_BUILD_CACHE_DIR], and none of
    them gives [wheel_file]. *)
Lemma kwargs_of_items_known items :
  ∀ acc,
    Forall (λ kv, kv.1 ∈ known_vars) items → NoDup items.*1 →
    ∃ kwargs,
      kwargs_of_items items acc = Ok kwargs
      ∧ kwargs !! "wheel_file" = acc !! "wheel_file"
      ∧ kwargs !! "build_cache_dir"
        = from_option Some (acc !! "build_cache_dir")
            ((list_to_map items : gmap string string) !! "ASV_BUILD_CACHE_DIR").
Proof.
  induction items as [|[key value] items IH]; intros acc Hk Hn.
  - exists acc. done.
  - apply Forall_cons in Hk as [Hkey Hk]. apply NoDup_cons in Hn as [Hnot Hn].
    simpl in Hkey, Hnot. unfold known_vars in Hkey.
    repeat (apply elem_of_cons in Hkey as [->|Hkey]); [..|by apply elem_of_nil in Hkey].
    all: simpl kwargs_of_items.
    all: try (destruct (IH acc Hk Hn) as (kwargs & -> & Hw & Hb);
              exists kwargs; split; [done|]; split; [done|];
              rewrite Hb; simpl; by rewrite lookup_insert_ne by done).
    all: match goal with
         | |- context [kwargs_of_items _ ?acc'] =>
             destruct (IH acc' Hk Hn) as (kwargs & -> & Hw & Hb)
         end.
    all: exists kwargs; split; [done|].
    all: split; [rewrite Hw; by rewrite lookup_insert_ne by done|].
    all: rewrite Hb; simpl.
    all: try (rewrite !lookup_insert_ne by done; done).
    rewrite !lookup_insert_eq.
    by rewrite (not_elem_of_list_to_map_1 _ _ Hnot).
Qed.

(** ** File names that end in [.whl] *)

Lemma list_ascii_app s1 s2 :
  list_ascii_of_string (s1 +:+ s2) = list_ascii_of_string s1 ++ list_ascii_of_string s2.
Proof.
  induction s1 as [|c s1 IH]; [done|].
  change (String c s1 +:+ s2) with (String c (s1 +:+ s2)). simpl. by rewrite IH.
Qed.

Lemma list_ascii_inj s1 s2 :
  list_ascii_of_string s1 = list_ascii_of_string s2 → s1 = s2.
Proof.
  intros H. rewrite <- (string_of_list_ascii_of_string s1),
              <- (string_of_list_ascii_of_string s2). by rewrite H.
Qed.

Lemma list_ascii_rev_app s1 s2 :
  list_ascii_of_string (String.rev_app s1 s2)
  = reverse (list_ascii_of_string s1) ++ list_ascii_of_string s2.
Proof.
  revert s2. induction s1 as [|c s1 IH]; intros s2; [done|].
  simpl. rewrite IH, reverse_cons, <- (assoc_L (++)). done.
Qed.

Lemma list_ascii_rev s :
  list_ascii_of_string (String.rev s) = reverse (list_ascii_of_string s).
Proof. unfold String.rev. by rewrite list_ascii_rev_app, app_nil_r. Qed.

Lemma list_ascii_lower s :
  list_ascii_of_string (str_lower s) = ascii_lower <$> list_ascii_of_string s.
Proof. induction s as [|c s IH]; [done|]. simpl. by rewrite IH. Qed.

Lemma string_prefix_list p s :
  String.prefix p s = true ↔ list_ascii_of_string p `prefix_of` list_ascii_of_string s.
Proof.
  revert s. induction p as [|a p IH]; intros s.
  - destruct s; simpl; (split; [intros _; apply prefix_nil|done]).
  - destruct s as [|b s]; simpl.
    + split; [done|]. intros H. by apply prefix_nil_inv in H.
    + destruct (ascii_dec a b) as [->|N].
      * rewrite IH. split; [apply prefix_cons|apply prefix_cons_inv_2].
      * split; [done|]. intros H. by apply prefix_cons_inv_1 in H.
Qed.

Lemma str_endswith_list s p :
  str_endswith s p = true ↔ list_ascii_of_string p `suffix_of` list_ascii_of_string s.
Proof.
  unfold str_endswith. rewrite string_prefix_list, !list_ascii_rev.
  by rewrite suffix_prefix_reverse.
Qed.

Lemma ascii_lower_dot c : ascii_lower c = "."%char → c = "."%char.
Proof. destruct c as [[] [] [] [] [] [] [] []]; vm_compute; congruence. Qed.

Lemma ascii_lower_w c : ascii_lower c = "w"%char ↔ (c = "w" ∨ c = "W")%char.
Proof.
  split; [|by intros [-> | ->]].
  destruct c as [[] [] [] [] [] [] [] []]; vm_compute; intros H; try discriminate H; auto.
Qed.

Lemma ascii_lower_h c : ascii_lower c = "h"%char ↔ (c = "h" ∨ c = "H")%char.
Proof.
  split; [|by intros [-> | ->]].
  destruct c as [[] [] [] [] [] [] [] []]; vm_compute; intros H; try discriminate H; auto.
Qed.

Lemma ascii_lower_l c : ascii_lower c = "l"%char ↔ (c = "l" ∨ c = "L")%char.
Proof.
  split; [|by intros [-> | ->]].
  destruct c as [[] [] [] [] [] [] [] []]; vm_compute; intros H; try discriminate H; auto.
Qed.

(** The test of the source is the test for the ending. *)
Lemma endswith_whl fn :
  str_endswith (str_lower fn) ".whl" = true ↔ ends_with_whl fn.
Proof.
  rewrite str_endswith_list, list_ascii_lower. split.
  - intros [k Hk]. simpl in Hk.
    apply fmap_app_inv in Hk as (stem & ext & _ & Hext & Hfn).
    destruct ext as [|d [|w [|h [|l [|? ?]]]]]; simplify_eq/=.
    exists (string_of_list_ascii stem), w, h, l. split_and!.
    + apply list_ascii_inj. rewrite Hfn, list_ascii_app.
      rewrite list_ascii_of_string_of_list_ascii. simpl.
      by rewrite (ascii_lower_dot d).
    + by apply ascii_lower_w.
    + by apply ascii_lower_h.
    + by apply ascii_lower_l.
  - intros (stem & w & h & l & -> & Hw & Hh & Hl).
    exists (ascii_lower <$> list_ascii_of_string stem).
    rewrite list_ascii_app, fmap_app. simpl.
    apply ascii_lower_w in Hw as ->. apply ascii_lower_h in Hh as ->.
    apply ascii_lower_l in Hl as ->. done.
Qed.

Lemma filter_singleton {A} (P : A → Prop) `{∀ x, Decision (P x)} (l : list A) x :
  filter P l = [x]
  ↔ ∃ before after, l = before ++ x :: after ∧ P x ∧ Forall (λ y, ¬ P y) (before ++ after).
Proof.
  split.
  - induction l as [|y l IH]; [done|]. rewrite filter_cons. case_decide as Hy.
    + intros [= -> Hl]. exists [], l. split; [done|]. split; [done|]. simpl.
      apply Forall_forall. intros z Hz Pz.
      assert (z ∈ filter P l) as Hin by (by apply list_elem_of_filter).
      rewrite Hl in Hin. by apply elem_of_nil in Hin.
    + intros (before & after & -> & Px & Hf)%IH.
      exists (y :: before), after. split; [done|]. split; [done|]. by constructor.
  - intros (before & after & -> & Px & Hf). apply Forall_app in Hf as [Hb Ha].
    rewrite filter_app, filter_cons, decide_True by done.
    assert (Hnil : ∀ k, Forall (λ y, ¬ P y) k → filter P k = []).
    { intros k Hk. induction Hk as [|y k Hy _ IH]; [done|].
      by rewrite filter_cons, decide_False. }
    by rewrite !Hnil.
Qed.

Section InterpolationClaims.

Context {World : Type}.
Variable C : collaborators World.
Implicit Types (s : state World) (env : environment).

Lemma interpolation_kwargs_known s :
  env_vars_wf (_env_vars s) →
  ∃ kwargs0,
    kwargs_of_items (map_to_list (_env_vars s)) ∅ = Ok kwargs0
    ∧ kwargs0 !! "wheel_file" = None
    ∧ kwargs0 !! "build_cache_dir" = _env_vars s !! "ASV_BUILD_CACHE_DIR".
Proof.
  intros Hwf.
  destruct (kwargs_of_items_known (map_to_list (_env_vars s)) ∅) as (kwargs & E & Hw & Hb).
  - apply Forall_forall. intros [key value] Hin%elem_of_map_to_list. apply Hwf. eauto.
  - apply NoDup_fst_map_to_list.
  - exists kwargs. split; [done|]. split; [by rewrite Hw|].
    rewrite Hb, list_to_map_to_list, lookup_empty.
    by destruct (_env_vars s !! "ASV_BUILD_CACHE_DIR").
Qed.

(** The files [_interpolate_commands] keeps are the files whose name ends
    in [.whl]. *)
Lemma wheels_in_only w cache_dir wheel :
  wheels_in C w cache_dir = [wheel] ↔ only_wheel (os_listdir C w cache_dir) wheel.
Proof.
  unfold wheels_in, only_wheel. rewrite filter_singleton.
  split; intros (before & after & E & Hw & Hf); exists before, after.
  - split; [done|]. split; [by apply endswith_whl|].
    eapply Forall_impl; [exact Hf|]. intros fn Hn Hfn. by apply Hn, endswith_whl.
  - split; [done|]. split; [by apply endswith_whl|].
    eapply Forall_impl; [exact Hf|]. intros fn Hn Hfn. by apply Hn, endswith_whl.
Qed.

(** C8: for an environment whose variables are the ones it sets itself,
    [wheel_file] is bound exactly when the variable of the build cache
    directory is there, the directory exists and its listing has one file
    whose name ends in a dot and the letters w, h, l, each in either case;
    it is then the path of that file in the directory.  When it is not
    bound, a command list with a command that refers to it fails to
    interpolate: the error names a variable without a value and the
    command that refers to it, which are [wheel_file] and the command when
    nothing else is missing, and no command has run. *)
Theorem wheel_file_binding s :
  env_vars_wf (_env_vars s) →
  ∃ kwargs,
    interpolation_kwargs C s = Ok kwargs
    ∧ (is_Some (kwargs !! "wheel_file")
       ↔ ∃ cache_dir wheel,
           _env_vars s !! "ASV_BUILD_CACHE_DIR" = Some cache_dir
           ∧ os_path_isdir C (world s) cache_dir = true
           ∧ only_wheel (os_listdir C (world s) cache_dir) wheel)
    ∧ (∀ path, kwargs !! "wheel_file" = Some path →
         ∃ cache_dir wheel,
           _env_vars s !! "ASV_BUILD_CACHE_DIR" = Some cache_dir
           ∧ only_wheel (os_listdir C (world s) cache_dir) wheel
           ∧ path = path_join cache_dir wheel)
    ∧ (∀ cache_dir wheel,
         _env_vars s !! "ASV_BUILD_CACHE_DIR" = Some cache_dir →
         os_path_isdir C (world s) cache_dir = true →
         only_wheel (os_listdir C (world s) cache_dir) wheel →
         kwargs !! "wheel_file" = Some (path_join cache_dir wheel))
    ∧ (∀ env st cmds cwd c,
         kwargs !! "wheel_file" = None →
         c ∈ command_list cmds →
         "wheel_file" ∈ Util.command_placeholders c →
         ∃ v c',
           _interpolate_and_run_commands C env st cmds cwd s = (Raise (UserError v c'), s)
           ∧ c' ∈ command_list cmds
           ∧ v ∈ Util.command_placeholders c'
           ∧ kwargs !! v = None
           ∧ ((∀ c2 v2, c2 ∈ command_list cmds → v2 ∈ Util.command_placeholders c2 →
                        kwargs !! v2 = None → v2 = "wheel_file") →
              v = "wheel_file" ∧ "wheel_file" ∈ Util.command_placeholders c')).
Proof.
  intros Hwf. destruct (interpolation_kwargs_known s Hwf) as (kwargs0 & E0 & Hw0 & Hb0).
  unfold interpolation_kwargs. rewrite E0.
  exists (add_wheel_file C (world s) kwargs0). split; [done|].
  assert (Hadd : add_wheel_file C (world s) kwargs0 !! "wheel_file"
                 = cache_dir ← _env_vars s !! "ASV_BUILD_CACHE_DIR";
                   if os_path_isdir C (world s) cache_dir
                   then match wheels_in C (world s) cache_dir with
                        | [wheel] => Some (path_join cache_dir wheel)
                        | _ => None
                        end
                   else None).
  { unfold add_wheel_file. rewrite Hb0.
    destruct (_env_vars s !! "ASV_BUILD_CACHE_DIR") as [cache_dir|]; simpl; [|done].
    destruct (os_path_isdir C (world s) cache_dir); [|done].
    destruct (wheels_in C (world s) cache_dir) as [|wheel [|]]; try done.
    by rewrite lookup_insert_eq. }
  assert (Hbound : ∀ cache_dir wheel,
            _env_vars s !! "ASV_BUILD_CACHE_DIR" = Some cache_dir →
            os_path_isdir C (world s) cache_dir = true →
            only_wheel (os_listdir C (world s) cache_dir) wheel →
            add_wheel_file C (world s) kwargs0 !! "wheel_file"
            = Some (path_join cache_dir wheel)).
  { intros cache_dir wheel Hv Hd Ho%wheels_in_only. rewrite Hadd, Hv. simpl.
    by rewrite Hd, Ho. }
  assert (Hpath : ∀ path,
            add_wheel_file C (world s) kwargs0 !! "wheel_file" = Some path →
            ∃ cache_dir wheel,
              _env_vars s !! "ASV_BUILD_CACHE_DIR" = Some cache_dir
              ∧ os_path_isdir C (world s) cache_dir = true
              ∧ only_wheel (os_listdir C (world s) cache_dir) wheel
              ∧ path = path_join cache_dir wheel).
  { intros path. rewrite Hadd. intros H.
    destruct (_env_vars s !! "ASV_BUILD_CACHE_DIR") as [cache_dir|]; simpl in H; [|done].
    destruct (os_path_isdir C (world s) cache_dir) eqn:Hd; [|done].
    destruct (wheels_in C (world s) cache_dir) as [|wheel [|]] eqn:Ew; simplify_eq.
    exists cache_dir, wheel. split_and!; auto. by apply wheels_in_only. }
  split; [|split; [|split]].
  - split.
    + intros [path (cache_dir & wheel & ? & ? & ? & _)%Hpath]. eauto.
    + intros (cache_dir & wheel & Hv & Hd & Ho). rewrite (Hbound _ _ Hv Hd Ho). eauto.
  - intros path (cache_dir & wheel & ? & ? & ? & ?)%Hpath. eauto.
  - exact Hbound.
  - intros env st cmds cwd c Hnone Hc Hv.
    assert (T : cmd_truthy cmds = true).
    { destruct cmds as [|c0|[|c0 l]]; simpl in *; try by apply elem_of_nil in Hc.
      - apply list_elem_of_singleton in Hc as <-. destruct c; [|done].
        by apply elem_of_nil in Hv.
      - done. }
    destruct (interpolate_all_unbound (command_list cmds) _ c _ Hc Hv Hnone)
      as (v & c' & E & Hc' & Hv' & Hk).
    exists v, c'. split_and!; auto.
    + unfold _interpolate_and_run_commands, get_state, mbind, M_bind,
        _interpolate_commands, interpolation_kwargs.
      rewrite T, E0. simpl.
      replace (match cmds with CmdNone => [] | CmdStr c1 => [c1] | CmdList l => l end)
        with (command_list cmds) by (by destruct cmds).
      by rewrite E.
    + intros Honly. assert (v = "wheel_file") as -> by eauto. done.
Qed.

End InterpolationClaims.


Lemma wheel_file_binding_witness :
  env_vars_wf (_env_vars (cache_dir_state capital_wheel))
  ∧ only_wheel (os_listdir sim capital_wheel "/cache") "project-0.1-py3-none-any.WHL"
  ∧ (∃ kwargs,
       interpolation_kwargs sim (cache_dir_state capital_wheel) = Ok kwargs
       ∧ kwargs !! "wheel_file" = Some "/cache/project-0.1-py3-none-any.WHL")
  ∧ env_vars_wf (_env_vars (fresh_state fresh_world))
  ∧ ∃ v c,
      _interpolate_and_run_commands sim default_env Install
        (CmdList ["python -mpip install {wheel_file}"]) "/env/project"
        (fresh_state fresh_world)
      = (Raise (UserError v c), fresh_state fresh_world).
Proof.
  assert (Hwf1 : env_vars_wf (_env_vars (cache_dir_state capital_wheel))).
  { intros key [value Hk]. simpl in Hk.
    apply lookup_singleton_Some in Hk as [<- _]. unfold known_vars.
    do 8 right. left. }
  assert (Ho : only_wheel (os_listdir sim capital_wheel "/cache")
                          "project-0.1-py3-none-any.WHL").
  { exists ["notes.txt"], []. split; [vm_compute; reflexivity|]. split.
    - exists "project-0.1-py3-none-any", "W"%char, "H"%char, "L"%char.
      split; [reflexivity|]. auto.
    - repeat constructor. intros H%endswith_whl. vm_compute in H. discriminate H. }
  assert (Hwf : env_vars_wf (_env_vars (fresh_state fresh_world)))
    by apply initial_state_wf.
  split; [exact Hwf1|]. split; [exact Ho|]. split; [|split; [exact Hwf|]].
  - destruct (wheel_file_binding sim _ Hwf1) as (kwargs & E & _ & _ & Hb & _).
    exists kwargs. split; [exact E|].
    apply (Hb "/cache" "project-0.1-py3-none-any.WHL").
    + apply lookup_singleton_eq.
    + vm_compute. reflexivity.
    + exact Ho.
  - destruct (wheel_file_binding sim _ Hwf) as (kwargs & _ & Hiff & _ & _ & H).
    assert (Hnone : kwargs !! "wheel_file" = None).
    { apply eq_None_not_Some. intros (cache_dir & wheel & Hdir & _)%Hiff.
      vm_compute in Hdir. discriminate Hdir. }
    destruct (H default_env Install (CmdList ["python -mpip install {wheel_file}"])
                "/env/project" "python -mpip install {wheel_file}" Hnone)
      as (v & c & Hr & _).
    + simpl. apply list_elem_of_singleton. reflexivity.
    + vm_compute. apply elem_of_cons. left. reflexivity.
    + exists v, c. exact Hr.
Defined.

(** ** The environment of a process *)


Lemma str_split_cons sep s : ∃ field fields, str_split sep s = field :: fields.
Proof.
  induction s as [|c s (f & fs & IH)]; simpl; [eauto|].
  case_decide; [eauto|]. rewrite IH. eauto.
Qed.

Lemma str_join_cons sep x y l :
  str_join sep (x :: y :: l) = x +:+ sep +:+ str_join sep (y :: l).
Proof. reflexivity. Qed.

Lemma str_join_split sep s : str_join (String sep "") (str_split sep s) = s.
Proof.
  induction s as [|c s IH]; [done|]. cbn [str_split].
  destruct (str_split_cons sep s) as (f & fs & E). rewrite E in *.
  case_decide as Ec.
  - subst c. by rewrite str_join_cons, IH.
  - destruct fs as [|g fs].
    + cbn in *. by rewrite IH.
    + rewrite str_join_cons in *. by rewrite <- IH.
Qed.

Lemma str_split_fields sep s field :
  field ∈ str_split sep s → sep ∉ list_ascii_of_string field.
Proof.
  revert field. induction s as [|c s IH]; intros field; simpl.
  - intros ->%list_elem_of_singleton. simpl. apply not_elem_of_nil.
  - destruct (str_split_cons sep s) as (f & fs & E). rewrite E in *.
    case_decide as Ec.
    + intros [->|H]%elem_of_cons; [simpl; apply not_elem_of_nil|by apply IH].
    + intros [->|H]%elem_of_cons.
      * simpl. rewrite not_elem_of_cons. split; [done|]. apply IH. by left.
      * apply IH. by right.
Qed.

Section ProcessEnvironmentFacts.

Variable WIN : bool.
Variable os_pathsep : ascii.
Variable os_path_join : string → string → string.

Lemma insert_bin_dirs_app path paths :
  insert_bin_dirs WIN os_path_join path paths
  = insert_bin_dirs WIN os_path_join path [] ++ paths.
Proof. unfold insert_bin_dirs. destruct WIN; reflexivity. Qed.

Lemma str_join_app_cons sep l x l' :
  str_join sep (l ++ x :: l') = str_join sep (l ++ [str_join sep (x :: l')]).
Proof.
  induction l as [|a [|b l] IH]; simpl in *; [done| |].
  - done.
  - by rewrite IH.
Qed.

(** X1: the [PATH] of the process are the directories of the environment,
    in the order [run_executable] inserts them, followed by the [PATH] it
    was given, unchanged; without a [PATH] it is those directories only. *)
Theorem process_environ_path path env_arg env_vars :
  let dirs := if WIN
              then [path; os_path_join path "Library\mingw-w64\bin";
                    os_path_join path "Library\bin"; os_path_join path "Library\usr\bin";
                    os_path_join path "Scripts"]
              else [os_path_join path "bin"] in
  process_environ WIN os_pathsep os_path_join path env_arg env_vars !! "PATH"
  = Some (str_join (String os_pathsep "")
            (dirs ++ match (env_vars ∪ env_arg) !! "PATH" with
                     | Some value => [value]
                     | None => []
                     end)).
Proof.
  intros dirs. unfold process_environ. rewrite lookup_insert_eq. f_equal.
  rewrite insert_bin_dirs_app.
  replace (insert_bin_dirs WIN os_path_join path []) with dirs
    by (unfold insert_bin_dirs, dirs; by destruct WIN).
  destruct ((env_vars ∪ env_arg) !! "PATH") as [value|]; [|done].
  destruct (str_split_cons os_pathsep value) as (f & fs & E).
  rewrite E, str_join_app_cons, <- E. by rewrite str_join_split.
Qed.

(** X2: in the environment of a command [PIP_USER] is [false], whatever
    the variables say; for every other name but [PATH], a variable of the
    environment object wins over the [env] of the command, and that over
    [os.environ]. *)
Theorem command_environ_precedence path os_environ env env_vars :
  let environ := command_environ WIN os_pathsep os_path_join path os_environ env env_vars in
  environ !! "PIP_USER" = Some "false"
  ∧ ∀ key, key ≠ "PATH" → key ≠ "PIP_USER" →
      environ !! key
      = match env_vars !! key with
        | Some value => Some value
        | None =>
            match env !! key with
            | Some value => Some value
            | None => os_environ !! key
            end
        end.
Proof.
  intros environ. unfold environ, command_environ, process_environ. split.
  - rewrite lookup_insert_ne by done. by rewrite lookup_insert_eq.
  - intros key H1 H2. rewrite !lookup_insert_ne by done.
    rewrite !lookup_union.
    by destruct (env_vars !! key), (env !! key), (os_environ !! key).
Qed.

End ProcessEnvironmentFacts.

(** ** Environment classes *)
Section ClassFacts.

Variable host : host_info.

Lemma class_index_by_name_Some classes environment_type i :
  class_index_by_name classes environment_type = Some i →
  ∃ before cls after,
    classes = before ++ cls :: after
    ∧ length before = i
    ∧ tool_name cls = environment_type
    ∧ Forall (λ c, tool_name c ≠ environment_type) before.
Proof.
  revert i. induction classes as [|c classes IH]; intros i; simpl; [done|].
  case_decide as E.
  - intros [= <-]. by exists [], c, classes.
  - destruct (class_index_by_name classes environment_type) as [j|]; [|done].
    intros [= <-]. destruct (IH j eq_refl) as (before & cls & after & -> & <- & ? & ?).
    exists (c :: before), cls, after. split_and!; auto.
Qed.

Lemma class_index_by_name_None classes environment_type :
  class_index_by_name classes environment_type = None →
  Forall (λ c, tool_name c ≠ environment_type) classes.
Proof.
  induction classes as [|c classes IH]; simpl; [constructor|].
  case_decide; [done|].
  destruct (class_index_by_name classes environment_type); [done|].
  intros _. constructor; auto.
Qed.

(** X3: the class [get_environment_class_by_name] returns is the first of
    the subclasses that has the name; it raises [EnvironmentUnavailable]
    exactly when no subclass has it. *)
Theorem get_environment_class_by_name_first environment_type :
  match get_environment_class_by_name host environment_type with
  | Some cls =>
      ∃ before after,
        subclasses host = before ++ cls :: after
        ∧ tool_name cls = environment_type
        ∧ Forall (λ c, tool_name c ≠ environment_type) before
  | None => Forall (λ c, tool_name c ≠ environment_type) (subclasses host)
  end.
Proof.
  unfold get_environment_class_by_name.
  destruct (class_index_by_name _ _) as [i|] eqn:E; simpl.
  - apply class_index_by_name_Some in E as (before & cls & after & E & <- & ? & ?).
    rewrite E, list_lookup_middle by done. eauto.
  - by apply class_index_by_name_None.
Qed.

Lemma find_some_elem {A} (p : A → bool) l x :
  List.find p l = Some x → x ∈ l ∧ p x = true.
Proof. intros [? ?]%find_some. by rewrite list_elem_of_In. Qed.

Lemma find_app_false {A} (p : A → bool) l1 l2 :
  Forall (λ y, p y = false) l1 → List.find p (l1 ++ l2) = List.find p l2.
Proof. induction 1 as [|y l Hy _ IH]; simpl; [done|]. by rewrite Hy. Qed.

Lemma find_last_reverse {A} (p : A → bool) before x after :
  p x = true → Forall (λ y, p y = false) after →
  List.find p (reverse (before ++ x :: after)) = Some x.
Proof.
  intros Hx Hafter. rewrite reverse_app, reverse_cons, <- (assoc_L (++)).
  rewrite find_app_false by (by apply Forall_reverse). simpl. by rewrite Hx.
Qed.

Lemma find_none_Forall {A} (p : A → bool) l :
  List.find p l = None ↔ Forall (λ y, p y = false) l.
Proof.
  induction l as [|y l IH]; simpl; [by split; [constructor|]|].
  destruct (p y) eqn:E.
  - split; [done|]. intros [? _]%Forall_cons. congruence.
  - rewrite IH, Forall_cons. tauto.
Qed.

(** X4: with no [environment_type] in the configuration, the class for a
    version other than [same] is the last of the subclasses that matches
    it, so that plugins come first; the lookup raises
    [EnvironmentUnavailable] exactly when no subclass matches. *)
Theorem get_environment_class_plugins_first conf python :
  python ≠ Some "same" →
  str_truthy (conf_environment_type conf) = false →
  (∀ before cls after,
     subclasses host = before ++ cls :: after →
     matches cls python = true →
     Forall (λ c, matches c python = false) after →
     get_environment_class host conf python = Some cls)
  ∧ (Forall (λ c, matches c python = false) (subclasses host) ↔
     get_environment_class host conf python = None).
Proof.
  intros Hs Ht. unfold get_environment_class.
  rewrite decide_False by done. rewrite Ht. split.
  - intros before cls after -> Hm Hafter. by apply find_last_reverse.
  - rewrite find_none_Forall, !Forall_forall. setoid_rewrite elem_of_reverse. done.
Qed.

(** X5: with an [environment_type] in the configuration, an unknown type
    raises [EnvironmentUnavailable] whatever the version; a known one is
    the class returned when it matches the version, any class returned
    matches the version, and the lookup raises exactly when no subclass
    matches. *)
Theorem get_environment_class_configured conf python :
  python ≠ Some "same" →
  str_truthy (conf_environment_type conf) = true →
  match get_environment_class_by_name host (conf_environment_type conf) with
  | None => get_environment_class host conf python = None
  | Some cls =>
      (matches cls python = true → get_environment_class host conf python = Some cls)
      ∧ (∀ cls', get_environment_class host conf python = Some cls' →
           cls' ∈ subclasses host ∧ matches cls' python = true)
      ∧ (get_environment_class host conf python = None
         ↔ Forall (λ c, matches c python = false) (subclasses host))
  end.
Proof.
  intros Hs Ht. unfold get_environment_class, get_environment_class_by_name.
  rewrite decide_False by done. rewrite Ht.
  destruct (class_index_by_name _ _) as [i|] eqn:E; cbn [mbind option_bind]; [|done].
  apply class_index_by_name_Some in E as (before & cls & after & E & <- & _ & _).
  rewrite E, list_lookup_middle, delete_middle by done.
  split; [intros Hm; simpl; by rewrite Hm|]. split.
  - intros cls' [Hin Hm]%find_some_elem. split; [|done].
    apply elem_of_cons in Hin as [->|Hin]; [apply elem_of_app; right; by left|].
    apply elem_of_reverse, elem_of_app in Hin as [?|?];
      apply elem_of_app; [by left|right; by right].
  - rewrite find_none_Forall, Forall_cons, Forall_reverse, !Forall_app, Forall_cons. tauto.
Qed.

End ClassFacts.

Lemma get_environment_class_plugins_first_witness :
  Some "3.9" ≠ Some "same"
  ∧ str_truthy (conf_environment_type (axes_A_B "")) = false
  ∧ get_environment_class three_classes (axes_A_B "") (Some "3.9") = Some virtualenv_class.
Proof.
  assert (H1 : Some "3.9" ≠ Some "same") by discriminate.
  assert (H2 : str_truthy (conf_environment_type (axes_A_B "")) = false) by reflexivity.
  split; [exact H1|]. split; [exact H2|].
  destruct (get_environment_class_plugins_first three_classes (axes_A_B "") (Some "3.9")
              H1 H2) as [H _].
  apply (H [conda_class] virtualenv_class [existing_class]).
  - reflexivity.
  - reflexivity.
  - repeat constructor.
Defined.

Lemma get_environment_class_configured_witness :
  Some "3.9" ≠ Some "same"
  ∧ str_truthy (conf_environment_type (axes_A_B "conda")) = true
  ∧ get_environment_class three_classes (axes_A_B "conda") (Some "3.9") = Some conda_class.
Proof.
  assert (H1 : Some "3.9" ≠ Some "same") by discriminate.
  assert (H2 : str_truthy (conf_environment_type (axes_A_B "conda")) = true) by reflexivity.
  split; [exact H1|]. split; [exact H2|].
  pose proof (get_environment_class_configured three_classes (axes_A_B "conda") (Some "3.9")
                H1 H2) as H.
  change (get_environment_class_by_name three_classes
            (conf_environment_type (axes_A_B "conda")))
    with (Some conda_class) in H.
  destruct H as [H _]. apply H. reflexivity.
Defined.

(** ** More on rules and names *)
Lemma match_rule_forall (tgt : target) (rl : rule) :
  match_rule tgt rl = true ↔ map_Forall (λ key value, rule_item_ok tgt key value = true) rl.
Proof. apply match_rule_items. Qed.

(** X6: a rule whose keys are in two parts matches exactly when both parts
    match. *)
Theorem match_rule_union (tgt : target) (rl1 rl2 : rule) :
  rl1 ##ₘ rl2 →
  match_rule tgt (rl1 ∪ rl2) = match_rule tgt rl1 && match_rule tgt rl2.
Proof.
  intros Hd. apply eq_true_iff_eq.
  rewrite andb_true_iff, !match_rule_forall. by apply map_Forall_union.
Qed.

(** X7: [match_rule] never accepts a value that its pattern does not
    match in full, nor a value for a key the rule wants absent. *)
Theorem match_rule_accepts_only_full_matches (tgt : target) (rl : rule) :
  match_rule tgt rl = true →
  (∀ key pattern, rl !! key = Some (Some pattern) →
     ∃ w, tgt !! key = Some (Some w) ∧ Re.full_match pattern w)
  ∧ (∀ key, rl !! key = Some None → tgt !! key = None ∨ tgt !! key = Some None).
Proof.
  intros H. split.
  - intros key pattern E. apply (match_rule_sound tgt rl H key (Some pattern) E).
  - intros key E. apply (match_rule_sound tgt rl H key None E).
Qed.

Lemma rule_item_ok_view (tgt1 tgt2 : target) key value :
  tgt1 !! key ≫= id = tgt2 !! key ≫= id →
  rule_item_ok tgt1 key value = rule_item_ok tgt2 key value.
Proof.
  unfold rule_item_ok.
  destruct (tgt1 !! key) as [[w1|]|], (tgt2 !! key) as [[w2|]|], value; simpl;
    intros E; by simplify_eq.
Qed.

(** X8: a rule looks at the target only under its own keys, and a key with
    the value [None] is to it the same as a key that is not there. *)
Theorem match_rule_reads_rule_keys (tgt1 tgt2 : target) (rl : rule) :
  (∀ key, is_Some (rl !! key) → tgt1 !! key ≫= id = tgt2 !! key ≫= id) →
  match_rule tgt1 rl = match_rule tgt2 rl.
Proof.
  intros H. apply eq_true_iff_eq. rewrite !match_rule_items.
  split; intros Hok key value Hkv.
  - rewrite <- (rule_item_ok_view tgt1 tgt2) by eauto. eauto.
  - rewrite (rule_item_ok_view tgt1 tgt2) by eauto. eauto.
Qed.

Lemma match_rule_union_witness :
  ({[ "python" := Some version_3_x ]} : rule) ##ₘ {[ "numpy" := None ]}
  ∧ match_rule {[ "python" := Some "3.9" ]}
               ({[ "python" := Some version_3_x ]} ∪ {[ "numpy" := None ]})
    = true.
Proof.
  assert (H : ({[ "python" := Some version_3_x ]} : rule) ##ₘ {[ "numpy" := None ]})
    by (by apply map_disjoint_singleton_l_2, lookup_singleton_ne).
  split; [exact H|].
  rewrite (match_rule_union {[ "python" := Some "3.9" ]} _ _ H).
  vm_compute. reflexivity.
Defined.

Lemma match_rule_accepts_only_full_matches_witness :
  match_rule {[ "python" := Some "3.9" ]} {[ "python" := Some version_3_x ]} = true
  ∧ ∃ w, ({[ "python" := Some "3.9" ]} : target) !! "python" = Some (Some w)
         ∧ Re.full_match version_3_x w.
Proof.
  assert (H : match_rule {[ "python" := Some "3.9" ]} {[ "python" := Some version_3_x ]}
              = true) by (vm_compute; reflexivity).
  split; [exact H|].
  destruct (match_rule_accepts_only_full_matches _ _ H) as [Hp _].
  apply Hp. apply lookup_singleton_eq.
Defined.

Lemma match_rule_reads_rule_keys_witness :
  match_rule {[ "python" := Some "3.9"; "numpy" := None ]} {[ "numpy" := None ]}
  = match_rule {[ "python" := Some "2.7" ]} {[ "numpy" := None ]}.
Proof.
  apply match_rule_reads_rule_keys.
  intros key [value [<- _]%lookup_singleton_Some].
  vm_compute. reflexivity.
Defined.

Section NameFacts.

Variable sanitize_filename : string → string.

Lemma string_app_nil_r (s : string) : s +:+ "" = s.
Proof.
  induction s as [|c s IH]; [done|].
  change (String c s +:+ "") with (String c (s +:+ "")). by rewrite IH.
Qed.

(** X9: the name does not tell a requirement's name from its version: a
    requirement [key] at version [value] and a requirement named
    [key ++ value] without version give the same name. *)
Theorem get_env_name_joins_key_and_version tool_name python key value :
  get_env_name sanitize_filename tool_name python [(key, value)]
  = get_env_name sanitize_filename tool_name python [(key +:+ value, "")].
Proof.
  unfold get_env_name. do 3 f_equal. simpl. unfold req_token. simpl.
  destruct value; simpl; [by rewrite string_app_nil_r|done].
Qed.

End NameFacts.

(** ** More on the matrix *)
Lemma bind_length_const {A B} (f : A → list B) (l : list A) n :
  (∀ x, length (f x) = n) → length (l ≫= f) = length l * n.
Proof.
  intros Hf. induction l as [|x l IH]; [done|].
  rewrite bind_cons, length_app, IH, Hf. simpl. lia.
Qed.

Lemma product_length {A} (ls : list (list A)) :
  length (product ls) = foldr (λ l n, length l * n) 1 ls.
Proof.
  induction ls as [|l ls IH]; [done|]. simpl.
  rewrite (bind_length_const _ _ (length (product ls))).
  - by rewrite IH.
  - intros x. by rewrite length_fmap.
Qed.

Lemma product_head {A} (x : A) (ls : list (list A)) c :
  c ∈ product ([x] :: ls) → ∃ rest, c = x :: rest ∧ rest ∈ product ls.
Proof.
  simpl. rewrite app_nil_r. intros (rest & -> & ?)%list_elem_of_fmap. eauto.
Qed.

Lemma normalize_value_length v : 0 < length (normalize_value v).
Proof. destruct v as [x|[|x l]]; simpl; lia. Qed.

Lemma matrix_size_pos conf : 0 < matrix_size conf.
Proof.
  unfold matrix_size.
  assert (H : Forall (λ values : list (option string), 0 < length values)
                     (matrix_values conf)).
  { apply Forall_forall. intros values (key & _ & Hv)%list_elem_of_omap.
    destruct (conf_matrix conf !! key) as [v|]; simplify_eq/=.
    apply normalize_value_length. }
  induction H as [|values l Hv _ IH]; simpl; [lia|nia].
Qed.

Lemma filter_all {A} (P : A → bool) (l : list A) :
  Forall (λ x, P x = true) l → filter (λ x, P x) l = l.
Proof.
  induction 1 as [|x l Hx _ IH]; [done|].
  rewrite filter_cons, IH. rewrite decide_True; [done|]. by rewrite Hx.
Qed.

Lemma fold_insert_other {V} (items : list (string * V)) : ∀ (m : gmap string V) key,
  key ∉ items.*1 → fold_left (λ m kv, <[kv.1 := kv.2]> m) items m !! key = m !! key.
Proof.
  induction items as [|[k v] items IH]; intros m key Hk; [done|].
  apply not_elem_of_cons in Hk as [Hne Hk]. simpl in *.
  rewrite IH by done. by rewrite lookup_insert_ne.
Qed.

Lemma py_dict_head {V} key (value : V) items :
  key ∉ items.*1 → py_dict ((key, value) :: items) !! key = Some value.
Proof.
  intros Hk. unfold py_dict. simpl. rewrite fold_insert_other by done.
  by rewrite lookup_insert_eq.
Qed.

Lemma matrix_keys_dom conf key :
  key ∈ matrix_keys conf ↔ is_Some (conf_matrix conf !! key).
Proof.
  unfold matrix_keys. rewrite merge_sort_Permutation.
  rewrite list_elem_of_fmap. split.
  - intros ([k v] & -> & H%elem_of_map_to_list). eauto.
  - intros [v H]. exists (key, v). split; [done|]. by apply elem_of_map_to_list.
Qed.

Section MatrixMore.

Variable host : host_info.

Lemma accepted_no_exclude environment_type conf all_keys c :
  conf_exclude conf = [] → str_truthy environment_type = true →
  accepted host environment_type conf all_keys c = true.
Proof.
  intros He Ht. unfold accepted, combination_target. by rewrite Ht, He.
Qed.

Lemma expand_python_no_exclude environment_type conf explicit_selection python :
  conf_exclude conf = [] → str_truthy environment_type = true →
  expand_python host environment_type conf explicit_selection python
  = combination_requirements ("python" :: matrix_keys conf)
      <$> product ([Some python] :: matrix_values conf).
Proof.
  intros He Ht. unfold expand_python.
  rewrite filter_all
    by (apply Forall_forall; intros c _; by apply accepted_no_exclude).
  rewrite bool_decide_eq_false_2; [by rewrite app_nil_r|].
  intros E. apply (f_equal length) in E. rewrite product_length in E. simpl in E.
  pose proof (matrix_size_pos conf). unfold matrix_size in *. lia.
Qed.

(** X10: without exclude rules and with the environment type given,
    every combination of the matrix is yielded for every Python, in the
    order of the product: as many requirement sets as there are Pythons
    times the sizes of the axes, an axis without values counting for one;
    nothing is raised. *)
Theorem matrix_without_excludes environment_type pythons conf explicit_selection :
  conf_exclude conf = [] →
  str_truthy environment_type = true →
  explicit_selection = true ∨ conf_include conf = [] →
  iter_requirement_matrix host environment_type pythons conf explicit_selection
  = Expansion
      (pythons ≫= λ python,
         combination_requirements ("python" :: matrix_keys conf)
           <$> product ([Some python] :: matrix_values conf))
      None
  ∧ length (yielded (iter_requirement_matrix host environment_type pythons conf
                       explicit_selection))
    = length pythons * matrix_size conf.
Proof.
  intros He Ht Hi.
  assert (E : iter_requirement_matrix host environment_type pythons conf explicit_selection
              = Expansion
                  (pythons ≫= λ python,
                     combination_requirements ("python" :: matrix_keys conf)
                       <$> product ([Some python] :: matrix_values conf))
                  None).
  { unfold iter_requirement_matrix.
    assert (pythons ≫= expand_python host environment_type conf explicit_selection
            = pythons ≫= λ python,
                combination_requirements ("python" :: matrix_keys conf)
                  <$> product ([Some python] :: matrix_values conf)) as ->.
    { induction pythons as [|python pythons IH]; [done|].
      rewrite !bind_cons, IH. by rewrite expand_python_no_exclude. }
    destruct explicit_selection; [done|].
    destruct Hi as [Hi| ->]; [done|]. simpl. by rewrite app_nil_r. }
  split; [done|]. rewrite E. cbn [yielded].
  apply bind_length_const. intros python.
  rewrite length_fmap, product_length. simpl. unfold matrix_size. lia.
Qed.

Lemma expand_python_has_python environment_type conf explicit_selection python d :
  conf_matrix conf !! "python" = None →
  d ∈ expand_python host environment_type conf explicit_selection python →
  d !! "python" = Some python.
Proof.
  intros Hm. unfold expand_python.
  intros [Hd|Hd]%elem_of_app.
  - apply list_elem_of_fmap in Hd as (c & -> & Hc).
    apply list_elem_of_filter in Hc as [_ Hc].
    apply product_head in Hc as (rest & -> & _).
    unfold combination_requirements, py_zip. simpl.
    apply py_dict_head.
    intros ([k v] & Ek & Hin)%list_elem_of_fmap.
    apply list_elem_of_omap in Hin as ([k' v'] & Hin & Hv). simpl in *.
    destruct v' as [v'|]; simplify_eq/=.
    apply elem_of_zip_l in Hin. apply matrix_keys_dom in Hin as [? ?]. congruence.
  - destruct (_ && _); [|by apply elem_of_nil in Hd].
    apply list_elem_of_singleton in Hd as ->. by rewrite lookup_singleton_eq.
Qed.

(** X11: when the matrix has no axis named [python], every requirement set
    that comes from the matrix gives, under the key [python], one of the
    versions asked for. *)
Theorem matrix_yields_python environment_type pythons conf d :
  conf_matrix conf !! "python" = None →
  d ∈ yielded (iter_requirement_matrix host environment_type pythons conf true) →
  ∃ python, python ∈ pythons ∧ d !! "python" = Some python.
Proof.
  intros Hm. simpl. intros (python & Hd & Hp)%list_elem_of_bind.
  exists python. split; [done|]. by eapply expand_python_has_python.
Qed.

(** X12: the include rules are processed up to the first that lacks
    [python]: what the rules before it give is yielded, the [UserError]
    is for that rule, and the rules after it are not looked at. *)
Theorem includes_stop_at_first_without_python environment_type conf good bad rest :
  Forall has_python good →
  inc_items bad !! "python" = None →
  process_includes host environment_type conf (good ++ bad :: rest)
  = Expansion (yielded (process_includes host environment_type conf good)) (Some bad)
  ∧ raised (process_includes host environment_type conf good) = None.
Proof.
  intros Hgood Hbad. induction Hgood as [|inc good [python Hp] _ [IH1 IH2]]; simpl.
  - by rewrite Hbad.
  - rewrite Hp, IH1. simpl.
    destruct (if str_truthy environment_type then _ else _) as [tgt|]; [|done].
    destruct (match_rule tgt (inc_platform inc)); simpl; by rewrite ?IH2.
Qed.

End MatrixMore.

Lemma matrix_without_excludes_witness :
  conf_exclude two_axes = []
  ∧ str_truthy "virtualenv" = true
  ∧ length (yielded (iter_requirement_matrix linux_host "virtualenv" ["3.8"; "3.9"]
                       two_axes false)) = 4.
Proof.
  split; [reflexivity|]. split; [reflexivity|].
  destruct (matrix_without_excludes linux_host "virtualenv" ["3.8"; "3.9"] two_axes false)
    as [_ H]; [reflexivity|reflexivity|right; reflexivity|].
  rewrite H. vm_compute. reflexivity.
Defined.

Lemma matrix_yields_python_witness :
  conf_matrix two_axes !! "python" = None
  ∧ ({[ "python" := "3.9"; "numpy" := "1.8"; "six" := "" ]} : gmap string string)
    ∈ yielded (iter_requirement_matrix linux_host "virtualenv" ["3.9"] two_axes true)
  ∧ ∃ python,
      python ∈ ["3.9"]
      ∧ ({[ "python" := "3.9"; "numpy" := "1.8"; "six" := "" ]} : gmap string string)
          !! "python" = Some python.
Proof.
  assert (H : conf_matrix two_axes !! "python" = None) by (vm_compute; reflexivity).
  assert (Hd : ({[ "python" := "3.9"; "numpy" := "1.8"; "six" := "" ]} : gmap string string)
               ∈ yielded (iter_requirement_matrix linux_host "virtualenv" ["3.9"]
                            two_axes true)).
  { assert (E : yielded (iter_requirement_matrix linux_host "virtualenv" ["3.9"]
                           two_axes true)
                = [ {[ "python" := "3.9"; "numpy" := "1.8"; "six" := "" ]};
                    {[ "python" := "3.9"; "numpy" := "1.9"; "six" := "" ]} ])
      by (vm_compute; reflexivity).
    rewrite E. left. }
  split; [exact H|]. split; [exact Hd|].
  exact (matrix_yields_python linux_host "virtualenv" ["3.9"] two_axes _ H Hd).
Defined.

Lemma includes_stop_at_first_without_python_witness :
  Forall has_python [Include {[ "python" := Some "2.7" ]} ∅]
  ∧ raised (process_includes linux_host "virtualenv" two_axes
              ([Include {[ "python" := Some "2.7" ]} ∅] ++ Include ∅ ∅ :: []))
    = Some (Include ∅ ∅).
Proof.
  assert (H : Forall has_python [Include {[ "python" := Some "2.7" ]} ∅]).
  { repeat constructor. unfold has_python. simpl. rewrite lookup_singleton_eq. eauto. }
  split; [exact H|].
  destruct (includes_stop_at_first_without_python linux_host "virtualenv" two_axes
              [Include {[ "python" := Some "2.7" ]} ∅] (Include ∅ ∅) [] H) as [E _].
  - apply lookup_empty.
  - rewrite E. reflexivity.
Defined.

Lemma product_Forall2 {A} (ls : list (list A)) c :
  c ∈ product ls → Forall2 (λ x l, x ∈ l) c ls.
Proof.
  revert c. induction ls as [|l ls IH]; intros c; simpl.
  - intros ->%list_elem_of_singleton. constructor.
  - intros (x & Hc & Hx)%list_elem_of_bind.
    apply list_elem_of_fmap in Hc as (c' & -> & Hc'). constructor; auto.
Qed.

Lemma matrix_values_keys conf :
  Forall2 (λ key values, ∃ mv, conf_matrix conf !! key = Some mv
                               ∧ values = normalize_value mv)
          (matrix_keys conf) (matrix_values conf).
Proof.
  unfold matrix_values.
  assert (H : Forall (λ key, is_Some (conf_matrix conf !! key)) (matrix_keys conf)).
  { apply Forall_forall. intros key. apply matrix_keys_dom. }
  induction H as [|key keys [mv Hk] _ IH]; simpl; [constructor|].
  rewrite Hk. simpl. constructor; eauto.
Qed.

Lemma fold_insert_lookup_Some {V} (items : list (string * V)) :
  ∀ (m : gmap string V) key value,
    fold_left (λ m kv, <[kv.1 := kv.2]> m) items m !! key = Some value →
    (key, value) ∈ items ∨ m !! key = Some value.
Proof.
  induction items as [|[k v] items IH]; intros m key value; simpl; [auto|].
  intros [Hin|Hm]%IH.
  - left. by right.
  - apply lookup_insert_Some in Hm as [[-> ->]|[_ Hm]]; [left; by left|by right].
Qed.

Section MatrixVersions.

Variable host : host_info.

(** X29: a requirement of a set that comes from the matrix has one of the
    versions the matrix lists for it, the empty string when it lists
    none; a version [None] leaves the requirement out. *)
Theorem matrix_yields_listed_versions environment_type conf explicit_selection
    python d key value :
  d ∈ expand_python host environment_type conf explicit_selection python →
  key ≠ "python" →
  d !! key = Some value →
  ∃ mv, conf_matrix conf !! key = Some mv ∧ Some value ∈ normalize_value mv.
Proof.
  unfold expand_python. intros [Hd|Hd]%elem_of_app Hk Hv.
  - apply list_elem_of_fmap in Hd as (c & -> & Hc).
    apply list_elem_of_filter in Hc as [_ Hc].
    apply product_head in Hc as (rest & -> & Hrest).
    apply product_Forall2 in Hrest.
    unfold combination_requirements, py_zip, py_dict in Hv. simpl in Hv.
    apply fold_insert_lookup_Some in Hv as [Hin|Hv]; cycle 1.
    { rewrite lookup_insert_ne in Hv by done. by rewrite lookup_empty in Hv. }
    apply list_elem_of_omap in Hin as ([k x] & Hin & Hx). simpl in Hx.
    destruct x as [x|]; simplify_eq/=.
    apply list_elem_of_lookup in Hin as [i Hi].
    apply lookup_zip_with_Some in Hi as (k' & x' & [= <- <-] & Hki & Hxi).
    pose proof (matrix_values_keys conf) as Hkv.
    destruct (Forall2_lookup_l _ _ _ _ _ Hkv Hki) as (values & Hvi & mv & Hm & ->).
    destruct (Forall2_lookup_r _ _ _ _ _ Hrest Hvi) as (x'' & Hxi' & Hin).
    exists mv. split; [done|]. by simplify_eq.
  - destruct (_ && _); [|by apply elem_of_nil in Hd].
    apply list_elem_of_singleton in Hd as ->.
    by rewrite lookup_singleton_ne in Hv.
Qed.

End MatrixVersions.

Lemma matrix_yields_listed_versions_witness :
  ({[ "python" := "3.9"; "numpy" := "1.8"; "six" := "" ]} : gmap string string)
    ∈ expand_python linux_host "virtualenv" two_axes true "3.9"
  ∧ ∃ mv, conf_matrix two_axes !! "six" = Some mv ∧ Some "" ∈ normalize_value mv.
Proof.
  assert (Hd : ({[ "python" := "3.9"; "numpy" := "1.8"; "six" := "" ]} : gmap string string)
               ∈ expand_python linux_host "virtualenv" two_axes true "3.9").
  { assert (E : expand_python linux_host "virtualenv" two_axes true "3.9"
                = [ {[ "python" := "3.9"; "numpy" := "1.8"; "six" := "" ]};
                    {[ "python" := "3.9"; "numpy" := "1.9"; "six" := "" ]} ])
      by (vm_compute; reflexivity).
    rewrite E. left. }
  split; [exact Hd|].
  apply (matrix_yields_listed_versions linux_host "virtualenv" two_axes true "3.9" _
           "six" "" Hd).
  - discriminate.
  - vm_compute. reflexivity.
Defined.

(** ** Selection of environments *)
Lemma str_partition_app sep before after :
  sep ∉ list_ascii_of_string before →
  str_partition sep (before +:+ String sep after) = Some (before, after).
Proof.
  induction before as [|c before IH]; simpl; intros Hs.
  - by rewrite decide_True.
  - apply not_elem_of_cons in Hs as [Hc Hs].
    rewrite decide_False by done. by rewrite IH.
Qed.

Lemma str_partition_None sep s :
  str_partition sep s = None ↔ sep ∉ list_ascii_of_string s.
Proof.
  induction s as [|c s IH]; simpl.
  - split; [intros _; apply not_elem_of_nil|done].
  - rewrite not_elem_of_cons. case_decide as E.
    + split; [done|]. intros [? _]. congruence.
    + destruct (str_partition sep s) as [[b a]|]; simpl.
      * split; [done|]. intros [_ H]. by apply IH in H.
      * split; [|done]. intros _. split; [congruence|]. by apply IH.
Qed.

Section SelectionFacts.

Variable host : host_info.
Variable Env : Type.
Variable name_of : Env → string.
Variable construct : env_class → string → gmap string string → option Env.

#[local] Abbreviation make_environments := (make_environments host Env construct).
#[local] Abbreviation select_spec := (select_spec host Env name_of construct).
#[local] Abbreviation select_all := (select_all host Env name_of construct).
#[local] Abbreviation get_environments := (get_environments host Env name_of construct).

Lemma make_environments_ok env_type conf requirements_iter :
  Forall (λ d : gmap string string, is_Some (d !! "python")) requirements_iter →
  failed (make_environments env_type conf requirements_iter) = None.
Proof.
  induction 1 as [|d l [python Hd] _ IH]; simpl; [done|].
  rewrite Hd. by destruct (_ ≫= _).
Qed.

Lemma make_environments_unavailable env_type conf requirements_iter :
  str_truthy env_type = true →
  get_environment_class_by_name host env_type = None →
  selected (make_environments env_type conf requirements_iter) = [].
Proof.
  intros Ht Hc. induction requirements_iter as [|d l IH]; simpl; [done|].
  destruct (d !! "python"); [|done]. by rewrite Ht, Hc.
Qed.

Lemma find_name_none env_spec (all : list Env) :
  Forall (λ env, name_of env ≠ env_spec) all →
  List.find (λ env, bool_decide (env_spec = name_of env)) all = None.
Proof.
  induction 1 as [|env all Hn _ IH]; simpl; [done|].
  by rewrite bool_decide_eq_false_2.
Qed.

Lemma select_spec_named conf conf_pythons all env_spec :
  (∃ env, select_spec conf conf_pythons all env_spec = Selection [env] None)
  ∨ Forall (λ env, name_of env ≠ env_spec) all.
Proof.
  unfold select_spec.
  destruct (List.find _ all) as [env|] eqn:E; [eauto|]. right.
  apply find_none_Forall in E. eapply Forall_impl; [exact E|].
  intros env H. simpl in H. by apply bool_decide_eq_false in H.
Qed.

Lemma select_all_app conf conf_pythons all specs1 specs2 :
  select_all conf conf_pythons all (specs1 ++ specs2)
  = match failed (select_all conf conf_pythons all specs1) with
    | Some _ => select_all conf conf_pythons all specs1
    | None =>
        Selection
          (selected (select_all conf conf_pythons all specs1)
             ++ selected (select_all conf conf_pythons all specs2))
          (failed (select_all conf conf_pythons all specs2))
    end.
Proof.
  induction specs1 as [|spec specs1 IH]; simpl.
  - by destruct (select_all _ _ _ specs2).
  - destruct (failed (select_spec conf conf_pythons all spec)) eqn:E1; [by rewrite E1|].
    rewrite IH. destruct (failed (select_all conf conf_pythons all specs1)) eqn:E2; simpl.
    + by rewrite E2.
    + by rewrite (assoc_L (++)).
Qed.


Lemma make_environments_key_error env_type conf good d rest :
  Forall (λ d : gmap string string, is_Some (d !! "python")) good →
  d !! "python" = None →
  failed (make_environments env_type conf (good ++ d :: rest)) = Some KeyError.
Proof.
  intros Hgood Hd. induction Hgood as [|d' l [python Hd'] _ IH]; simpl.
  - by rewrite Hd.
  - rewrite Hd'. by destruct (_ ≫= _).
Qed.

Lemma select_all_one conf conf_pythons all env_spec :
  select_all conf conf_pythons all [env_spec]
  = select_spec conf conf_pythons all env_spec.
Proof.
  simpl. destruct (select_spec conf conf_pythons all env_spec) as [envs [e|]]; simpl; [done|].
  by rewrite app_nil_r.
Qed.

Lemma get_environments_one conf conf_pythons env_spec :
  failed (get_environments conf conf_pythons []) = None →
  get_environments conf conf_pythons [env_spec]
  = select_spec conf conf_pythons (selected (get_environments conf conf_pythons [])) env_spec.
Proof.
  unfold get_environments. intros ->. apply select_all_one.
Qed.

Lemma get_environments_defaults_failed conf conf_pythons spec specs e :
  failed (get_environments conf conf_pythons []) = Some e →
  get_environments conf conf_pythons (spec :: specs) = Selection [] (Some e).
Proof. unfold get_environments. by intros ->. Qed.

Lemma select_spec_explicit conf conf_pythons all env_spec env_type python_spec :
  Forall (λ env, name_of env ≠ env_spec) all →
  str_partition ":" env_spec = Some (env_type, python_spec) →
  select_spec conf conf_pythons all env_spec
  = make_environments env_type conf
      (if decide (env_type ≠ "existing")
       then expand_python host env_type conf true python_spec
       else [ {[ "python" := python_spec ]} ]).
Proof.
  intros Hall Hp. unfold select_spec. rewrite find_name_none by done.
  assert (str_truthy env_spec = true) as -> by (by destruct env_spec).
  rewrite Hp. case_decide; simpl; rewrite ?app_nil_r.
  all: match goal with
       | |- context [failed ?out] => by destruct out as [envs [e|]]
       end.
Qed.

Lemma select_spec_plain conf conf_pythons all env_spec :
  Forall (λ env, name_of env ≠ env_spec) all →
  str_partition ":" env_spec = None →
  env_spec ≠ "existing" →
  select_spec conf conf_pythons all env_spec
  = let requirements_iter :=
      iter_requirement_matrix host env_spec conf_pythons conf false in
    let out := make_environments env_spec conf (yielded requirements_iter) in
    match failed out with
    | Some _ => out
    | None => Selection (selected out) (IncludeError <$> raised requirements_iter)
    end.
Proof.
  intros Hall Hp He. unfold select_spec. rewrite find_name_none by done.
  rewrite Hp. destruct (str_truthy env_spec); rewrite !decide_False by done;
    by rewrite decide_True.
Qed.

(** X13: the specifiers are resolved one after the other and what they give
    is yielded in their order; the first that raises ends the iteration
    and keeps what was yielded before. *)
Theorem get_environments_app conf conf_pythons specs1 specs2 :
  specs1 ≠ [] → specs2 ≠ [] →
  get_environments conf conf_pythons (specs1 ++ specs2)
  = match failed (get_environments conf conf_pythons specs1) with
    | Some _ => get_environments conf conf_pythons specs1
    | None =>
        Selection
          (selected (get_environments conf conf_pythons specs1)
             ++ selected (get_environments conf conf_pythons specs2))
          (failed (get_environments conf conf_pythons specs2))
    end.
Proof.
  intros H1 H2. destruct specs1 as [|spec1 specs1]; [done|].
  destruct specs2 as [|spec2 specs2]; [done|].
  unfold get_environments. rewrite <- app_comm_cons.
  destruct (failed (select_all conf conf_pythons [] _)) as [e|]; [done|].
  rewrite app_comm_cons. apply select_all_app.
Qed.

(** X15: a specifier that is the name of an environment of the
    configuration gives that environment, the first with the name, and
    nothing else. *)
Theorem get_environments_by_name conf conf_pythons before env after :
  get_environments conf conf_pythons [] = Selection (before ++ env :: after) None →
  Forall (λ env', name_of env' ≠ name_of env) before →
  get_environments conf conf_pythons [name_of env] = Selection [env] None.
Proof.
  intros Hd Hb. rewrite get_environments_one by (by rewrite Hd).
  rewrite Hd. unfold select_spec. simpl.
  rewrite find_app_false.
  - simpl. by rewrite bool_decide_eq_true_2.
  - eapply Forall_impl; [exact Hb|]. intros env' Hn. simpl.
    by rewrite bool_decide_eq_false_2.
Qed.

(** X16: the specifier [existing] ignores the matrix: it gives the one
    environment that the class named [existing] makes for the Python
    [same] with no requirements, or nothing when there is no such class or
    it is unavailable. *)
Theorem get_environments_existing conf conf_pythons :
  failed (get_environments conf conf_pythons []) = None →
  Forall (λ env, name_of env ≠ "existing")
         (selected (get_environments conf conf_pythons [])) →
  get_environments conf conf_pythons ["existing"]
  = Selection
      (option_list (get_environment_class_by_name host "existing"
                      ≫= λ cls, construct cls "same" ∅))
      None.
Proof.
  intros Hd Hn. rewrite get_environments_one by done.
  unfold select_spec. rewrite find_name_none by done. simpl.
  rewrite lookup_singleton_eq, delete_singleton_eq.
  by destruct (_ ≫= _).
Qed.

(** X17: a specifier [type:python] raises nothing of its own when the
    matrix has no axis named [python]: the include rules are not looked at
    and every requirement set names its Python. *)
Theorem explicit_specifier_never_raises conf conf_pythons env_spec :
  conf_matrix conf !! "python" = None →
  is_Some (str_partition ":" env_spec) →
  failed (get_environments conf conf_pythons [env_spec])
  = failed (get_environments conf conf_pythons []).
Proof.
  intros Hm [[env_type python_spec] Hp].
  destruct (failed (get_environments conf conf_pythons [])) as [e|] eqn:Hd.
  { by erewrite get_environments_defaults_failed. }
  rewrite get_environments_one by done.
  destruct (select_spec_named conf conf_pythons
              (selected (get_environments conf conf_pythons [])) env_spec)
    as [[env ->]|Hn]; [done|].
  rewrite (select_spec_explicit _ _ _ _ _ _ Hn Hp).
  apply make_environments_ok. case_decide.
  - apply Forall_forall. intros d Hd'. eexists. by eapply expand_python_has_python.
  - repeat constructor. by rewrite lookup_singleton_eq.
Qed.

(** X18: an environment type that no class has yields no environment:
    [EnvironmentUnavailable] does not leave the iteration. *)
Theorem unknown_type_selects_nothing conf conf_pythons env_spec :
  str_truthy env_spec = true →
  str_partition ":" env_spec = None →
  get_environment_class_by_name host env_spec = None →
  failed (get_environments conf conf_pythons []) = None →
  Forall (λ env, name_of env ≠ env_spec)
         (selected (get_environments conf conf_pythons [])) →
  selected (get_environments conf conf_pythons [env_spec]) = [].
Proof.
  intros Ht Hp Hc Hd Hn. rewrite get_environments_one by done.
  destruct (decide (env_spec = "existing")) as [->|He].
  - unfold select_spec. rewrite find_name_none by done. simpl.
    rewrite lookup_singleton_eq, Hc. done.
  - rewrite select_spec_plain by done. cbv zeta.
    pose proof (make_environments_unavailable env_spec conf
                  (yielded (iter_requirement_matrix host env_spec conf_pythons conf false))
                  Ht Hc) as H.
    by destruct (failed (make_environments _ _ _)).
Qed.

(** X19: an include rule whose [python] is [None] passes the check for the
    key and loses it when the empty keys are pruned; the iteration then
    raises [KeyError], after the environments of the matrix. *)
Theorem include_with_null_python_raises conf conf_pythons include rest :
  str_truthy (conf_environment_type conf) = true →
  str_partition ":" (conf_environment_type conf) = None →
  conf_environment_type conf ≠ "existing" →
  conf_matrix conf !! "python" = None →
  conf_include conf = include :: rest →
  inc_items include !! "python" = Some None →
  inc_platform include = ∅ →
  get_environments conf conf_pythons []
  = Selection
      (selected (make_environments (conf_environment_type conf) conf
                   (conf_pythons ≫= expand_python host (conf_environment_type conf) conf false)))
      (Some KeyError).
Proof.
  intros Ht Hp He Hm Hi Hpy Hpl.
  unfold get_environments. rewrite select_all_one.
  rewrite select_spec_plain by (done || constructor). cbv zeta.
  unfold iter_requirement_matrix. cbn [yielded raised]. rewrite Hi.
  cbn [process_includes]. rewrite Hpy, Ht, Hpl, match_rule_empty. cbn [yielded raised].
  set (matrix := conf_pythons ≫= expand_python host (conf_environment_type conf) conf false).
  set (bad := omap id (inc_items include)).
  set (more := yielded (process_includes host (conf_environment_type conf) conf rest)).
  assert (Hgood : Forall (λ d : gmap string string, is_Some (d !! "python")) matrix).
  { apply Forall_forall. intros d (python & Hd & _)%list_elem_of_bind.
    eexists. by eapply expand_python_has_python. }
  assert (Hbad : bad !! "python" = None).
  { unfold bad. by rewrite lookup_omap, Hpy. }
  rewrite (make_environments_key_error _ _ _ _ _ Hgood Hbad).
  clear Hi. induction Hgood as [|d l [python Hd] _ IH]; simpl.
  - by rewrite Hbad.
  - rewrite Hd. destruct (_ ≫= _); simpl; by rewrite IH.
Qed.

End SelectionFacts.

Lemma get_environments_app_witness :
  ["virtualenv"] ≠ [] ∧ ["conda"] ≠ []
  ∧ selected (get_environments three_classes sample_env sample_name sample_construct
                two_axes ["3.9"] (["virtualenv"] ++ ["conda"]))
    = selected (get_environments three_classes sample_env sample_name sample_construct
                  two_axes ["3.9"] ["virtualenv"])
      ++ selected (get_environments three_classes sample_env sample_name sample_construct
                     two_axes ["3.9"] ["conda"]).
Proof.
  assert (H1 : ["virtualenv"] ≠ ([] : list string)) by discriminate.
  assert (H2 : ["conda"] ≠ ([] : list string)) by discriminate.
  split; [exact H1|]. split; [exact H2|].
  rewrite (get_environments_app three_classes sample_env sample_name sample_construct
             two_axes ["3.9"] ["virtualenv"] ["conda"] H1 H2).
  assert (E : failed (get_environments three_classes sample_env sample_name sample_construct
                        two_axes ["3.9"] ["virtualenv"]) = None)
    by (vm_compute; reflexivity).
  rewrite E. reflexivity.
Defined.

Lemma get_environments_by_name_witness :
  get_environments three_classes sample_env sample_name sample_construct two_axes ["3.9"]
    ["virtualenv-py3.9-numpy1.9-six"]
  = Selection
      [SampleEnv "virtualenv" "3.9" {[ "numpy" := "1.9"; "six" := "" ]}] None.
Proof.
  replace "virtualenv-py3.9-numpy1.9-six"
    with (sample_name (SampleEnv "virtualenv" "3.9" {[ "numpy" := "1.9"; "six" := "" ]}))
    by (vm_compute; reflexivity).
  apply (get_environments_by_name three_classes sample_env sample_name sample_construct
           two_axes ["3.9"]
           [SampleEnv "virtualenv" "3.9" {[ "numpy" := "1.8"; "six" := "" ]}]
           (SampleEnv "virtualenv" "3.9" {[ "numpy" := "1.9"; "six" := "" ]})
           []).
  - vm_compute. reflexivity.
  - repeat constructor. vm_compute. discriminate.
Defined.

Lemma get_environments_existing_witness :
  get_environments three_classes sample_env sample_name sample_construct two_axes ["3.9"]
    ["existing"]
  = Selection [SampleEnv "existing" "same" ∅] None.
Proof.
  apply (get_environments_existing three_classes sample_env sample_name sample_construct
           two_axes ["3.9"]).
  - vm_compute. reflexivity.
  - assert (E : selected (get_environments three_classes sample_env sample_name
                            sample_construct two_axes ["3.9"] [])
                = [SampleEnv "virtualenv" "3.9" {[ "numpy" := "1.8"; "six" := "" ]};
                   SampleEnv "virtualenv" "3.9" {[ "numpy" := "1.9"; "six" := "" ]}])
      by (vm_compute; reflexivity).
    rewrite E. repeat constructor; vm_compute; discriminate.
Defined.

Lemma explicit_specifier_never_raises_witness :
  conf_matrix two_axes !! "python" = None
  ∧ is_Some (str_partition ":" "virtualenv:2.7")
  ∧ failed (get_environments three_classes sample_env sample_name sample_construct
              two_axes ["3.9"] ["virtualenv:2.7"])
    = None.
Proof.
  assert (H1 : conf_matrix two_axes !! "python" = None) by (vm_compute; reflexivity).
  assert (H2 : is_Some (str_partition ":" "virtualenv:2.7"))
    by (eexists; vm_compute; reflexivity).
  split; [exact H1|]. split; [exact H2|].
  rewrite (explicit_specifier_never_raises three_classes sample_env sample_name
             sample_construct two_axes ["3.9"] "virtualenv:2.7" H1 H2).
  vm_compute. reflexivity.
Defined.

Lemma unknown_type_selects_nothing_witness :
  get_environment_class_by_name linux_host "virtualenv" = None
  ∧ selected (get_environments linux_host sample_env sample_name sample_construct
                two_axes ["3.9"] ["virtualenv"])
    = [].
Proof.
  split; [reflexivity|].
  apply (unknown_type_selects_nothing linux_host sample_env sample_name sample_construct
           two_axes ["3.9"] "virtualenv").
  - reflexivity.
  - vm_compute. reflexivity.
  - reflexivity.
  - vm_compute. reflexivity.
  - assert (E : selected (get_environments linux_host sample_env sample_name
                            sample_construct two_axes ["3.9"] []) = [])
      by (vm_compute; reflexivity).
    rewrite E. constructor.
Defined.

Lemma include_with_null_python_raises_witness :
  inc_items (Include {[ "python" := None ]} ∅) !! "python" = Some None
  ∧ failed (get_environments three_classes sample_env sample_name sample_construct
              (with_includes two_axes [Include {[ "python" := None ]} ∅]) ["3.9"] [])
    = Some KeyError.
Proof.
  split; [apply lookup_singleton_eq|].
  rewrite (include_with_null_python_raises three_classes sample_env sample_name
             sample_construct (with_includes two_axes [Include {[ "python" := None ]} ∅])
             ["3.9"] (Include {[ "python" := None ]} ∅) []).
  - reflexivity.
  - reflexivity.
  - vm_compute. reflexivity.
  - discriminate.
  - vm_compute. reflexivity.
  - reflexivity.
  - apply lookup_singleton_eq.
  - reflexivity.
Defined.

(** ** More on the lifecycle *)
Section LifecyclePlaces.

Context {World : Type}.
Variable C : collaborators World.
Implicit Types (s : state World) (env : environment) (commit : string).

Lemma grows_refl P s : grows P s s.
Proof. exists []. by rewrite app_nil_r. Qed.

Lemma grows_trans P s1 s2 s3 : grows P s1 s2 → grows P s2 s3 → grows P s1 s3.
Proof.
  intros (t1 & T1 & F1) (t2 & T2 & F2). exists (t1 ++ t2).
  rewrite T2, T1, (assoc_L (++)). split; [done|]. by apply Forall_app.
Qed.

Lemma grows_one P e s s' : trace s' = trace s ++ [e] → P e → grows P s s'.
Proof. intros T He. exists [e]. split; [done|]. by repeat constructor. Qed.

Lemma run_all_trace env st cwd cmds s r s' :
  run_all C env st cwd cmds s = (r, s') →
  ∃ ran rest,
    cmds = ran ++ rest
    ∧ trace s' = trace s ++ ((λ cmd, EvRun st cwd cmd (_env_vars s)) <$> ran)
    ∧ match r with
      | Ok _ => rest = []
      | Raise (ProcessError cmd) => ∃ before, ran = before ++ [cmd]
      | Raise IndexError => ∃ cmd rest', rest = cmd :: rest' ∧ Util.cmd_argv cmd = []
      | Raise _ => False
      end.
Proof.
  revert s. induction cmds as [|cmd cmds IH]; intros s H; simpl in H.
  - unfold mret, M_ret in H. simplify_eq. exists [], []. simpl.
    by rewrite app_nil_r.
  - destruct (Util.cmd_argv cmd) as [|exe args] eqn:Ea.
    { unfold raise in H. simplify_eq. exists [], (cmd :: cmds). simpl.
      rewrite app_nil_r. split_and!; eauto. }
    apply bind_inv in H as [([] & s1 & H1 & H2)|(e & H1 & ->)].
    + apply run_executable_spec in H1 as [(T1 & _ & V1 & _) _].
      apply IH in H2 as (ran & rest & -> & T2 & Hr).
      exists (cmd :: ran), rest. split; [done|]. split.
      * rewrite T2, T1, V1. by rewrite <- (assoc_L (++)).
      * destruct r as [|[]]; try done. destruct Hr as [before ->]. by exists (cmd :: before).
    + apply run_executable_spec in H1 as [(T1 & _) [|[= ->]]]; [done|].
      exists [cmd], cmds. split; [done|]. split; [done|]. by exists [].
Qed.

Lemma interpolate_and_run_grows (P : event → Prop) env st cmds cwd s r s' :
  (∀ cmd vars, P (EvRun st cwd cmd vars)) →
  _interpolate_and_run_commands C env st cmds cwd s = (r, s') → grows P s s'.
Proof.
  intros HP. unfold _interpolate_and_run_commands, get_state, mbind, M_bind.
  destruct (_interpolate_commands C cmds s) as [interpolated|e].
  - intros (ran & rest & _ & T & _)%run_all_trace. eexists.
    split; [exact T|]. apply Forall_fmap, Forall_forall. intros cmd _. apply HP.
  - unfold raise. intros ?. simplify_eq. apply grows_refl.
Qed.

Lemma grows_same P s s' : trace s' = trace s → grows P s s'.
Proof. intros T. exists []. by rewrite app_nil_r. Qed.

Lemma uninstall_project_grows (P : event → Prop) env s r s' :
  P (EvStatus None) →
  (∀ cmd vars, P (EvRun Uninstall (_env_dir env) cmd vars)) →
  _uninstall_project C env s = (r, s') → grows P s s'.
Proof.
  intros HS HP H. unfold _uninstall_project in H.
  apply bind_inv in H as [([] & s1 & H1 & H)|(e & H1 & ->)];
    rewrite set_installed_commit_hash_spec in H1; simplify_eq.
  match type of H with
  | _ ?st = _ => apply (grows_trans P s st s'); [by apply (grows_one P (EvStatus None))|]
  end.
  revert H. case_match.
  - by apply interpolate_and_run_grows.
  - intros [= <- <-]. apply grows_refl.
Qed.

Lemma build_project_grows (P : event → Prop) env build_dir s r s' :
  (∀ cmd vars, P (EvRun Build build_dir cmd vars)) →
  _build_project C env build_dir s = (r, s') → grows P s s'.
Proof.
  intros HP. unfold _build_project. case_match.
  - by apply interpolate_and_run_grows.
  - intros [= <- <-]. apply grows_refl.
Qed.

Lemma install_project_grows (P : event → Prop) env build_dir s r s' :
  (∀ cmd vars, P (EvRun Install build_dir cmd vars)) →
  _install_project C env build_dir s = (r, s') → grows P s s'.
Proof.
  intros HP. unfold _install_project. case_match.
  - by apply interpolate_and_run_grows.
  - intros [= <- <-]. apply grows_refl.
Qed.

Lemma cache_step_grows (P : event → Prop) env commit s r s' :
  P (EvCacheCreate commit) →
  (∀ cmd vars, P (EvRun Build (build_dir_of env) cmd vars)) →
  match get_cache_dir C commit (world s) with
  | Some cache_dir => _set_build_dirs (Some (build_dir_of env)) (Some cache_dir)
  | None =>
      cache_dir ← cache_create_cache_dir C commit;
      _set_build_dirs (Some (build_dir_of env)) (Some cache_dir);;
      _build_project C env (build_dir_of env)
  end s = (r, s') →
  grows P s s'.
Proof.
  intros HC HP H. destruct (get_cache_dir C commit (world s)) as [dir|].
  - rewrite set_build_dirs_spec in H. simplify_eq. by apply grows_same.
  - apply bind_inv in H as [(dir & s1 & H1 & H)|(e & H1 & ->)];
      unfold cache_create_cache_dir, emit, call_world, mbind, M_bind in H1;
      simpl in H1; destruct (create_cache_dir _ _ _) as [dir' w1]; simplify_eq.
    match type of H with
    | _ ?st = _ =>
        apply (grows_trans P s st s'); [by apply (grows_one P (EvCacheCreate commit))|]
    end.
    apply bind_inv in H as [([] & s2 & H2 & H)|(e & H2 & ->)];
      rewrite set_build_dirs_spec in H2; simplify_eq.
    eapply grows_trans; [|by eapply build_project_grows]. by apply grows_same.
Qed.

Lemma install_project_work_places env commit s r s' :
  install_project_work C env commit s = (r, s') →
  grows (event_in_place env commit) s s'.
Proof.
  unfold install_project_work. intros H.
  assert (G1 : ∀ r1 s1, checkout_project C env commit s = (r1, s1) → grows (event_in_place env commit) s s1).
  { intros r1 s1 H1. apply checkout_project_spec in H1 as [[w ->] _].
    by eapply grows_one. }
  apply bind_inv in H as [([] & s1 & H1 & H)|(e & H1 & ->)]; [|by eapply G1].
  apply G1 in H1. eapply grows_trans; [exact H1|]. clear G1 H1.
  apply bind_inv in H as [([] & s2 & H2 & H)|(e & H2 & ->)];
    rewrite set_build_dirs_spec in H2; simplify_eq.
  eapply grows_trans; [by apply grows_same|].
  apply bind_inv in H as [([] & s3 & H3 & H)|(e & H3 & ->)];
    (eapply (uninstall_project_grows (event_in_place env commit)) in H3; [|by left|done]); [|done].
  eapply grows_trans; [exact H3|]. clear H3.
  apply bind_inv in H as [(cache_dir & s4 & H4 & H)|(e & H4 & ->)]; [|done].
  unfold cache_get_cache_dir, get_state, mbind, M_bind, mret, M_ret in H4. simplify_eq.
  apply bind_inv in H as [([] & s5 & H5 & H)|(e & H5 & ->)];
    (eapply (cache_step_grows (event_in_place env commit)) in H5; [|done..]); [|done].
  eapply grows_trans; [exact H5|]. clear H5.
  apply bind_inv in H as [([] & s6 & H6 & H)|(e & H6 & ->)];
    (eapply (install_project_grows (event_in_place env commit)) in H6; [|done]); [|done].
  eapply grows_trans; [exact H6|]. clear H6.
  apply bind_inv in H as [([] & s7 & H7 & H)|(e & H7 & ->)];
    unfold cache_finalize_cache_dir, emit, call_world, mbind, M_bind in H7;
    simpl in H7; simplify_eq.
  rewrite set_installed_commit_hash_spec in H. simplify_eq.
  exists [EvCacheFinalize commit; EvStatus (Some commit)]. simpl.
  split; [by rewrite <- (assoc_L (++))|].
  constructor; [done|]. constructor; [by right|constructor].
Qed.

(** X27: every command of a call of [install_project] runs in its place:
    the uninstall commands in the directory of the environments, the build
    and the install commands in the build directory, which is the
    directory of the project in the checkout when [repo_subdir] is set;
    the checkout, the cache and the status are for the requested revision
    only. *)
Theorem install_project_places env commit s r s' :
  install_project C env commit s = (r, s') →
  ∃ t, trace s' = trace s ++ t ∧ Forall (event_in_place env commit) t.
Proof.
  destruct (decide (_get_installed_commit_hash env s = Some commit)) as [I|N].
  - rewrite install_project_noop by done. intros [= <- <-]. by apply grows_same.
  - rewrite install_project_has_work by done. apply install_project_work_places.
Qed.

End LifecyclePlaces.

Lemma install_project_places_witness :
  Forall (event_in_place default_env "r1")
         (trace (install_project sim default_env "r1" (fresh_state fresh_world)).2).
Proof.
  destruct (install_project sim default_env "r1" (fresh_state fresh_world)) as [r s'] eqn:E.
  destruct (install_project_places sim default_env "r1" _ r s' E) as (t & T & F).
  simpl. rewrite T. exact F.
Defined.

Section LifecycleMore.

Context {World : Type}.
Variable C : collaborators World.
Implicit Types (s : state World) (env : environment) (commit : string).

(** What the calls of one install do to the variables. *)
Lemma install_project_work_vars env commit s r s' :
  install_project_work C env commit s = (r, s') →
  _env_vars s' !! "ASV_COMMIT" = Some commit
  ∧ ∀ key, key ≠ "ASV_COMMIT" → key ≠ "ASV_BUILD_DIR" → key ≠ "ASV_BUILD_CACHE_DIR" →
           _env_vars s' !! key = _env_vars s !! key.
Proof.
  unfold install_project_work. intros H.
  assert (Hframe : ∀ vars : gmap string string,
            vars !! "ASV_COMMIT" = Some commit
            ∧ (∀ key, key ≠ "ASV_COMMIT" → key ≠ "ASV_BUILD_DIR" →
                      key ≠ "ASV_BUILD_CACHE_DIR" → vars !! key = _env_vars s !! key) →
            ∀ build_dir cache_dir,
              let vars' := set_or_pop "ASV_BUILD_CACHE_DIR" cache_dir
                             (set_or_pop "ASV_BUILD_DIR" build_dir vars) in
              vars' !! "ASV_COMMIT" = Some commit
              ∧ (∀ key, key ≠ "ASV_COMMIT" → key ≠ "ASV_BUILD_DIR" →
                        key ≠ "ASV_BUILD_CACHE_DIR" → vars' !! key = _env_vars s !! key)).
  { intros vars [Hc Ho] build_dir cache_dir. simpl. split.
    - destruct build_dir, cache_dir; simpl;
        repeat first [rewrite lookup_insert_ne by done|rewrite lookup_delete_ne by done];
        done.
    - intros key ???. destruct build_dir, cache_dir; simpl;
        repeat first [rewrite lookup_insert_ne by done|rewrite lookup_delete_ne by done];
        auto. }
  assert (H0 : (<["ASV_COMMIT" := commit]> (_env_vars s)) !! "ASV_COMMIT" = Some commit
               ∧ (∀ key, key ≠ "ASV_COMMIT" → key ≠ "ASV_BUILD_DIR" →
                         key ≠ "ASV_BUILD_CACHE_DIR" →
                         (<["ASV_COMMIT" := commit]> (_env_vars s)) !! key = _env_vars s !! key)).
  { split; [by rewrite lookup_insert_eq|]. intros key ???. by rewrite lookup_insert_ne. }
  apply bind_inv in H as [([] & s1 & H1 & H)|(e & H1 & ->)]; cycle 1.
  { by apply checkout_project_spec in H1 as [[w ->] _]. }
  apply checkout_project_spec in H1 as [[w1 ->] _].
  apply bind_inv in H as [([] & s2 & H2 & H)|(e & H2 & ->)];
    rewrite set_build_dirs_spec in H2; simplify_eq. simpl in H.
  pose proof (Hframe _ H0 (Some (build_dir_of env)) None) as H1. simpl in H1.
  apply bind_inv in H as [([] & s3 & H3 & H)|(e & H3 & ->)]; cycle 1.
  { apply uninstall_project_spec in H3 as (tU & _ & _ & V & _). simpl in V. by rewrite V. }
  apply uninstall_project_spec in H3 as (tU & _ & _ & VU & _). simpl in VU.
  rewrite <- VU in H1.
  apply bind_inv in H as [(cache_dir & s4 & H4 & H)|(e & H4 & ->)]; [|done].
  unfold cache_get_cache_dir, get_state, mbind, M_bind, mret, M_ret in H4. simplify_eq.
  assert (H5 : ∀ r5 s5,
            match get_cache_dir C commit (world s4) with
            | Some cache_dir => _set_build_dirs (Some (build_dir_of env)) (Some cache_dir)
            | None =>
                cache_dir ← cache_create_cache_dir C commit;
                _set_build_dirs (Some (build_dir_of env)) (Some cache_dir);;
                _build_project C env (build_dir_of env)
            end s4 = (r5, s5) →
            _env_vars s5 !! "ASV_COMMIT" = Some commit
            ∧ (∀ key, key ≠ "ASV_COMMIT" → key ≠ "ASV_BUILD_DIR" →
                      key ≠ "ASV_BUILD_CACHE_DIR" →
                      _env_vars s5 !! key = _env_vars s !! key)).
  { intros r5 s5 H5. destruct (get_cache_dir C commit (world s4)) as [dir|].
    - rewrite set_build_dirs_spec in H5. simplify_eq. simpl.
      exact (Hframe _ H1 (Some (build_dir_of env)) (Some dir)).
    - apply bind_inv in H5 as [(dir & s6 & H6 & H5)|(e & H6 & ->)]; cycle 1.
      { unfold cache_create_cache_dir, emit, call_world, mbind, M_bind in H6.
        simpl in H6. destruct (create_cache_dir _ _ _). simplify_eq. }
      unfold cache_create_cache_dir, emit, call_world, mbind, M_bind in H6.
      simpl in H6. destruct (create_cache_dir _ _ _) as [dir' w6]. simplify_eq.
      apply bind_inv in H5 as [([] & s7 & H7 & H5)|(e & H7 & ->)];
        rewrite set_build_dirs_spec in H7; simplify_eq. simpl in H5.
      apply build_project_spec in H5 as (tB & _ & _ & VB & _). simpl in VB.
      rewrite VB. exact (Hframe _ H1 (Some (build_dir_of env)) (Some _)). }
  apply bind_inv in H as [([] & s5 & H5' & H)|(e & H5' & ->)]; [|by eapply H5].
  apply H5 in H5'.
  apply bind_inv in H as [([] & s6 & H6 & H)|(e & H6 & ->)]; cycle 1.
  { apply install_project_spec in H6 as (tI & _ & _ & VI & _). by rewrite VI. }
  apply install_project_spec in H6 as (tI & _ & _ & VI & _). rewrite <- VI in H5'.
  apply bind_inv in H as [([] & s7 & H7 & H)|(e & H7 & ->)]; [|done].
  unfold cache_finalize_cache_dir, emit, call_world, mbind, M_bind in H7.
  simpl in H7. simplify_eq.
  rewrite set_installed_commit_hash_spec in H. by simplify_eq.
Qed.

(** X20: whatever a call of [install_project] does and however it ends, it
    leaves the requested revision in [ASV_COMMIT] and changes no variable
    but that one and the two of the build. *)
Theorem install_project_variables env commit s r s' :
  install_project C env commit s = (r, s') →
  _env_vars s' !! "ASV_COMMIT" = Some commit
  ∧ ∀ key, key ≠ "ASV_COMMIT" → key ≠ "ASV_BUILD_DIR" → key ≠ "ASV_BUILD_CACHE_DIR" →
           _env_vars s' !! key = _env_vars s !! key.
Proof.
  destruct (decide (_get_installed_commit_hash env s = Some commit)) as [I|N].
  - rewrite install_project_noop by done. intros [= <- <-]. simpl. split.
    + rewrite !lookup_delete_ne by done. by rewrite lookup_insert_eq.
    + intros key ???. rewrite !lookup_delete_ne by done. by rewrite lookup_insert_ne.
  - rewrite install_project_has_work by done. apply install_project_work_vars.
Qed.

(** X21: when the checkout raises, nothing was uninstalled or run and the
    status file is as it was: the installation recorded before is still
    recorded. *)
Theorem failed_checkout_keeps_status env commit c s s' :
  install_project C env commit s = (Raise (CheckoutError c), s') →
  c = commit
  ∧ trace s' = trace s ++ [EvCheckout (_build_root env) commit]
  ∧ status_file s' = status_file s
  ∧ ∀ env', _get_installed_commit_hash env' s' = _get_installed_commit_hash env' s.
Proof.
  intros E.
  destruct (decide (_get_installed_commit_hash env s = Some commit)) as [I|N].
  { rewrite install_project_noop in E by done. simplify_eq. }
  eapply install_project_outcome in E as (t & T & O); [|done].
  inversion O as [S| | | |]; subst; try done.
  split_and!; auto. intros env'. by apply installed_hash_status.
Qed.

(** X22: what [_set_installed_commit_hash] writes is what
    [_get_installed_commit_hash] reads for the same configuration, and it
    reads as nothing installed for a configuration with another checksum;
    so does a status file that is missing or has no checksum.  Writing
    the status leaves the variables alone. *)
Theorem installed_commit_hash_round_trip env (hash : option string) s :
  let s' := (_set_installed_commit_hash env hash s).2 in
  _get_installed_commit_hash env s' = hash
  ∧ (∀ env', checksum_differs (_get_install_checksum env) env' →
             _get_installed_commit_hash env' s' = None)
  ∧ _env_vars s' = _env_vars s
  ∧ (∀ vars (w : World) t, _get_installed_commit_hash env (State vars None w t) = None)
  ∧ (∀ vars (w : World) t,
       _get_installed_commit_hash env (State vars (Some (InstallStatus hash None)) w t)
       = None).
Proof.
  rewrite set_installed_commit_hash_spec. simpl. split_and!; [| |done|done|done].
  - by eapply installed_hash_written.
  - intros env' D. by eapply installed_hash_checksum.
Qed.

(** X23: the commands of a list run in order, each with the variables
    the environment had at the start, up to the first that fails; the
    [IndexError] of a command without words comes before that command
    runs. *)
Theorem run_all_stops_at_failure env st cwd cmds s r s' :
  run_all C env st cwd cmds s = (r, s') →
  ∃ ran rest,
    cmds = ran ++ rest
    ∧ trace s' = trace s ++ ((λ cmd, EvRun st cwd cmd (_env_vars s)) <$> ran)
    ∧ match r with
      | Ok _ => rest = []
      | Raise (ProcessError cmd) => ∃ before, ran = before ++ [cmd]
      | Raise IndexError => ∃ cmd rest', rest = cmd :: rest' ∧ Util.cmd_argv cmd = []
      | Raise _ => False
      end.
Proof. apply run_all_trace. Qed.

End LifecycleMore.

Lemma install_project_variables_witness :
  _env_vars (install_project sim default_env "r1" (fresh_state fresh_world)).2
    !! "ASV_COMMIT" = Some "r1"
  ∧ _env_vars (install_project sim default_env "r1" (fresh_state fresh_world)).2
      !! "ASV_PROJECT" = Some "project".
Proof.
  destruct (install_project sim default_env "r1" (fresh_state fresh_world)) as [r s'] eqn:E.
  destruct (install_project_variables sim default_env "r1" _ r s' E) as [Hc Hf].
  split; [exact Hc|]. simpl. rewrite Hf by discriminate. vm_compute. reflexivity.
Defined.

Lemma failed_checkout_keeps_status_witness :
  (install_project broken_repo default_env "r2"
     (install_project sim default_env "r1" (fresh_state fresh_world)).2).1
  = Raise (CheckoutError "r2")
  ∧ _get_installed_commit_hash default_env
      (install_project broken_repo default_env "r2"
         (install_project sim default_env "r1" (fresh_state fresh_world)).2).2
    = Some "r1".
Proof.
  destruct (install_project broken_repo default_env "r2"
              (install_project sim default_env "r1" (fresh_state fresh_world)).2)
    as [r s'] eqn:E.
  assert (Er : r = Raise (CheckoutError "r2")).
  { change r with (r, s').1. rewrite <- E. vm_compute. reflexivity. }
  split; [exact Er|]. subst r.
  destruct (failed_checkout_keeps_status broken_repo default_env "r2" "r2" _ s' E)
    as (_ & _ & _ & H).
  simpl. rewrite H. vm_compute. reflexivity.
Defined.

Lemma run_all_stops_at_failure_witness :
  ∃ ran rest,
    [Util.Command ["python"; "-mpip"; "install"; "a.whl"] [] None;
     Util.Command ["python"; "-c"; "pass"] [] None] = ran ++ rest
    ∧ trace (run_all sim default_env Install "/env/project"
               [Util.Command ["python"; "-mpip"; "install"; "a.whl"] [] None;
                Util.Command ["python"; "-c"; "pass"] [] None]
               (fresh_state pip_install_fails)).2
      = (λ cmd, EvRun Install "/env/project" cmd
                  (_env_vars (fresh_state pip_install_fails))) <$> ran.
Proof.
  destruct (run_all sim default_env Install "/env/project"
              [Util.Command ["python"; "-mpip"; "install"; "a.whl"] [] None;
               Util.Command ["python"; "-c"; "pass"] [] None]
              (fresh_state pip_install_fails)) as [r s'] eqn:E.
  destruct (run_all_stops_at_failure sim default_env Install "/env/project" _ _ r s' E)
    as (ran & rest & Hc & Ht & _).
  exists ran, rest. split; [exact Hc|]. exact Ht.
Defined.

(** ** More on interpolation *)

(** The interpolation variable an environment variable is known by. *)
Lemma interp_key_injective key1 key2 :
  key1 ∈ known_vars → key2 ∈ known_vars → key1 ≠ "ASV" → key2 ≠ "ASV" →
  str_lower (str_drop 4 key1) = str_lower (str_drop 4 key2) → key1 = key2.
Proof.
  unfold known_vars. intros H1 H2 N1 N2.
  repeat (apply elem_of_cons in H1 as [->|H1]); [..|by apply elem_of_nil in H1];
    repeat (apply elem_of_cons in H2 as [->|H2]); try (by apply elem_of_nil in H2);
    try done; vm_compute; discriminate.
Qed.

Lemma interp_key_not_wheel key :
  key ∈ known_vars → str_lower (str_drop 4 key) ≠ "wheel_file".
Proof.
  unfold known_vars. intros H.
  repeat (apply elem_of_cons in H as [->|H]); [..|by apply elem_of_nil in H];
    vm_compute; discriminate.
Qed.

Lemma known_startswith key :
  key ∈ known_vars → key ≠ "ASV" → str_startswith key "ASV_" = true.
Proof.
  unfold known_vars. intros H N.
  repeat (apply elem_of_cons in H as [->|H]); [..|by apply elem_of_nil in H]; done.
Qed.

Lemma kwargs_of_items_lookup items :
  ∀ acc,
    Forall (λ kv, kv.1 ∈ known_vars) items → NoDup items.*1 →
    ∃ kwargs,
      kwargs_of_items items acc = Ok kwargs
      ∧ (∀ key, key ∈ known_vars → key ≠ "ASV" →
           kwargs !! str_lower (str_drop 4 key)
           = match (list_to_map items : gmap string string) !! key with
             | Some value => Some value
             | None => acc !! str_lower (str_drop 4 key)
             end)
      ∧ (∀ name, (∀ key, key ∈ items.*1 → key ≠ "ASV" → name ≠ str_lower (str_drop 4 key)) →
           kwargs !! name = acc !! name).
Proof.
  induction items as [|[key value] items IH]; intros acc Hk Hn.
  - exists acc. done.
  - apply Forall_cons in Hk as [Hkey Hk]. apply NoDup_cons in Hn as [Hnot Hn].
    simpl in Hkey, Hnot. cbn [kwargs_of_items].
    destruct (decide (key = "ASV")) as [->|Nk].
    + destruct (IH acc Hk Hn) as (kwargs & -> & Hl & Ho).
      exists kwargs. split; [done|]. split.
      * intros key Hin Hne. rewrite Hl by done. simpl.
        by rewrite lookup_insert_ne by done.
      * intros name Hname. apply Ho. intros key Hin. apply Hname. by right.
    + rewrite known_startswith by done.
      destruct (IH (<[str_lower (str_drop 4 key) := value]> acc) Hk Hn)
        as (kwargs & -> & Hl & Ho).
      exists kwargs. split; [done|]. split.
      * intros key' Hin Hne. rewrite Hl by done. simpl.
        destruct (decide (key = key')) as [<-|Nkk].
        -- rewrite lookup_insert_eq.
           rewrite (not_elem_of_list_to_map_1 _ _ Hnot). by rewrite lookup_insert_eq.
        -- rewrite (lookup_insert_ne _ key key') by done.
           destruct (list_to_map items !! key'); [done|].
           rewrite lookup_insert_ne; [done|].
           intros E. apply Nkk. by apply interp_key_injective.
      * intros name Hname. rewrite Ho.
        -- rewrite lookup_insert_ne; [done|]. intros E. eapply Hname; [by left|done|done].
        -- intros key' Hin. apply Hname. by right.
Qed.

Section InterpolationMore.

Context {World : Type}.
Variable C : collaborators World.
Implicit Types (s : state World).

(** X24: every variable of the environment but the marker [ASV] is an
    interpolation variable under its name without the prefix, in lower
    case, with the same value; there is no other interpolation variable
    but [wheel_file]. *)
Theorem interpolation_variables s :
  env_vars_wf (_env_vars s) →
  ∃ kwargs,
    interpolation_kwargs C s = Ok kwargs
    ∧ (∀ key, key ∈ known_vars → key ≠ "ASV" →
         kwargs !! str_lower (str_drop 4 key) = _env_vars s !! key)
    ∧ (∀ name, is_Some (kwargs !! name) →
         name = "wheel_file"
         ∨ ∃ key, is_Some (_env_vars s !! key) ∧ key ≠ "ASV"
                  ∧ name = str_lower (str_drop 4 key)).
Proof.
  intros Hwf.
  destruct (kwargs_of_items_lookup (map_to_list (_env_vars s)) ∅) as (kwargs & E & Hl & Ho).
  { apply Forall_forall. intros [key value] Hin%elem_of_map_to_list. apply Hwf. eauto. }
  { apply NoDup_fst_map_to_list. }
  unfold interpolation_kwargs. rewrite E.
  exists (add_wheel_file C (world s) kwargs). split; [done|].
  assert (Hadd : ∀ name, name ≠ "wheel_file" →
                         add_wheel_file C (world s) kwargs !! name = kwargs !! name).
  { intros name Hname. unfold add_wheel_file. repeat case_match; try done.
    by rewrite lookup_insert_ne. }
  split.
  - intros key Hin Hne. rewrite Hadd by (by apply interp_key_not_wheel).
    rewrite Hl by done. rewrite list_to_map_to_list, lookup_empty.
    by destruct (_env_vars s !! key).
  - intros name Hsome. destruct (decide (name = "wheel_file")) as [|Hw]; [by left|].
    right. rewrite Hadd in Hsome by done.
    destruct (decide (Exists (λ key, key ≠ "ASV" ∧ name = str_lower (str_drop 4 key))
                             (map_to_list (_env_vars s)).*1))
      as [(key & Hin & Hne & ->)%Exists_exists|Hno].
    + exists key. split; [|done].
      apply list_elem_of_fmap in Hin as ([k v] & -> & Hin%elem_of_map_to_list). eauto.
    + rewrite Ho, lookup_empty in Hsome; [by destruct Hsome|].
      intros key Hin Hne ->. apply Hno, Exists_exists. eauto.
Qed.

End InterpolationMore.

Lemma interpolation_variables_witness :
  env_vars_wf (_env_vars (fresh_state fresh_world))
  ∧ ∃ kwargs,
      interpolation_kwargs sim (fresh_state fresh_world) = Ok kwargs
      ∧ kwargs !! "project" = Some "project".
Proof.
  assert (Hwf : env_vars_wf (_env_vars (fresh_state fresh_world)))
    by apply initial_state_wf.
  split; [exact Hwf|].
  destruct (interpolation_variables sim _ Hwf) as (kwargs & E & Hl & _).
  exists kwargs. split; [exact E|].
  change "project" with (str_lower (str_drop 4 "ASV_PROJECT")) at 1.
  rewrite Hl.
  - vm_compute. reflexivity.
  - unfold known_vars. do 1 right. left.
  - discriminate.
Defined.

(** ** Creation of an environment *)

Section CreationFacts.

Context {World Info Exn : Type} `{EqDecision Info}.
Variable K : setup_collaborators World Info Exn.
Variable WIN : bool.
Variable os_path_join : string → string → string.
Implicit Types (env : environment) (st : setup_state World Info).

Lemma remove_if_exists_spec path st r st' :
  remove_if_exists K path st = (r, st') →
  _is_setup st' = _is_setup st
  ∧ ((r = Ok () ∧ setup_trace st' = setup_trace st)
     ∨ setup_trace st' = setup_trace st ++ [SvRmtree path]).
Proof.
  unfold remove_if_exists. destruct (path_exists K (disk st) path).
  - destruct (long_path_rmtree K path (disk st)) as [[e|] w]; intros; simplify_eq; auto.
  - intros. simplify_eq. auto.
Qed.

Lemma save_and_mark_spec env expected_info st r st' :
  save_and_mark K os_path_join env expected_info st = (r, st') →
  setup_trace st'
  = setup_trace st ++ [SvSaveInfo (os_path_join (_path env) "asv-env-info.json") expected_info]
  ∧ match r with
    | Ok _ => _is_setup st' = true
    | Raise _ => _is_setup st' = _is_setup st
    end.
Proof.
  unfold save_and_mark. destruct (write_json K _ _ _) as [[e|] w]; intros; by simplify_eq.
Qed.

(** X25: [create] sets an environment up once: when a call has returned,
    the flag is set and a further call returns at once, without a look at
    the disk. *)
Theorem create_once env expected_info st st' :
  create K WIN os_path_join env expected_info st = (Ok (), st') →
  _is_setup st' = true
  ∧ create K WIN os_path_join env expected_info st' = (Ok (), st').
Proof.
  intros H.
  assert (Hs : _is_setup st' = true).
  { unfold create in H. destruct (_is_setup st) eqn:E; [by simplify_eq|].
    destruct (check_presence _ _ _ _ _ _) as [[] w].
    - by apply save_and_mark_spec in H as [_ H].
    - destruct (remove_if_exists K _ _) as [[[]|e] st1]; [|done].
      destruct (_setup K _) as [[e|] w'].
      + by destruct (remove_if_exists K _ _) as [[[]|e'] st2].
      + by apply save_and_mark_spec in H as [_ H]. }
  split; [done|]. unfold create. by rewrite Hs.
Qed.

(** X26: what a call of [create] does for an environment that is not set
    up.  For an environment that is present it only saves the info file.
    When it returns, the flag is set and the last thing it did was to save
    the info file; it did nothing else exactly when the environment was
    present, and otherwise [_setup] came right before.  When it raises,
    the flag is not set, and one of three things happened: saving the info
    file raised, as the last thing and after the same events as in a call
    that returns; or the environment was not present and the removal of
    its directory raised, before anything else was done; or the
    environment was not present and [_setup] or the removal after it
    raised, so that [_setup] ran, at most the removal came after it, and
    the info file was not saved. *)
Theorem create_events env expected_info st r st' :
  _is_setup st = false →
  create K WIN os_path_join env expected_info st = (r, st') →
  let info_file := os_path_join (_path env) "asv-env-info.json" in
  let present := (check_presence K WIN os_path_join env expected_info (disk st)).1 in
  let saved t :=
    ∃ before, t = before ++ [SvSaveInfo info_file expected_info]
              ∧ (before = [] ↔ present = true)
              ∧ (before ≠ [] → ∃ clean, before = clean ++ [SvSetup]) in
  ∃ t, setup_trace st' = setup_trace st ++ t
       ∧ (present = true → t = [SvSaveInfo info_file expected_info])
       ∧ match r with
         | Ok _ => _is_setup st' = true ∧ saved t
         | Raise e =>
             _is_setup st' = false
             ∧ (saved t
                ∨ (present = false ∧ t = [SvRmtree (_path env)])
                ∨ (present = false
                   ∧ (∃ clean, t = clean ++ [SvSetup]
                               ∨ t = clean ++ [SvSetup; SvRmtree (_path env)])
                   ∧ Forall (λ ev, ∀ path content, ev ≠ SvSaveInfo path content) t))
         end.
Proof.
  intros Hs H. unfold create in H. rewrite Hs in H.
  destruct (check_presence _ _ _ _ _ _) as [present w] eqn:Ep. simpl.
  destruct present.
  - apply save_and_mark_spec in H as [T F]. simpl in T, F.
    eexists. split; [exact T|]. split; [done|].
    assert (S : ∃ before : list (setup_event Info),
               [SvSaveInfo (os_path_join (_path env) "asv-env-info.json") expected_info]
               = before ++ [SvSaveInfo (os_path_join (_path env) "asv-env-info.json")
                              expected_info]
               ∧ (before = [] ↔ true = true)
               ∧ (before ≠ [] → ∃ clean, before = clean ++ [SvSetup])).
    { exists []. split; [done|]. split; [done|]. done. }
    destruct r as [[]|e]; auto.
  - destruct (remove_if_exists K (_path env) (SetupState false w (setup_trace st)))
      as [r1 st1] eqn:E1.
    apply remove_if_exists_spec in E1 as [F1 T1]. simpl in F1, T1.
    destruct r1 as [[]|e1].
    2:{ simplify_eq. destruct T1 as [[? _]|T1]; [done|].
        exists [SvRmtree (_path env)]. split; [done|]. split; [done|]. auto. }
    assert (T1' : ∃ t1, setup_trace st1 = setup_trace st ++ t1
                        ∧ Forall (λ ev : setup_event Info,
                                    ∀ path content, ev ≠ SvSaveInfo path content) t1).
    { destruct T1 as [[_ ->]| ->].
      - exists []. by rewrite app_nil_r.
      - eexists. split; [done|]. by repeat constructor. }
    clear T1. destruct T1' as (t1 & T1 & N1).
    set (st2 := if negb (path_exists K (disk st1) (_env_dir env))
                then SetupState false (makedirs K (_env_dir env) (disk st1))
                                (setup_trace st1 ++ [SvMakedirs (_env_dir env)])
                else st1) in H.
    assert (T2 : ∃ t2, setup_trace st2 = setup_trace st ++ t2
                       ∧ Forall (λ ev : setup_event Info,
                                   ∀ path content, ev ≠ SvSaveInfo path content) t2).
    { unfold st2. destruct (negb _); simpl; [|eauto].
      exists (t1 ++ [SvMakedirs (_env_dir env)]). rewrite T1, (assoc_L (++)).
      split; [done|]. apply Forall_app. split; [done|]. by repeat constructor. }
    destruct T2 as (t2 & T2 & N2).
    destruct (_setup K (disk st2)) as [[e|] w'].
    + destruct (remove_if_exists K (_path env)
                  (SetupState false w' (setup_trace st2 ++ [SvSetup])))
        as [r3 st3] eqn:E3.
      apply remove_if_exists_spec in E3 as [F3 T3]. simpl in F3, T3.
      assert (R : ∃ e', r = Raise e' ∧ st' = st3)
        by (destruct r3 as [[]|e3]; simplify_eq; eauto).
      destruct R as (e' & -> & ->). clear H.
      assert (T3' : setup_trace st3 = setup_trace st2 ++ [SvSetup]
                    ∨ setup_trace st3 = (setup_trace st2 ++ [SvSetup]) ++ [SvRmtree (_path env)])
        by (destruct T3 as [[_ ?]|?]; auto).
      destruct T3' as [T3'|T3']; rewrite T3', T2.
      * exists (t2 ++ [SvSetup]). rewrite (assoc_L (++)). split; [done|].
        split; [done|]. split; [done|]. right. right. split; [done|]. split; [eauto|].
        apply Forall_app. split; [done|]. by repeat constructor.
      * exists (t2 ++ [SvSetup; SvRmtree (_path env)]).
        rewrite <- !(assoc_L (++)). split; [done|].
        split; [done|]. split; [done|]. right. right. split; [done|]. split; [eauto|].
        apply Forall_app. split; [done|]. by repeat constructor.
    + apply save_and_mark_spec in H as [T F]. simpl in T, F.
      exists ((t2 ++ [SvSetup]) ++ [SvSaveInfo (os_path_join (_path env) "asv-env-info.json")
                                      expected_info]).
      rewrite T, T2, !(assoc_L (++)). split; [done|]. split; [done|].
      assert (S : ∃ before : list (setup_event Info),
                 (t2 ++ [SvSetup])
                 ++ [SvSaveInfo (os_path_join (_path env) "asv-env-info.json") expected_info]
                 = before ++ [SvSaveInfo (os_path_join (_path env) "asv-env-info.json")
                                expected_info]
                 ∧ (before = [] ↔ false = true)
                 ∧ (before ≠ [] → ∃ clean, before = clean ++ [SvSetup])).
      { exists (t2 ++ [SvSetup]). split; [done|]. split.
        - split; [|done]. by intros [_ ?]%app_eq_nil.
        - intros _. by exists t2. }
      rewrite <- !(assoc_L (++)) in S. rewrite <- !(assoc_L (++)).
      destruct r as [[]|e]; auto.
Qed.

End CreationFacts.

Lemma create_once_witness :
  _is_setup (create (sample_setup true) false path_join default_env "virtualenv 3.9"
               (SetupState false (SampleDisk [] None) [])).2 = true.
Proof.
  destruct (create (sample_setup true) false path_join default_env "virtualenv 3.9"
              (SetupState false (SampleDisk [] None) [])) as [r st'] eqn:E.
  assert (Er : r = Ok ()).
  { change r with (r, st').1. rewrite <- E. vm_compute. reflexivity. }
  subst r.
  exact (proj1 (create_once (sample_setup true) false path_join default_env
                  "virtualenv 3.9" _ st' E)).
Defined.

Lemma create_events_witness :
  ((create (sample_setup false) false path_join default_env "virtualenv 3.9"
      (SetupState false (SampleDisk [] None) [])).1 = Raise "virtualenv failed"
   ∧ _is_setup (create (sample_setup false) false path_join default_env "virtualenv 3.9"
                  (SetupState false (SampleDisk [] None) [])).2 = false)
  ∧ ((create read_only_setup false path_join default_env "virtualenv 3.9"
        (SetupState false (SampleDisk [] None) [])).1 = Raise "read-only file system"
     ∧ _is_setup (create read_only_setup false path_join default_env "virtualenv 3.9"
                    (SetupState false (SampleDisk [] None) [])).2 = false).
Proof.
  split.
  - destruct (create (sample_setup false) false path_join default_env "virtualenv 3.9"
                (SetupState false (SampleDisk [] None) [])) as [r st'] eqn:E.
    assert (Er : r = Raise "virtualenv failed").
    { change r with (r, st').1. rewrite <- E. vm_compute. reflexivity. }
    split; [exact Er|]. subst r.
    destruct (create_events (sample_setup false) false path_join default_env
                "virtualenv 3.9" (SetupState false (SampleDisk [] None) []) _ st'
                eq_refl E) as (t & _ & _ & H & _).
    exact H.
  - destruct (create read_only_setup false path_join default_env "virtualenv 3.9"
                (SetupState false (SampleDisk [] None) [])) as [r st'] eqn:E.
    assert (Er : r = Raise "read-only file system").
    { change r with (r, st').1. rewrite <- E. vm_compute. reflexivity. }
    split; [exact Er|]. subst r.
    destruct (create_events read_only_setup false path_join default_env
                "virtualenv 3.9" (SetupState false (SampleDisk [] None) []) _ st'
                eq_refl E) as (t & _ & _ & H & _).
    exact H.
Defined.
